(** * SAWDA canvas editor: a shallow embedding of [ImageEditor.tsx]

    The first part is the model, in the order of the source:
    - [Dxf]: the scanline vectoriser [generateDxf] nested in [handleDownload];
    - [Number]: the arithmetic of JavaScript numbers, with [Float64] (IEEE
      binary64, what the program computes) as its instance, and
      [FloatValue], the real numbers the doubles stand for;
    - the canvas element and the array operations the component calls;
    - [FileName]: the template literal [getFileName];
    - [Component]: the state of the component, its handlers, and the
      transition system the events drive;
    - [Session]: two runs of the component used as examples.

    The second part states and proves the properties.

    Numbers that hold array indices and pixel coordinates are integers and
    are modelled in [Z] and [nat]; numbers that take part in the pan and zoom
    arithmetic are doubles.  What the host's rasteriser and encoders produce
    ([drawImage], [stroke], [toDataURL]) is not interpreted: bitmaps they
    leave come with the event, their outputs stay symbolic. *)

From Stdlib Require Import ZArith List String Ascii Bool Lia DecimalString.
From Stdlib Require Import Sorted Floats.
From Stdlib Require DecimalPos DecimalZ Reals Lra.
Import ListNotations.

Local Open Scope Z_scope.

(** ** Strings *)

Definition nl : string := String "010"%char EmptyString.

(** [`${n}`] for an integer-valued number. *)
Definition decimal (n : Z) : string := NilZero.string_of_int (Z.to_int n).

(** Concatenation of a list of strings, left to right. *)
Definition joined (l : list string) : string :=
  fold_right append EmptyString l.

(** ** ImageData *)

(** [data] is the [Uint8ClampedArray] of RGBA bytes in row-major order. *)
Record ImageData : Type := mkImageData {
  width : nat;
  height : nat;
  data : list Z
}.

Module Dxf.

Local Open Scope string_scope.

Definition threshold : Z := 128.

(** [data[i] < threshold]; reading past the end of a typed array gives
    [undefined], and every comparison with [undefined] is [false]. *)
Definition below (data : list Z) (i : nat) : bool :=
  match nth_error data i with
  | Some v => (v <? threshold)%Z
  | None => false
  end.

(** [data[i] > threshold]. *)
Definition above (data : list Z) (i : nat) : bool :=
  match nth_error data i with
  | Some v => (threshold <? v)%Z
  | None => false
  end.

(** [const isBlack = data[index] < threshold && data[index + 3] > threshold]
    with [index = (y * width + x) * 4]. *)
Definition isBlack (imgData : ImageData) (y x : nat) : bool :=
  let index := ((y * width imgData + x) * 4)%nat in
  below (data imgData) index && above (data imgData) (index + 3).

(** The template literal of one LINE entity. *)
Definition lineEntity (startX dxfY endX : Z) : string :=
  "0" ++ nl ++ "LINE" ++ nl ++ "8" ++ nl ++ "0" ++ nl ++
  "10" ++ nl ++ decimal startX ++ nl ++
  "20" ++ nl ++ decimal dxfY ++ nl ++
  "11" ++ nl ++ decimal endX ++ nl ++
  "21" ++ nl ++ decimal dxfY ++ nl.

Definition dxfHeader : string :=
  "0" ++ nl ++ "SECTION" ++ nl ++ "2" ++ nl ++ "ENTITIES" ++ nl.

Definition dxfFooter : string :=
  "0" ++ nl ++ "ENDSEC" ++ nl ++ "0" ++ nl ++ "EOF" ++ nl.

(** The variables the two nested loops assign. *)
Record Scan : Type := mkScan {
  inSegment : bool;
  startX : Z;
  dxfContent : string
}.

(** Body of the inner loop, at column [x] of row [y]. *)
Definition scanPixel (imgData : ImageData) (y : nat) (s : Scan) (x : nat) : Scan :=
  let isBlack := isBlack imgData y x in
  if isBlack && negb (inSegment s) then
    mkScan true (Z.of_nat x) (dxfContent s)
  else if negb isBlack && inSegment s then
    let endX := (Z.of_nat x - 1)%Z in
    if (startX s <=? endX)%Z then
      let dxfY := (Z.of_nat (height imgData) - 1 - Z.of_nat y)%Z in
      mkScan false (startX s) (dxfContent s ++ lineEntity (startX s) dxfY endX)
    else mkScan false (startX s) (dxfContent s)
  else s.

(** The [if (inSegment)] after the inner loop. *)
Definition closeRow (imgData : ImageData) (y : nat) (s : Scan) : string :=
  if inSegment s then
    let endX := (Z.of_nat (width imgData) - 1)%Z in
    if (startX s <=? endX)%Z then
      let dxfY := (Z.of_nat (height imgData) - 1 - Z.of_nat y)%Z in
      dxfContent s ++ lineEntity (startX s) dxfY endX
    else dxfContent s
  else dxfContent s.

(** Body of the outer loop: [inSegment] and [startX] are declared afresh for
    every row, [dxfContent] is carried over. *)
Definition scanRow (imgData : ImageData) (dxfContent : string) (y : nat) : string :=
  closeRow imgData y
    (fold_left (scanPixel imgData y) (seq 0 (width imgData))
               (mkScan false 0 dxfContent)).

Definition generateDxf (imgData : ImageData) : string :=
  fold_left (scanRow imgData) (seq 0 (height imgData)) dxfHeader ++ dxfFooter.

(** *** Runs, as the specification words them *)

(** [s..e] is a maximal contiguous run of ink among the columns [0..w-1]. *)
Definition MaximalRun (ink : nat -> bool) (w s e : nat) : Prop :=
  (s <= e < w)%nat /\
  (forall i, (s <= i <= e)%nat -> ink i = true) /\
  (s = 0%nat \/ ink (s - 1)%nat = false) /\
  (S e = w \/ ink (S e) = false).

(** The runs met from column [x] on, [n] columns remaining; [cur] is the start
    of the run in progress, if any. *)
Fixpoint runsFrom (ink : nat -> bool) (n x : nat) (cur : option nat)
  : list (nat * nat) :=
  match n with
  | O => match cur with
         | Some s => [(s, (x - 1)%nat)]
         | None => []
         end
  | S n' =>
      match ink x, cur with
      | true, None => runsFrom ink n' (S x) (Some x)
      | true, Some _ => runsFrom ink n' (S x) cur
      | false, Some s => (s, (x - 1)%nat) :: runsFrom ink n' (S x) None
      | false, None => runsFrom ink n' (S x) None
      end
  end.

Definition runs (ink : nat -> bool) (w : nat) : list (nat * nat) :=
  runsFrom ink w 0 None.

(** One LINE per run of row [y], at the flipped ordinate. *)
Definition rowEntities (imgData : ImageData) (y : nat) : list string :=
  map (fun r => lineEntity (Z.of_nat (fst r))
                           (Z.of_nat (height imgData) - 1 - Z.of_nat y)%Z
                           (Z.of_nat (snd r)))
      (runs (isBlack imgData y) (width imgData)).

Definition entities (imgData : ImageData) : list string :=
  flat_map (rowEntities imgData) (seq 0 (height imgData)).

(** *** What the proofs speak of *)

(** What the loop variables say about the columns already scanned. *)
Definition RunInProgress (ink : nat -> bool) (x : nat) (cur : option nat) : Prop :=
  match cur with
  | Some s => (s < x)%nat /\ (forall i, (s <= i < x)%nat -> ink i = true) /\
              (s = 0%nat \/ ink (s - 1)%nat = false)
  | None => x = 0%nat \/ ink (x - 1)%nat = false
  end.

(** Left to right, and apart from one another. *)
Definition before (r1 r2 : nat * nat) : Prop := (snd r1 < fst r2)%nat.

(** The run in progress, read off the loop variables. *)
Definition current (s : Scan) : option nat :=
  if inSegment s then Some (Z.to_nat (startX s)) else None.

Definition entityOf (imgData : ImageData) (y : nat) (r : nat * nat) : string :=
  lineEntity (Z.of_nat (fst r))
             (Z.of_nat (height imgData) - 1 - Z.of_nat y)%Z
             (Z.of_nat (snd r)).

(** The buffer of the example: opaque black, opaque black, opaque white,
    opaque black. *)
Definition example4x1 : ImageData :=
  mkImageData 4 1 [0; 0; 0; 255;  0; 0; 0; 255;  255; 255; 255; 255;  0; 0; 0; 255]%Z.

End Dxf.

(** ** JavaScript numbers *)

(** The arithmetic the component performs on non-integer numbers, and the
    decimal literals it writes.  The component is embedded once over this
    interface.  [Float64] is what the program runs on: IEEE 754 binary64 with
    round-to-nearest-even, through the kernel's primitive floats. *)
Class Number (num : Type) : Type := {
  lit_0 : num;
  lit_1 : num;
  lit_2 : num;
  lit_5 : num;
  lit_10 : num;
  lit_0_1 : num;      (* 0.1 *)
  lit_0_9 : num;      (* 0.9 *)
  lit_1_1 : num;      (* 1.1 *)
  lit_1_2 : num;      (* 1.2 *)
  add : num -> num -> num;
  sub : num -> num -> num;
  mul : num -> num -> num;
  div : num -> num -> num;
  lt : num -> num -> bool;
  Math_min : num -> num -> num;
  Math_max : num -> num -> num
}.

Declare Scope js_scope.
Delimit Scope js_scope with js.
Infix "+" := add : js_scope.
Infix "-" := sub : js_scope.
Infix "*" := mul : js_scope.
Infix "/" := div : js_scope.
Infix "<?" := lt : js_scope.

Module Float64.

Local Open Scope float_scope.

(** [Math.min]: NaN if an argument is NaN, and [-0] counts as smaller than
    [+0]. *)
Definition min (a b : float) : float :=
  if is_nan a || is_nan b then nan
  else if a <? b then a
  else if b <? a then b
  else if get_sign a then a else b.

(** [Math.max]: NaN if an argument is NaN, and [+0] counts as larger than
    [-0]. *)
Definition max (a b : float) : float :=
  if is_nan a || is_nan b then nan
  else if a <? b then b
  else if b <? a then a
  else if get_sign a then b else a.

(** The literals are written in hexadecimal: the double nearest to the
    decimal the source writes. *)
#[export] Instance binary64 : Number float := {|
  lit_0 := 0;
  lit_1 := 1;
  lit_2 := 2;
  lit_5 := 5;
  lit_10 := 10;
  lit_0_1 := 0x1.999999999999ap-4;
  lit_0_9 := 0x1.ccccccccccccdp-1;
  lit_1_1 := 0x1.199999999999ap+0;
  lit_1_2 := 0x1.3333333333333p+0;
  add := PrimFloat.add;
  sub := PrimFloat.sub;
  mul := PrimFloat.mul;
  div := PrimFloat.div;
  lt := PrimFloat.ltb;
  Math_min := min;
  Math_max := max
|}.

(** [0.1 <= s && s <= 10], as JavaScript evaluates it. *)
Definition inRange (s : float) : bool := (lit_0_1 <=? s) && (s <=? lit_10).

Definition clamp (s : float) : float := Math_max lit_0_1 (Math_min s lit_10).

(** Neither zero, nor infinite, nor NaN. *)
Definition finite (f : float) : Prop :=
  exists s m e, Prim2SF f = S754_finite s m e.

End Float64.

(** ** Doubles as real numbers *)

Module FloatValue.

Import Reals.

Local Open Scope R_scope.

(** [2^e], for an exponent of either sign. *)
Definition pow2 (e : Z) : R := powerRZ 2 e.

(** The real number a number of the format stands for; the infinities and
    NaN, which stand for none, are given 0. *)
Definition SF2R (f : spec_float) : R :=
  match f with
  | S754_finite s m e =>
      if s then - (IZR (Z.pos m) * pow2 e) else IZR (Z.pos m) * pow2 e
  | _ => 0
  end.

(** Zero or finite: a number of the format that stands for a real number. *)
Definition isReal (f : spec_float) : bool :=
  match f with
  | S754_zero _ | S754_finite _ _ _ => true
  | _ => false
  end.

(** The real number a double stands for. *)
Definition value (f : float) : R := SF2R (Prim2SF f).

(** Neither infinite nor NaN. *)
Definition real (f : float) : bool := isReal (Prim2SF f).

(** The part of a number that a truncation to [m] units has cut off, in
    units, as the round and sticky bits record it. *)
Definition cutOff (r s : bool) (t : R) : Prop :=
  match r, s with
  | false, false => t = 0
  | false, true => 0 < t < / 2
  | true, false => t = / 2
  | true, true => / 2 < t < 1
  end.

(** [v] is [m] units of [2^e] and the part cut off. *)
Definition located (v : R) (mrs : shr_record) (e : Z) : Prop :=
  exists t, v = (IZR (shr_m mrs) + t) * pow2 e /\ cutOff (shr_r mrs) (shr_s mrs) t.

(** The unit roundoff and half the smallest positive number. *)
Definition u : R := pow2 (-53).
Definition eta : R := pow2 (-1075).

(** [f] is [exact] rounded: within the relative error [u], or within [eta]
    where the format has run out of exponents. *)
Definition rounds (f exact : R) : Prop :=
  Rabs (f - exact) <= Rmax (u * Rabs exact) eta.

End FloatValue.

(** ** The component *)

Inductive Tool : Type := brush | eraser | pan.

Inductive Format : Type := png | jpeg | svg | dxf.

(** ['in' | 'out' | 'reset']. *)
Inductive Direction : Type := zoom_in | zoom_out | zoom_reset.

(** The two fields of [DesignOptions] the editor reads. *)
Record DesignOptions : Type := mkDesignOptions {
  material : string;
  designType : string
}.

(** A decoded [HTMLImageElement]. *)
Record Image : Type := mkImage {
  image_width : nat;
  image_height : nat
}.

(** The canvas element: its size, its bitmap (RGBA bytes, row-major) and
    whether [getContext('2d')] yields a context for it. *)
Record Canvas : Type := mkCanvas {
  canvas_width : nat;
  canvas_height : nat;
  bitmap : list Z;
  has2d : bool
}.

Inductive CanvasRenderingContext2D : Type := Context2D.

Definition getContext (canvas : Canvas) : option CanvasRenderingContext2D :=
  if has2d canvas then Some Context2D else None.

(** Assigning [canvas.width] and [canvas.height] clears the bitmap to
    transparent black. *)
Definition resize (canvas : Canvas) (w h : nat) : Canvas :=
  mkCanvas w h (repeat 0 (w * h * 4)) (has2d canvas).

Definition setBitmap (canvas : Canvas) (pixels : list Z) : Canvas :=
  mkCanvas (canvas_width canvas) (canvas_height canvas) pixels (has2d canvas).

(** [document.createElement('canvas')]: 300 by 150, transparent black. *)
Definition createCanvas : Canvas := mkCanvas 300 150 (repeat 0 (300 * 150 * 4)) true.

(** [clearRect(0, 0, canvas.width, canvas.height)] under the identity
    transform. *)
Definition clearRect (canvas : Canvas) : Canvas :=
  setBitmap canvas (repeat 0 (canvas_width canvas * canvas_height canvas * 4)).

(** [getImageData(0, 0, canvas.width, canvas.height)]; a zero width or height
    throws [IndexSizeError]. *)
Definition getImageData (canvas : Canvas) : option ImageData :=
  if (canvas_width canvas =? 0)%nat || (canvas_height canvas =? 0)%nat then None
  else Some (mkImageData (canvas_width canvas) (canvas_height canvas) (bitmap canvas)).

(** [putImageData(imageData, 0, 0)]: the bytes of [imageData] replace those
    of the bitmap where the two rectangles overlap. *)
Definition putImageData (canvas : Canvas) (imageData : ImageData) : Canvas :=
  let w := canvas_width canvas in
  setBitmap canvas
    (map (fun i =>
            let y := (i / (w * 4))%nat in
            let x := ((i mod (w * 4)) / 4)%nat in
            let channel := (i mod 4)%nat in
            if (x <? width imageData)%nat && (y <? height imageData)%nat then
              nth ((y * width imageData + x) * 4 + channel) (data imageData) 0
            else nth i (bitmap canvas) 0)
         (seq 0 (w * canvas_height canvas * 4))).

(** [array[i]] for a number [i] that holds an integer: [undefined] outside
    the array. *)
Definition item {A : Type} (l : list A) (i : Z) : option A :=
  if i <? 0 then None else nth_error l (Z.to_nat i).

(** [Array.prototype.slice(start, end)]. *)
Definition relativeIndex (len i : Z) : Z :=
  if i <? 0 then Z.max (len + i) 0 else Z.min i len.

Definition slice {A : Type} (l : list A) (start stop : Z) : list A :=
  let len := Z.of_nat (List.length l) in
  let k := relativeIndex len start in
  let final := relativeIndex len stop in
  firstn (Z.to_nat (final - k)) (skipn (Z.to_nat k) l).

(** *** File names *)

Module FileName.

Local Open Scope string_scope.

(** The metadata is modelled as ASCII text, on which [toLowerCase] maps
    [A-Z] to [a-z] and leaves every other character alone. *)
Definition lowerChar (c : ascii) : ascii :=
  let n := nat_of_ascii c in
  if (65 <=? n)%nat && (n <=? 90)%nat then ascii_of_nat (n + 32) else c.

Fixpoint toLowerCase (s : string) : string :=
  match s with
  | EmptyString => EmptyString
  | String c s' => String (lowerChar c) (toLowerCase s')
  end.

(** [s.replace(pattern, replacement)] with one-character strings: a string
    pattern replaces its first occurrence only. *)
Fixpoint replace (pattern replacement : ascii) (s : string) : string :=
  match s with
  | EmptyString => EmptyString
  | String c s' =>
      if Ascii.eqb c pattern then String replacement s'
      else String c (replace pattern replacement s')
  end.

Definition getFileName (options : DesignOptions) (ext : string) : string :=
  "cnc-design-" ++ toLowerCase (material options) ++ "-" ++
  replace " " "-" (toLowerCase (designType options)) ++ "." ++ ext.

(** The value of a [format], a string literal type. *)
Definition formatString (format : Format) : string :=
  match format with
  | png => "png"
  | jpeg => "jpeg"
  | svg => "svg"
  | dxf => "dxf"
  end.

(** [link.download], branch by branch. *)
Definition downloadName (options : DesignOptions) (format : Format) : string :=
  match format with
  | svg => getFileName options "svg"
  | dxf => getFileName options "dxf"
  | _ => getFileName options (formatString format)
  end.

(** The name as the specification words it: every space becomes a hyphen. *)
Fixpoint hyphenated (s : string) : string :=
  match s with
  | EmptyString => EmptyString
  | String c s' => String (if Ascii.eqb c " " then "-"%char else c) (hyphenated s')
  end.

Definition specifiedName (options : DesignOptions) (format : Format) : string :=
  "cnc-design-" ++ hyphenated (toLowerCase (material options)) ++ "-" ++
  hyphenated (toLowerCase (designType options)) ++ "." ++ formatString format.

Fixpoint spaces (s : string) : nat :=
  match s with
  | EmptyString => 0
  | String c s' => ((if Ascii.eqb c " " then 1 else 0) + spaces s')%nat
  end.

End FileName.

(** *** State *)

Section Component.

Context {num : Type} {N : Number num}.

Local Open Scope js_scope.

Record Point : Type := mkPoint { x : num; y : num }.

Record ViewTransform : Type := mkViewTransform { scale : num; offset : Point }.

(** [offsetX] and [offsetY] of a mouse event, [deltaY] of a wheel event. *)
Record MouseEvent : Type := mkMouseEvent { offsetX : num; offsetY : num }.

Record WheelEvent : Type := mkWheelEvent { nativeEvent : MouseEvent; deltaY : num }.

(** The [useState] variables and the [useRef] cells of the component. *)
Record State : Type := mkState {
  canvasRef : option Canvas;
  context : option CanvasRenderingContext2D;
  isDrawing : bool;
  tool : Tool;
  lineWidth : num;
  history : list ImageData;
  historyIndex : Z;
  isDownloadMenuOpen : bool;
  viewTransform : ViewTransform;
  isPanning : bool;
  panStartPoint : Point;
  mousePosRef : option Point;
  lastMousePosRef : option Point
}.

Definition setCanvas (st : State) (v : option Canvas) : State :=
  mkState v (context st) (isDrawing st) (tool st) (lineWidth st) (history st)
    (historyIndex st) (isDownloadMenuOpen st) (viewTransform st) (isPanning st)
    (panStartPoint st) (mousePosRef st) (lastMousePosRef st).

Definition setContext (st : State) (v : option CanvasRenderingContext2D) : State :=
  mkState (canvasRef st) v (isDrawing st) (tool st) (lineWidth st) (history st)
    (historyIndex st) (isDownloadMenuOpen st) (viewTransform st) (isPanning st)
    (panStartPoint st) (mousePosRef st) (lastMousePosRef st).

Definition setIsDrawing (st : State) (v : bool) : State :=
  mkState (canvasRef st) (context st) v (tool st) (lineWidth st) (history st)
    (historyIndex st) (isDownloadMenuOpen st) (viewTransform st) (isPanning st)
    (panStartPoint st) (mousePosRef st) (lastMousePosRef st).

Definition setTool (st : State) (v : Tool) : State :=
  mkState (canvasRef st) (context st) (isDrawing st) v (lineWidth st) (history st)
    (historyIndex st) (isDownloadMenuOpen st) (viewTransform st) (isPanning st)
    (panStartPoint st) (mousePosRef st) (lastMousePosRef st).

Definition setLineWidth (st : State) (v : num) : State :=
  mkState (canvasRef st) (context st) (isDrawing st) (tool st) v (history st)
    (historyIndex st) (isDownloadMenuOpen st) (viewTransform st) (isPanning st)
    (panStartPoint st) (mousePosRef st) (lastMousePosRef st).

Definition setHistory (st : State) (v : list ImageData) : State :=
  mkState (canvasRef st) (context st) (isDrawing st) (tool st) (lineWidth st) v
    (historyIndex st) (isDownloadMenuOpen st) (viewTransform st) (isPanning st)
    (panStartPoint st) (mousePosRef st) (lastMousePosRef st).

Definition setHistoryIndex (st : State) (v : Z) : State :=
  mkState (canvasRef st) (context st) (isDrawing st) (tool st) (lineWidth st) (history st)
    v (isDownloadMenuOpen st) (viewTransform st) (isPanning st)
    (panStartPoint st) (mousePosRef st) (lastMousePosRef st).

Definition setIsDownloadMenuOpen (st : State) (v : bool) : State :=
  mkState (canvasRef st) (context st) (isDrawing st) (tool st) (lineWidth st) (history st)
    (historyIndex st) v (viewTransform st) (isPanning st)
    (panStartPoint st) (mousePosRef st) (lastMousePosRef st).

Definition setViewTransform (st : State) (v : ViewTransform) : State :=
  mkState (canvasRef st) (context st) (isDrawing st) (tool st) (lineWidth st) (history st)
    (historyIndex st) (isDownloadMenuOpen st) v (isPanning st)
    (panStartPoint st) (mousePosRef st) (lastMousePosRef st).

Definition setIsPanning (st : State) (v : bool) : State :=
  mkState (canvasRef st) (context st) (isDrawing st) (tool st) (lineWidth st) (history st)
    (historyIndex st) (isDownloadMenuOpen st) (viewTransform st) v
    (panStartPoint st) (mousePosRef st) (lastMousePosRef st).

Definition setPanStartPoint (st : State) (v : Point) : State :=
  mkState (canvasRef st) (context st) (isDrawing st) (tool st) (lineWidth st) (history st)
    (historyIndex st) (isDownloadMenuOpen st) (viewTransform st) (isPanning st)
    v (mousePosRef st) (lastMousePosRef st).

Definition setMousePos (st : State) (v : option Point) : State :=
  mkState (canvasRef st) (context st) (isDrawing st) (tool st) (lineWidth st) (history st)
    (historyIndex st) (isDownloadMenuOpen st) (viewTransform st) (isPanning st)
    (panStartPoint st) v (lastMousePosRef st).

Definition setLastMousePos (st : State) (v : option Point) : State :=
  mkState (canvasRef st) (context st) (isDrawing st) (tool st) (lineWidth st) (history st)
    (historyIndex st) (isDownloadMenuOpen st) (viewTransform st) (isPanning st)
    (panStartPoint st) (mousePosRef st) v.

(** [{ scale: 1, offset: { x: 0, y: 0 } }]. *)
Definition identityTransform : ViewTransform :=
  mkViewTransform lit_1 (mkPoint lit_0 lit_0).

(** The state after mounting: the initial values of the hooks, the ref
    attached to the canvas element. *)
Definition initial (canvas : Canvas) : State :=
  mkState (Some canvas) None false brush lit_5 [] (-1) false identityTransform
          false (mkPoint lit_0 lit_0) None None.

(** *** Handlers *)

Definition getTransformedPoint (st : State) (px py : num) : Point :=
  let vt := viewTransform st in
  mkPoint ((px - x (offset vt)) / scale vt) ((py - y (offset vt)) / scale vt).

(** [clearRect], then [putImageData(history[historyIndex], 0, 0)] if there is
    such an entry; [putImageData] ignores the transform set before it. *)
Definition redrawCanvas (st : State) : State :=
  match context st, canvasRef st with
  | Some _, Some canvas =>
      let cleared := clearRect canvas in
      match history st, item (history st) (historyIndex st) with
      | _ :: _, Some entry => setCanvas st (Some (putImageData cleared entry))
      | _, _ => setCanvas st (Some cleared)
      end
  | _, _ => st
  end.

Definition saveState (st : State) : State :=
  match context st, canvasRef st with
  | Some _, Some canvas =>
      match getImageData canvas with
      | Some imageData =>
          let newHistory := slice (history st) 0 (historyIndex st + 1)%Z ++ [imageData] in
          setHistoryIndex (setHistory st newHistory)
                          (Z.of_nat (List.length newHistory) - 1)%Z
      | None => st
      end
  | _, _ => st
  end.

(** [image.onload], with the [canvas] and [ctx] its closure holds.  [drawn]
    is the bitmap [drawImage(image, 0, 0)] leaves on the canvas; the
    rasteriser is the host's and is not interpreted.  [ctx!.getImageData]
    throws when [ctx] is null, and the three setters are then not reached. *)
Definition onload (canvas : Canvas) (ctx : option CanvasRenderingContext2D)
    (image : Image) (drawn : list Z) (st : State) : State :=
  let canvas :=
    if negb (canvas_width canvas =? image_width image)%nat
       || negb (canvas_height canvas =? image_height image)%nat
    then resize canvas (image_width image) (image_height image)
    else canvas in
  match ctx with
  | Some _ =>
      let canvas := setBitmap canvas drawn in
      match getImageData canvas with
      | Some initialImageData =>
          setViewTransform
            (setHistoryIndex (setHistory (setCanvas st (Some canvas)) [initialImageData]) 0%Z)
            identityTransform
      | None => setCanvas st (Some canvas)
      end
  | None => setCanvas st (Some canvas)
  end.

(** The effect on [src]; [loaded] is the image and the bitmap it is drawn to
    when the load succeeds, [None] when [onload] never fires. *)
Definition sourceEffect (loaded : option (Image * list Z)) (st : State) : State :=
  match canvasRef st with
  | Some canvas =>
      let ctx := getContext canvas in
      let st := setContext st ctx in
      match loaded with
      | Some (image, drawn) => onload canvas ctx image drawn st
      | None => st
      end
  | None => st
  end.

(** One animation frame of the stroke renderer; [painted] is the bitmap
    [stroke()] leaves.  The callback is the one of the current render: it
    reads [isDrawing], [context] and [tool] as that render has them, and the
    two pointer cells as they are when it runs. *)
Definition renderCanvas (painted : list Z) (st : State) : State :=
  match context st, mousePosRef st, lastMousePosRef st with
  | Some _, Some _, Some _ =>
      if negb (isDrawing st) then st
      else match tool st with
           | pan => st
           | _ =>
               let st :=
                 match canvasRef st with
                 | Some canvas => setCanvas st (Some (setBitmap canvas painted))
                 | None => st
                 end in
               setLastMousePos st (mousePosRef st)
           end
  | _, _, _ => st
  end.

Definition handleMouseDown (e : MouseEvent) (st : State) : State :=
  match tool st with
  | pan =>
      setPanStartPoint (setIsPanning st true)
        (mkPoint (offsetX e - x (offset (viewTransform st)))
                 (offsetY e - y (offset (viewTransform st))))
  | _ =>
      match context st with
      | Some _ =>
          let point := getTransformedPoint st (offsetX e) (offsetY e) in
          setIsDrawing (setLastMousePos (setMousePos st (Some point)) (Some point)) true
      | None => st
      end
  end.

Definition handleMouseUp (st : State) : State :=
  let st1 :=
    if isDrawing st
    then saveState (setLastMousePos (setMousePos (setIsDrawing st false) None) None)
    else st in
  if isPanning st then setIsPanning st1 false else st1.

Definition handleMouseMove (e : MouseEvent) (st : State) : State :=
  if isPanning st then
    let newOffset := mkPoint (offsetX e - x (panStartPoint st))
                             (offsetY e - y (panStartPoint st)) in
    setViewTransform st (mkViewTransform (scale (viewTransform st)) newOffset)
  else if negb (isDrawing st) then st
  else setMousePos st (Some (getTransformedPoint st (offsetX e) (offsetY e))).

Definition handleWheel (e : WheelEvent) (st : State) : State :=
  let vt := viewTransform st in
  let zoomFactor := lit_1_1 in
  let newScale :=
    if deltaY e <? lit_0 then scale vt * zoomFactor else scale vt / zoomFactor in
  let clampedScale := Math_max lit_0_1 (Math_min newScale lit_10) in
  let mousePoint := mkPoint (offsetX (nativeEvent e)) (offsetY (nativeEvent e)) in
  let newOffsetX :=
    x mousePoint - (x mousePoint - x (offset vt)) * (clampedScale / scale vt) in
  let newOffsetY :=
    y mousePoint - (y mousePoint - y (offset vt)) * (clampedScale / scale vt) in
  setViewTransform st (mkViewTransform clampedScale (mkPoint newOffsetX newOffsetY)).

Definition handleUndo (st : State) : State :=
  if (0 <? historyIndex st)%Z then setHistoryIndex st (historyIndex st - 1)%Z else st.

Definition handleResetEdits (st : State) : State :=
  if (0 <? List.length (history st))%nat then setHistoryIndex st 0%Z else st.

(** What the clicked link carries: [link.download] and what [link.href]
    points to.  The encoders are the host's; their output is kept symbolic. *)
Inductive Payload : Type :=
| DataURL (mimeType : string) (quality : option num) (source : Canvas)
| SvgBlob (svgWidth svgHeight : nat) (pngSource : Canvas)
| DxfBlob (dxfString : string).

Record Link : Type := mkLink { download : string; href : Payload }.

(** [tempCtx] is what [tempCanvas.getContext('2d')] returns. *)
Definition handleDownload (options : DesignOptions) (format : Format)
    (tempCtx : option CanvasRenderingContext2D) (st : State) : State * option Link :=
  match canvasRef st with
  | None => (st, None)
  | Some canvas =>
      match tempCtx with
      | None => (st, None)
      | Some _ =>
          let tempCanvas :=
            resize createCanvas (canvas_width canvas) (canvas_height canvas) in
          let tempCanvas :=
            match history st, item (history st) (historyIndex st) with
            | _ :: _, Some entry => putImageData tempCanvas entry
            | _, _ => tempCanvas
            end in
          let getFileName := FileName.getFileName options in
          match format with
          | svg =>
              (setIsDownloadMenuOpen st false,
               Some (mkLink (getFileName "svg"%string)
                            (SvgBlob (canvas_width tempCanvas) (canvas_height tempCanvas)
                                     tempCanvas)))
          | dxf =>
              match getImageData tempCanvas with
              | Some imageData =>
                  (setIsDownloadMenuOpen st false,
                   Some (mkLink (getFileName "dxf"%string)
                                (DxfBlob (Dxf.generateDxf imageData))))
              | None => (st, None)
              end
          | _ =>
              let mimeType := ("image/" ++ FileName.formatString format)%string in
              (setIsDownloadMenuOpen st false,
               Some (mkLink (getFileName (FileName.formatString format))
                            (DataURL mimeType
                                     (match format with
                                      | jpeg => Some lit_0_9
                                      | _ => None
                                      end)
                                     tempCanvas)))
          end
      end
  end.

(** [clientWidth] and [clientHeight] are those of the canvas's parent. *)
Definition handleZoomChange (direction : Direction) (clientWidth clientHeight : num)
    (st : State) : State :=
  match canvasRef st with
  | None => st
  | Some _ =>
      match direction with
      | zoom_reset => setViewTransform st identityTransform
      | _ =>
          let vt := viewTransform st in
          let zoomFactor := lit_1_2 in
          let newScale :=
            match direction with
            | zoom_in => scale vt * zoomFactor
            | _ => scale vt / zoomFactor
            end in
          let clampedScale := Math_max lit_0_1 (Math_min newScale lit_10) in
          let center := mkPoint (clientWidth / lit_2) (clientHeight / lit_2) in
          let newOffsetX :=
            x center - (x center - x (offset vt)) * (clampedScale / scale vt) in
          let newOffsetY :=
            y center - (y center - y (offset vt)) * (clampedScale / scale vt) in
          setViewTransform st (mkViewTransform clampedScale (mkPoint newOffsetX newOffsetY))
      end
  end.

(** *** The transition system *)

Inductive Event : Type :=
| SourceChanged (loaded : option (Image * list Z))
| MouseDown (e : MouseEvent)
| MouseUp
| MouseLeave
| MouseMove (e : MouseEvent)
| Wheel (e : WheelEvent)
| AnimationFrame (painted : list Z)
| SelectTool (t : Tool)
| ChangeLineWidth (value : num)
| Undo
| ResetEdits
| ToggleDownloadMenu
| ClickOutside
| Download (options : DesignOptions) (format : Format)
           (tempCtx : option CanvasRenderingContext2D)
| ZoomChange (direction : Direction) (clientWidth clientHeight : num).

(** [redrawCanvas] runs as an effect after a render in which [context],
    [viewTransform], [history] or [historyIndex] has changed.  A mouse-up, an
    undo and a reset change one of these exactly when they change
    [historyIndex]; the other handlers that assign them do so on every call. *)
Definition redrawIfIndexChanged (before after : State) : State :=
  if (historyIndex after =? historyIndex before)%Z then after else redrawCanvas after.

Definition step (ev : Event) (st : State) : State :=
  match ev with
  | SourceChanged loaded => redrawCanvas (sourceEffect loaded st)
  | MouseDown e => handleMouseDown e st
  | MouseUp | MouseLeave => redrawIfIndexChanged st (handleMouseUp st)
  | MouseMove e =>
      if isPanning st then redrawCanvas (handleMouseMove e st) else handleMouseMove e st
  | Wheel e => redrawCanvas (handleWheel e st)
  | AnimationFrame painted => renderCanvas painted st
  | SelectTool t => setTool st t
  | ChangeLineWidth value => setLineWidth st value
  | Undo => redrawIfIndexChanged st (handleUndo st)
  | ResetEdits => redrawIfIndexChanged st (handleResetEdits st)
  | ToggleDownloadMenu => setIsDownloadMenuOpen st (negb (isDownloadMenuOpen st))
  | ClickOutside => setIsDownloadMenuOpen st false
  | Download options format tempCtx => fst (handleDownload options format tempCtx st)
  | ZoomChange direction clientWidth clientHeight =>
      redrawCanvas (handleZoomChange direction clientWidth clientHeight st)
  end.

(** An image whose [onload] fires has been decoded and has a positive width
    and height. *)
Definition admissible (ev : Event) : Prop :=
  match ev with
  | SourceChanged (Some (image, _)) =>
      (0 < image_width image)%nat /\ (0 < image_height image)%nat
  | _ => True
  end.

Inductive reachable (canvas : Canvas) : State -> Prop :=
| reachable_initial : reachable canvas (initial canvas)
| reachable_step st ev :
    reachable canvas st -> admissible ev -> reachable canvas (step ev st).

Fixpoint run (evs : list Event) (st : State) : State :=
  match evs with
  | [] => st
  | ev :: evs' => run evs' (step ev st)
  end.

(** *** Zoom operations *)

(** A wheel notch over the canvas or a click on one of the zoom buttons. *)
Inductive ZoomOperation : Type :=
| WheelZoom (e : WheelEvent)
| ButtonZoom (direction : Direction) (clientWidth clientHeight : num).

Definition zoom (op : ZoomOperation) (st : State) : State :=
  match op with
  | WheelZoom e => handleWheel e st
  | ButtonZoom direction clientWidth clientHeight =>
      handleZoomChange direction clientWidth clientHeight st
  end.

(** The states after each operation of a sequence. *)
Fixpoint zoomTrace (ops : list ZoomOperation) (st : State) : list State :=
  match ops with
  | [] => []
  | op :: ops' => zoom op st :: zoomTrace ops' (zoom op st)
  end.

(** *** The invariant *)

(** Same size and same answer to [getContext]: the bitmap may differ. *)
Definition sameShape (a b : option Canvas) : Prop :=
  match a, b with
  | Some c, Some c' =>
      canvas_width c' = canvas_width c /\ canvas_height c' = canvas_height c /\
      has2d c' = has2d c
  | None, None => True
  | _, _ => False
  end.

(** A handler that leaves the history alone. *)
Definition Frame st st' : Prop :=
  history st' = history st /\ historyIndex st' = historyIndex st /\
  context st' = context st /\ sameShape (canvasRef st) (canvasRef st').

(** The data-model invariant: the index is [-1] on an empty history and a
    position of it otherwise, and a non-empty history comes with a context
    and a canvas of non-zero size. *)
Definition Consistent st : Prop :=
  exists canvas,
    canvasRef st = Some canvas /\
    (context st <> None -> has2d canvas = true) /\
    match history st with
    | [] => historyIndex st = (-1)%Z
    | _ :: _ =>
        (0 <= historyIndex st < Z.of_nat (List.length (history st)))%Z /\
        context st <> None /\
        (0 < canvas_width canvas)%nat /\ (0 < canvas_height canvas)%nat
    end.

End Component.

(** ** Two sessions *)

Module Session.

Import Float64.

Local Open Scope float_scope.

(** A 2x1 image is loaded, one stroke is drawn over it and the button is
    released: two history entries, the index on the second. *)
Definition loaded : list Z := [0; 0; 0; 255; 255; 255; 255; 255]%Z.

Definition painted : list Z := [0; 0; 0; 255; 0; 0; 0; 255]%Z.

Definition strokeEvents : list (@Event float) :=
  [SourceChanged (Some (mkImage 2 1, loaded));
   MouseDown (mkMouseEvent 1 0);
   AnimationFrame painted;
   MouseUp].

Definition afterStroke : @State float := run strokeEvents (initial createCanvas).

Definition wheelIn (px py : float) : @WheelEvent float :=
  mkWheelEvent (mkMouseEvent px py) (-1).

Definition wheelOut (px py : float) : @WheelEvent float :=
  mkWheelEvent (mkMouseEvent px py) 1.

(** Thirty wheel notches inwards at (100, 50) from the identity transform:
    the scale has reached 10. *)
Definition zoomedIn : @State float :=
  run (repeat (Wheel (wheelIn 100 50)) 30) (initial createCanvas).

End Session.

(** ** Reading the document back *)

Module Segments.

Import Dxf.

(** A horizontal segment of the document: first column, ordinate, last
    column. *)
Record Segment : Type := mkSegment {
  firstX : Z;
  ordinate : Z;
  lastX : Z
}.

Definition segmentEntity (s : Segment) : string :=
  lineEntity (firstX s) (ordinate s) (lastX s).

(** The segments of row [y], read off the runs the inner loop closes. *)
Definition rowSegments (imgData : ImageData) (y : nat) : list Segment :=
  map (fun r => mkSegment (Z.of_nat (fst r))
                          (Z.of_nat (height imgData) - 1 - Z.of_nat y)
                          (Z.of_nat (snd r)))
      (runs (isBlack imgData y) (width imgData)).

Definition segments (imgData : ImageData) : list Segment :=
  flat_map (rowSegments imgData) (seq 0 (height imgData)).

(** Rasterising a list of segments on a grid [h] rows high: the pixel at
    column [x] of row [y] (rows counted from the top) is covered when a
    segment at ordinate [h - 1 - y] spans column [x]. *)
Definition covers (h y x : nat) (s : Segment) : bool :=
  (ordinate s =? Z.of_nat h - 1 - Z.of_nat y) &&
  (firstX s <=? Z.of_nat x) && (Z.of_nat x <=? lastX s).

Definition covered (segs : list Segment) (h y x : nat) : bool :=
  existsb (covers h y x) segs.

(** *** A reader for the documents *)

(** The lines of a text: what lies between its line feeds. *)
Fixpoint lines (s : string) : list string :=
  match s with
  | EmptyString => [EmptyString]
  | String c s' =>
      if Ascii.eqb c "010" then EmptyString :: lines s'
      else match lines s' with
           | l :: ls => String c l :: ls
           | [] => [String c EmptyString]
           end
  end.

(** An integer written in decimal. *)
Definition readInteger (s : string) : option Z :=
  option_map Z.of_int (NilZero.int_of_string s).

(** The entities up to the end of the section.  A LINE takes twelve lines:
    [0], [LINE], layer [0] under code [8], the first point under [10] and
    [20], the second under [11] and [21]; only horizontal ones are read.
    The section ends with [0], [ENDSEC], [0], [EOF] and the empty rest after
    the last line feed. *)
Fixpoint readEntities (ls : list string) : option (list Segment) :=
  match ls with
  | c0 :: name :: c8 :: layer :: c10 :: x1 :: c20 :: y1 :: c11 :: x2 :: c21 :: y2
    :: rest =>
      if ((c0 =? "0") && (name =? "LINE") && (c8 =? "8") && (layer =? "0") &&
          (c10 =? "10") && (c20 =? "20") && (c11 =? "11") && (c21 =? "21"))%string
      then
        match readInteger x1, readInteger y1, readInteger x2, readInteger y2,
              readEntities rest with
        | Some a, Some b, Some c, Some d, Some segs =>
            if b =? d then Some (mkSegment a b c :: segs) else None
        | _, _, _, _, _ => None
        end
      else None
  | [c0; endsec; c0'; eof; rest] =>
      if ((c0 =? "0") && (endsec =? "ENDSEC") && (c0' =? "0") && (eof =? "EOF") &&
          (rest =? EmptyString))%string
      then Some [] else None
  | _ => None
  end.

(** The segments of a document: the ENTITIES section is read, anything else
    is refused. *)
Definition readDxf (document : string) : option (list Segment) :=
  match lines document with
  | c0 :: section :: c2 :: entities :: rest =>
      if ((c0 =? "0") && (section =? "SECTION") && (c2 =? "2") &&
          (entities =? "ENTITIES"))%string
      then readEntities rest else None
  | _ => None
  end.

End Segments.

(** ** Letters of a file name *)

Module Casing.

(** An ASCII capital, the characters [toLowerCase] changes. *)
Definition isUpperCase (c : ascii) : bool :=
  let n := nat_of_ascii c in (65 <=? n)%nat && (n <=? 90)%nat.

Fixpoint capitals (s : string) : nat :=
  match s with
  | EmptyString => 0
  | String c s' => ((if isUpperCase c then 1 else 0) + capitals s')%nat
  end.

(** A text of ASCII characters only (codes 0 to 127): there [toLowerCase]
    is the map of [A-Z] to [a-z], character by character. *)
Fixpoint isAscii (s : string) : bool :=
  match s with
  | EmptyString => true
  | String c s' => (nat_of_ascii c <? 128)%nat && isAscii s'
  end.

End Casing.

(** ** Gestures and what the canvas shows *)

Section Gestures.

Context {num : Type} {N : Number num}.

(** Between pressing and releasing the button with the brush or the eraser:
    the pointer moves, and animation frames paint the stroke so far. *)
Inductive StrokeStep : Type :=
| PointerMoves (e : @MouseEvent num)
| FramePaints (painted : list Z).

Definition strokeEvent (s : StrokeStep) : @Event num :=
  match s with
  | PointerMoves e => MouseMove e
  | FramePaints painted => AnimationFrame painted
  end.

(** The bitmap the frames of a stroke leave: that of the last one. *)
Definition strokeBitmap (steps : list StrokeStep) (pixels : list Z) : list Z :=
  fold_left (fun pixels s =>
               match s with
               | PointerMoves _ => pixels
               | FramePaints painted => painted
               end) steps pixels.

Definition isLoad (ev : @Event num) : bool :=
  match ev with
  | SourceChanged _ => true
  | _ => false
  end.

Definition isPan (t : Tool) : bool :=
  match t with
  | pan => true
  | _ => false
  end.

(** The number of bytes of a bitmap of the size of [canvas]. *)
Definition byteLength (canvas : Canvas) : nat :=
  (canvas_width canvas * canvas_height canvas * 4)%nat.

(** What the host guarantees of the bitmaps it hands over: [drawImage] and
    [stroke] leave a bitmap of the size of the canvas they draw on. *)
Definition wellFormed (st : @State num) (ev : @Event num) : Prop :=
  match ev with
  | SourceChanged (Some (image, drawn)) =>
      (0 < image_width image)%nat /\ (0 < image_height image)%nat /\
      List.length drawn = (image_width image * image_height image * 4)%nat
  | AnimationFrame painted =>
      forall canvas, canvasRef st = Some canvas ->
                     List.length painted = byteLength canvas
  | _ => True
  end.

Fixpoint wellFormedRun (evs : list (@Event num)) (st : @State num) : Prop :=
  match evs with
  | [] => True
  | ev :: evs' => wellFormed st ev /\ wellFormedRun evs' (step ev st)
  end.

(** A history entry of the size of the canvas. *)
Definition entrySized (canvas : Canvas) (entry : ImageData) : Prop :=
  width entry = canvas_width canvas /\ height entry = canvas_height canvas /\
  List.length (data entry) = byteLength canvas.

(** The bitmap and the history entries have the size of the canvas. *)
Definition Sized (st : @State num) : Prop :=
  exists canvas,
    canvasRef st = Some canvas /\
    (context st <> None -> List.length (bitmap canvas) = byteLength canvas) /\
    Forall (entrySized canvas) (history st).

(** Outside a stroke the canvas shows the entry at the index. *)
Definition Shown (st : @State num) : Prop :=
  isDrawing st = false ->
  forall canvas entry,
    canvasRef st = Some canvas ->
    item (history st) (historyIndex st) = Some entry ->
    bitmap canvas = data entry.

(** The two pointer cells are set exactly during a stroke, and a stroke
    needs a context. *)
Definition Tracking (st : @State num) : Prop :=
  if isDrawing st
  then context st <> None /\ mousePosRef st <> None /\ lastMousePosRef st <> None
  else mousePosRef st = None /\ lastMousePosRef st = None.

End Gestures.

(** * Properties *)

(** ** Strings *)

Lemma append_assoc (a b c : string) : ((a ++ b) ++ c = a ++ (b ++ c))%string.
Proof. induction a as [|ch a IH]; simpl; [reflexivity | now rewrite IH]. Qed.

Lemma append_nil_r (a : string) : (a ++ "" = a)%string.
Proof. induction a as [|ch a IH]; simpl; [reflexivity | now rewrite IH]. Qed.

Lemma joined_app (l1 l2 : list string) :
  joined (l1 ++ l2) = (joined l1 ++ joined l2)%string.
Proof.
  induction l1 as [|s l1 IH]; simpl; [reflexivity|].
  now rewrite IH, append_assoc.
Qed.


(** ** The scanline vectoriser *)

Module DxfFacts.
Import Dxf.

(** Two runs that share their last column start at the same column. *)
Lemma run_start_unique ink s a b :
  (s <= b)%nat -> (a <= b)%nat ->
  (forall i, (s <= i <= b)%nat -> ink i = true) ->
  (forall i, (a <= i <= b)%nat -> ink i = true) ->
  (s = 0%nat \/ ink (s - 1)%nat = false) ->
  (a = 0%nat \/ ink (a - 1)%nat = false) ->
  a = s.
Proof.
  intros Hs Ha Is Ia Ls La.
  destruct (Nat.lt_trichotomy a s) as [Hlt | [Heq | Hgt]]; [exfalso | exact Heq | exfalso].
  - destruct Ls as [-> | Ls]; [lia|].
    rewrite Ia in Ls by lia. discriminate.
  - destruct La as [-> | La]; [lia|].
    rewrite Is in La by lia. discriminate.
Qed.

Lemma runsFrom_spec ink n : forall x cur,
  RunInProgress ink x cur ->
  forall a b, In (a, b) (runsFrom ink n x cur) <->
              MaximalRun ink (x + n) a b /\ (x <= S b)%nat.
Proof.
  induction n as [|n IH]; intros x cur Inv a b.
  - rewrite Nat.add_0_r. destruct cur as [s|]; simpl in *.
    + destruct Inv as (Hsx & Hink & Hleft). split.
      * intros [E | []]. injection E as <- <-.
        repeat split; try lia.
        -- intros i Hi. apply Hink. lia.
        -- exact Hleft.
      * intros ((Hab & Hrun & Hl & _) & Hx). left.
        assert (b = (x - 1)%nat) by lia. subst b.
        f_equal. symmetry.
        apply (run_start_unique ink s a (x - 1)); try lia; auto.
        intros i Hi. apply Hink. lia.
    + split; [intros []|].
      intros ((Hab & Hrun & _) & Hx).
      destruct Inv as [-> | Hf]; [lia|].
      assert (b = (x - 1)%nat) by lia. subst b.
      rewrite Hrun in Hf by lia. discriminate.
  - replace (x + S n)%nat with (S x + n)%nat by lia.
    simpl. destruct (ink x) eqn:Hx; destruct cur as [s|]; simpl in Inv.
    + (* ink, run in progress *)
      destruct Inv as (Hsx & Hink & Hleft).
      rewrite IH.
      2:{ simpl. repeat split; [lia | | exact Hleft].
          intros i Hi. destruct (Nat.eq_dec i x) as [->|]; [exact Hx | apply Hink; lia]. }
      split; intros (Hrun & Hb); (split; [exact Hrun | ]); [lia|].
      destruct (Nat.eq_dec (S b) x) as [E|]; [|lia].
      destruct Hrun as (Hab & _ & _ & [Hw | Hr]); [lia|].
      rewrite E, Hx in Hr. discriminate.
    + (* ink, a run starts here *)
      rewrite IH.
      2:{ simpl. repeat split; [lia | | ].
          - intros i Hi. assert (i = x) by lia. now subst.
          - exact Inv. }
      split; intros (Hrun & Hb); (split; [exact Hrun | ]); [lia|].
      destruct (Nat.eq_dec (S b) x) as [E|]; [|lia].
      destruct Inv as [-> | Hf]; [lia|].
      destruct Hrun as (Hab & Hi & _).
      replace (x - 1)%nat with b in Hf by lia.
      rewrite Hi in Hf by lia. discriminate.
    + (* no ink, the run in progress ends at the previous column *)
      destruct Inv as (Hsx & Hink & Hleft).
      cbn [In]. rewrite IH by (simpl; right; now rewrite Nat.sub_0_r).
      split.
      * intros [E | (Hrun & Hb)].
        -- injection E as <- <-. split; [|lia].
           repeat split; try lia.
           ++ intros i Hi. apply Hink. lia.
           ++ exact Hleft.
           ++ right. now replace (S (x - 1)) with x by lia.
        -- split; [exact Hrun | lia].
      * intros (Hrun & Hb).
        destruct (Nat.eq_dec (S b) x) as [E|]; [left | right; split; [exact Hrun | lia]].
        destruct Hrun as (Hab & Hi & Hl & _).
        assert (b = (x - 1)%nat) by lia. subst b.
        f_equal. symmetry.
        apply (run_start_unique ink s a (x - 1)); try lia; auto.
        intros i Hi'. apply Hink. lia.
    + (* no ink, no run in progress *)
      rewrite IH by (simpl; right; now rewrite Nat.sub_0_r).
      split; intros (Hrun & Hb); (split; [exact Hrun | ]); [lia|].
      destruct (Nat.eq_dec (S b) x) as [E|]; [|lia].
      destruct Inv as [-> | Hf]; [lia|].
      destruct Hrun as (Hab & Hi & _).
      replace (x - 1)%nat with b in Hf by lia.
      rewrite Hi in Hf by lia. discriminate.
Qed.

(** [runs] lists exactly the maximal runs of the row. *)
Lemma runs_spec ink w a b : In (a, b) (runs ink w) <-> MaximalRun ink w a b.
Proof.
  unfold runs. rewrite runsFrom_spec by (simpl; now left).
  simpl. split; [now intros [H _] | intros H; split; [exact H | lia]].
Qed.

Lemma runsFrom_sorted ink n : forall x cur,
  RunInProgress ink x cur ->
  StronglySorted before (runsFrom ink n x cur).
Proof.
  induction n as [|n IH]; intros x cur Inv.
  - destruct cur; simpl; repeat constructor.
  - simpl. destruct (ink x) eqn:Hx; destruct cur as [s|]; simpl in Inv.
    + apply IH. destruct Inv as (Hsx & Hink & Hleft).
      simpl. repeat split; [lia | | exact Hleft].
      intros i Hi. destruct (Nat.eq_dec i x) as [->|]; [exact Hx | apply Hink; lia].
    + apply IH. simpl. repeat split; [lia | | exact Inv].
      intros i Hi. assert (i = x) by lia. now subst.
    + assert (Inv' : RunInProgress ink (S x) None)
        by (simpl; right; now rewrite Nat.sub_0_r).
      constructor; [now apply IH|].
      apply Forall_forall. intros [a b] Hin.
      apply (runsFrom_spec ink n (S x) None Inv') in Hin.
      destruct Hin as ((Hab & Hi & _) & Hb).
      unfold before; simpl.
      destruct (Nat.le_gt_cases a x) as [Hle|]; [|lia].
      rewrite Hi in Hx by lia. discriminate.
    + apply IH. simpl. right. now rewrite Nat.sub_0_r.
Qed.

Lemma runs_sorted ink w : StronglySorted before (runs ink w).
Proof. apply runsFrom_sorted. simpl. now left. Qed.

Lemma sorted_before_NoDup (l : list (nat * nat)) :
  Forall (fun r => (fst r <= snd r)%nat) l ->
  StronglySorted before l -> NoDup l.
Proof.
  intros Hwf Hs. induction Hs as [|r l Hs IH Hall]; constructor.
  - intros Hin. rewrite Forall_forall in Hall. specialize (Hall r Hin).
    apply Forall_inv in Hwf. unfold before in Hall. lia.
  - apply IH. now apply Forall_inv_tail in Hwf.
Qed.

Lemma runs_NoDup ink w : NoDup (runs ink w).
Proof.
  apply sorted_before_NoDup; [|apply runs_sorted].
  apply Forall_forall. intros [a b] Hin. apply runs_spec in Hin.
  destruct Hin as (Hab & _). simpl. lia.
Qed.

(** *** The loops compute the runs *)

Local Open Scope string_scope.
Local Arguments lineEntity : simpl never.

Lemma scanPixel_fold imgData y n : forall x s,
  (inSegment s = true -> (0 <= startX s < Z.of_nat x)%Z) ->
  width imgData = (x + n)%nat ->
  closeRow imgData y (fold_left (scanPixel imgData y) (seq x n) s) =
  dxfContent s ++
  joined (map (entityOf imgData y) (runsFrom (isBlack imgData y) n x (current s))).
Proof.
  induction n as [|n IH]; intros x s Hs Hw.
  - cbn [seq fold_left runsFrom]. unfold closeRow, current.
    destruct (inSegment s); cbn [map joined fold_right].
    + specialize (Hs eq_refl).
      assert (E : (startX s <=? Z.of_nat (width imgData) - 1)%Z = true)
        by (apply Z.leb_le; lia).
      rewrite E. unfold entityOf; cbn [fst snd].
      rewrite append_nil_r. do 2 f_equal; lia.
    + now rewrite append_nil_r.
  - cbn [seq fold_left]. rewrite IH.
    + unfold scanPixel, current. cbn [runsFrom].
      destruct (isBlack imgData y x) eqn:Hb; destruct (inSegment s) eqn:Hseg;
        cbn [andb negb inSegment startX dxfContent]; rewrite ?Hseg.
      * reflexivity.
      * now rewrite Nat2Z.id.
      * specialize (Hs eq_refl).
        assert (E : (startX s <=? Z.of_nat x - 1)%Z = true) by (apply Z.leb_le; lia).
        rewrite E. cbn [inSegment startX dxfContent map joined fold_right].
        rewrite append_assoc.
        unfold entityOf at 2; cbn [fst snd]. do 3 f_equal; lia.
      * reflexivity.
    + unfold scanPixel.
      destruct (isBlack imgData y x); destruct (inSegment s) eqn:Hseg; cbn.
      * intros _. specialize (Hs eq_refl). lia.
      * intros _. lia.
      * destruct (startX s <=? Z.of_nat x - 1)%Z; cbn; discriminate.
      * rewrite Hseg. discriminate.
    + lia.
Qed.

Lemma scanRow_entities imgData content y :
  scanRow imgData content y = content ++ joined (rowEntities imgData y).
Proof.
  unfold scanRow. rewrite scanPixel_fold; [reflexivity | discriminate | reflexivity].
Qed.

Lemma scanRow_fold imgData m : forall y content,
  fold_left (scanRow imgData) (seq y m) content =
  content ++ joined (flat_map (rowEntities imgData) (seq y m)).
Proof.
  induction m as [|m IH]; intros y content; cbn [seq fold_left flat_map].
  - simpl. now rewrite append_nil_r.
  - rewrite IH, scanRow_entities, joined_app, append_assoc. reflexivity.
Qed.

(** The document is the header, the runs' entities in scan order, the footer. *)
Lemma generateDxf_entities imgData :
  generateDxf imgData = dxfHeader ++ joined (entities imgData) ++ dxfFooter.
Proof.
  unfold generateDxf, entities. now rewrite scanRow_fold, append_assoc.
Qed.

Lemma isBlack_spec imgData y x :
  isBlack imgData y x = true <->
  exists red alpha,
    nth_error (data imgData) ((y * width imgData + x) * 4) = Some red /\
    nth_error (data imgData) ((y * width imgData + x) * 4 + 3) = Some alpha /\
    (red < 128)%Z /\ (alpha > 128)%Z.
Proof.
  unfold isBlack, below, above, threshold. rewrite andb_true_iff. split.
  - intros [Hr Ha].
    destruct (nth_error _ ((y * width imgData + x) * 4)) as [r|]; [|discriminate].
    destruct (nth_error _ ((y * width imgData + x) * 4 + 3)) as [a|]; [|discriminate].
    exists r, a. apply Z.ltb_lt in Hr, Ha. repeat split; lia.
  - intros (r & a & -> & -> & Hr & Ha). split; apply Z.ltb_lt; lia.
Qed.

(** C1: a pixel is ink exactly when its red byte is below 128 and its alpha
    byte is above 128; the document holds, row after row and left to right,
    exactly one LINE entity for every maximal contiguous ink run of the row,
    from the run's first to its last column (column [width - 1] for a run
    still open at the end of the row), at ordinate [height - 1 - y]; and a
    4x1 buffer whose pixels are ink, ink, non-ink, ink yields the two
    entities for columns 0 to 1 and 3 to 3, both at ordinate 0. *)
Theorem generateDxf_line_per_run (imgData : ImageData) :
  (forall y x,
      isBlack imgData y x = true <->
      exists red alpha,
        nth_error (data imgData) ((y * width imgData + x) * 4) = Some red /\
        nth_error (data imgData) ((y * width imgData + x) * 4 + 3) = Some alpha /\
        (red < 128)%Z /\ (alpha > 128)%Z) /\
  generateDxf imgData =
    "0
SECTION
2
ENTITIES
" ++
    joined (flat_map
              (fun y =>
                 map (fun r =>
                        "0
LINE
8
0
10
" ++ decimal (Z.of_nat (fst r)) ++ "
20
" ++ decimal (Z.of_nat (height imgData) - 1 - Z.of_nat y) ++ "
11
" ++ decimal (Z.of_nat (snd r)) ++ "
21
" ++ decimal (Z.of_nat (height imgData) - 1 - Z.of_nat y) ++ "
")
                     (runs (isBlack imgData y) (width imgData)))
              (seq 0 (height imgData))) ++
    "0
ENDSEC
0
EOF
" /\
  (forall y,
      NoDup (runs (isBlack imgData y) (width imgData)) /\
      StronglySorted (fun r1 r2 => (snd r1 < fst r2)%nat)
                     (runs (isBlack imgData y) (width imgData)) /\
      forall s e, In (s, e) (runs (isBlack imgData y) (width imgData)) <->
                  MaximalRun (isBlack imgData y) (width imgData) s e) /\
  (width imgData = 4%nat -> height imgData = 1%nat ->
   isBlack imgData 0 0 = true -> isBlack imgData 0 1 = true ->
   isBlack imgData 0 2 = false -> isBlack imgData 0 3 = true ->
   generateDxf imgData =
     "0
SECTION
2
ENTITIES
0
LINE
8
0
10
0
20
0
11
1
21
0
0
LINE
8
0
10
3
20
0
11
3
21
0
0
ENDSEC
0
EOF
").
Proof.
  split; [intros y x; apply isBlack_spec|].
  split; [rewrite generateDxf_entities; reflexivity|].
  split.
  - intros y. split; [apply runs_NoDup|].
    split; [apply runs_sorted|]. intros s e. apply runs_spec.
  - intros Hw Hh H0 H1 H2 H3.
    rewrite generateDxf_entities. unfold entities, rowEntities, runs.
    rewrite Hw, Hh. cbn [seq flat_map runsFrom].
    rewrite H0, H1, H2, H3. reflexivity.
Qed.

Lemma generateDxf_line_per_run_example :
  generateDxf example4x1 =
    "0
SECTION
2
ENTITIES
0
LINE
8
0
10
0
20
0
11
1
21
0
0
LINE
8
0
10
3
20
0
11
3
21
0
0
ENDSEC
0
EOF
".
Proof.
  apply (generateDxf_line_per_run example4x1); reflexivity.
Defined.

(** C7: whatever the buffer, the document is the SECTION/ENTITIES header,
    then zero or more LINE entities, each on layer 0 with a first point under
    group codes 10 and 20 and a second point under 11 and 21, then the
    ENDSEC/EOF footer, and nothing else. *)
Theorem generateDxf_document (imgData : ImageData) :
  exists segments : list (Z * Z * Z * Z),
    generateDxf imgData =
      "0
SECTION
2
ENTITIES
" ++
      joined (map (fun '(x1, y1, x2, y2) =>
                     "0
LINE
8
0
10
" ++ decimal x1 ++ "
20
" ++ decimal y1 ++ "
11
" ++ decimal x2 ++ "
21
" ++ decimal y2 ++ "
") segments) ++
      "0
ENDSEC
0
EOF
".
Proof.
  exists (flat_map
            (fun y =>
               map (fun r => (Z.of_nat (fst r),
                              Z.of_nat (height imgData) - 1 - Z.of_nat y,
                              Z.of_nat (snd r),
                              Z.of_nat (height imgData) - 1 - Z.of_nat y)%Z)
                   (runs (isBlack imgData y) (width imgData)))
            (seq 0 (height imgData))).
  rewrite generateDxf_entities. do 3 f_equal.
  unfold entities, rowEntities.
  induction (seq 0 (height imgData)) as [|y ys IH]; [reflexivity|].
  cbn [flat_map]. rewrite !map_app, IH. f_equal.
  rewrite map_map. apply map_ext. intros [a b]. reflexivity.
Qed.

End DxfFacts.

(** ** File names *)

Module FileNameFacts.
Import FileName.

Local Open Scope string_scope.

Lemma lowerChar_space (c : ascii) :
  Ascii.eqb (lowerChar c) " " = Ascii.eqb c " ".
Proof.
  destruct c as [[] [] [] [] [] [] [] []]; vm_compute; reflexivity.
Qed.

Lemma spaces_toLowerCase (s : string) : spaces (toLowerCase s) = spaces s.
Proof.
  induction s as [|c s IH]; simpl; [reflexivity|].
  now rewrite lowerChar_space, IH.
Qed.

Lemma hyphenated_no_space (s : string) : spaces s = 0%nat -> hyphenated s = s.
Proof.
  induction s as [|c s IH]; simpl; [reflexivity|].
  destruct (Ascii.eqb c " "); [discriminate|].
  intros H. now rewrite IH.
Qed.

Lemma replace_one_space (s : string) :
  (spaces s <= 1)%nat -> replace " " "-" s = hyphenated s.
Proof.
  induction s as [|c s IH]; simpl; [reflexivity|].
  destruct (Ascii.eqb c " ").
  - intros H. rewrite hyphenated_no_space by lia. reflexivity.
  - intros H. now rewrite IH.
Qed.

Lemma downloadName_getFileName options format :
  downloadName options format = getFileName options (formatString format).
Proof. destruct format; reflexivity. Qed.

(** C8, as the code has it: the name is [cnc-design-], the lower-cased
    material as it stands, a hyphen, the lower-cased design type, a dot and
    the format; a design type with at most one space has it replaced by a
    hyphen, and if the material has no space either the name is the specified
    one, with no space left.  The name is a function of its inputs. *)
Theorem downloadName_one_space (options : DesignOptions) (format : Format) :
  (spaces (designType options) <= 1)%nat ->
  downloadName options format =
    "cnc-design-" ++ toLowerCase (material options) ++ "-" ++
    hyphenated (toLowerCase (designType options)) ++ "." ++ formatString format /\
  (spaces (material options) = 0%nat ->
   downloadName options format = specifiedName options format) /\
  (forall options', material options' = material options ->
                    designType options' = designType options ->
                    downloadName options' format = downloadName options format).
Proof.
  intros H. rewrite downloadName_getFileName. unfold getFileName.
  rewrite replace_one_space by (now rewrite spaces_toLowerCase).
  split; [reflexivity|]. split.
  - intros Hm. unfold specifiedName.
    rewrite (hyphenated_no_space (toLowerCase (material options)))
      by (now rewrite spaces_toLowerCase).
    reflexivity.
  - intros options' Hm Hd. rewrite downloadName_getFileName.
    unfold getFileName. now rewrite Hm, Hd, replace_one_space
      by (now rewrite spaces_toLowerCase).
Qed.

Lemma downloadName_one_space_witness :
  downloadName (mkDesignOptions "Wood" "2D Flat") png = "cnc-design-wood-2d-flat.png".
Proof.
  pose proof (downloadName_one_space (mkDesignOptions "Wood" "2D Flat") png) as H.
  simpl in H. destruct (H (le_n 1)) as [E _]. exact E.
Defined.

(** C8, where the code departs from the specified name: only the first space
    of the design type is replaced, and no space of the material is. *)
Lemma downloadName_keeps_spaces :
  downloadName (mkDesignOptions "Wood" "3D Deep Relief") png
    = "cnc-design-wood-3d-deep relief.png" /\
  downloadName (mkDesignOptions "Wood" "3D Deep Relief") png
    <> specifiedName (mkDesignOptions "Wood" "3D Deep Relief") png /\
  downloadName (mkDesignOptions "Soft Maple" "2D Flat") dxf
    = "cnc-design-soft maple-2d-flat.dxf" /\
  downloadName (mkDesignOptions "Soft Maple" "2D Flat") dxf
    <> specifiedName (mkDesignOptions "Soft Maple" "2D Flat") dxf.
Proof.
  repeat split; try reflexivity; vm_compute; discriminate.
Qed.

End FileNameFacts.

(** ** History *)

Section HistoryFacts.

Context {num : Type} {N : Number num}.

Implicit Types (st : @State num) (canvas : Canvas).

Lemma item_nth_error {A : Type} (l : list A) (i : Z) :
  (0 <= i)%Z -> item l i = nth_error l (Z.to_nat i).
Proof.
  intros H. unfold item. destruct (Z.ltb_spec i 0); [lia | reflexivity].
Qed.

(** [slice(0, end)] keeps the first [end] entries when [0 <= end]. *)
Lemma slice_prefix {A : Type} (l : list A) (stop : Z) :
  (0 <= stop)%Z -> slice l 0 stop = firstn (Z.to_nat stop) l.
Proof.
  intros H. unfold slice, relativeIndex.
  destruct (Z.ltb_spec stop 0); [lia|]. cbn [Z.ltb Z.compare Z.to_nat skipn].
  rewrite (Z.min_l 0) by lia. cbn [Z.to_nat skipn]. rewrite Z.sub_0_r.
  destruct (Z.min_spec stop (Z.of_nat (List.length l))) as [[Hlt ->] | [Hge ->]];
    [reflexivity|].
  rewrite Nat2Z.id, firstn_all. symmetry. apply firstn_all2. lia.
Qed.

(** *** Undo and reset *)

Lemma handleUndo_index st :
  (0 <= historyIndex st)%Z ->
  historyIndex (handleUndo st) = Z.max 0 (historyIndex st - 1).
Proof.
  intros H. unfold handleUndo.
  destruct (Z.ltb_spec 0 (historyIndex st)); unfold setHistoryIndex; cbn [historyIndex]; lia.
Qed.

Lemma handleUndo_history st : history (handleUndo st) = history st.
Proof. unfold handleUndo. now destruct (0 <? historyIndex st)%Z. Qed.

Lemma undos_index st (K : nat) :
  (0 <= historyIndex st)%Z ->
  historyIndex (Nat.iter K handleUndo st) = Z.max 0 (historyIndex st - Z.of_nat K).
Proof.
  intros H. induction K as [|K IH]; [simpl; lia|].
  rewrite Nat.iter_succ, handleUndo_index; rewrite IH; lia.
Qed.

Lemma undos_history st (K : nat) : history (Nat.iter K handleUndo st) = history st.
Proof.
  induction K as [|K IH]; [reflexivity|].
  now rewrite Nat.iter_succ, handleUndo_history.
Qed.

Lemma handleUndo_bottom st : (historyIndex st <= 0)%Z -> handleUndo st = st.
Proof.
  intros H. unfold handleUndo.
  destruct (Z.ltb_spec 0 (historyIndex st)); [lia | reflexivity].
Qed.

Lemma undos_bottom st (K : nat) :
  (historyIndex st <= 0)%Z -> Nat.iter K handleUndo st = st.
Proof.
  intros H. induction K as [|K IH]; [reflexivity|].
  rewrite Nat.iter_succ, IH. now apply handleUndo_bottom.
Qed.

(** C5: in every state, whatever the history and the index: an undo moves
    the index down by one when it is above 0 and changes nothing otherwise
    (at 0, and at -1, where the index stands while the history is empty), so
    [K] undos leave an index that is a position at [max 0 (index - K)] and
    change nothing from 0 or below; no undo touches the entries; a reset
    puts the index at 0 when the history has an entry and changes nothing
    when it has none. *)
Theorem undo_is_linear st :
  ((0 < historyIndex st)%Z ->
     handleUndo st = setHistoryIndex st (historyIndex st - 1)%Z) /\
  ((historyIndex st <= 0)%Z -> handleUndo st = st) /\
  (forall K : nat,
     ((0 <= historyIndex st)%Z ->
        historyIndex (Nat.iter K handleUndo st)
          = Z.max 0 (historyIndex st - Z.of_nat K)) /\
     ((historyIndex st <= 0)%Z -> Nat.iter K handleUndo st = st) /\
     history (Nat.iter K handleUndo st) = history st) /\
  (history st <> [] ->
     handleResetEdits st = setHistoryIndex st 0%Z) /\
  (history st = [] -> handleResetEdits st = st).
Proof.
  split; [|split; [|split; [|split]]].
  - intros Hpos. unfold handleUndo.
    destruct (Z.ltb_spec 0 (historyIndex st)); [reflexivity | lia].
  - apply handleUndo_bottom.
  - intros K. split; [|split].
    + apply undos_index.
    + apply undos_bottom.
    + apply undos_history.
  - intros Hne. unfold handleResetEdits.
    destruct (history st); [contradiction | reflexivity].
  - intros He. unfold handleResetEdits. now rewrite He.
Qed.

End HistoryFacts.

(** ** Reachable states *)

Section ReachableFacts.

Context {num : Type} {N : Number num}.

Implicit Types (st : @State num) (canvas : Canvas).

Lemma sameShape_refl (a : option Canvas) : sameShape a a.
Proof. destruct a; simpl; auto. Qed.

Lemma Frame_refl st : Frame st st.
Proof. repeat split; apply sameShape_refl. Qed.

Lemma Consistent_Frame st st' : Consistent st -> Frame st st' -> Consistent st'.
Proof.
  intros (canvas & Hc & H2d & Hh) (F1 & F2 & F3 & F4).
  rewrite Hc in F4. destruct (canvasRef st') as [canvas'|] eqn:Hc'; [|contradiction].
  destruct F4 as (Fw & Fh & F2d).
  exists canvas'. rewrite F1, F2, F3, Fw, Fh, F2d. auto.
Qed.

Lemma redrawCanvas_Frame st : Frame st (redrawCanvas st).
Proof.
  unfold redrawCanvas.
  destruct (context st); [|apply Frame_refl].
  destruct (canvasRef st) as [canvas|] eqn:Hc; [|apply Frame_refl].
  destruct (history st) as [|e0 h0]; [|destruct (item (e0 :: h0) (historyIndex st))];
    repeat split; rewrite ?Hc; simpl; auto.
Qed.

Lemma redrawCanvas_viewTransform st :
  viewTransform (redrawCanvas st) = viewTransform st.
Proof.
  unfold redrawCanvas.
  destruct (context st), (canvasRef st); try reflexivity.
  destruct (history st) as [|e0 h0]; [|destruct (item (e0 :: h0) (historyIndex st))];
    reflexivity.
Qed.

Lemma redrawIfIndexChanged_viewTransform st0 st :
  viewTransform (redrawIfIndexChanged st0 st) = viewTransform st.
Proof.
  unfold redrawIfIndexChanged.
  destruct (_ =? _)%Z; [reflexivity | apply redrawCanvas_viewTransform].
Qed.

Lemma saveState_viewTransform st : viewTransform (saveState st) = viewTransform st.
Proof.
  unfold saveState. destruct (context st), (canvasRef st) as [canvas|]; try reflexivity.
  now destruct (getImageData canvas).
Qed.

Lemma redrawIfIndexChanged_Frame st0 st : Frame st (redrawIfIndexChanged st0 st).
Proof.
  unfold redrawIfIndexChanged.
  destruct (_ =? _)%Z; [apply Frame_refl | apply redrawCanvas_Frame].
Qed.

Lemma renderCanvas_Frame painted st : Frame st (renderCanvas painted st).
Proof.
  unfold renderCanvas.
  destruct (context st), (mousePosRef st), (lastMousePosRef st); try apply Frame_refl.
  destruct (isDrawing st); [|apply Frame_refl]. cbn [negb].
  destruct (tool st); try apply Frame_refl;
    destruct (canvasRef st) as [canvas|] eqn:Hc;
    repeat split; cbn; rewrite ?Hc; simpl; auto.
Qed.

(** A download returns the state as it was or with the menu closed. *)
Lemma handleDownload_state options format tempCtx st :
  fst (handleDownload options format tempCtx st) = st \/
  fst (handleDownload options format tempCtx st) = setIsDownloadMenuOpen st false.
Proof.
  unfold handleDownload.
  destruct (canvasRef st) as [canvas|]; [|now left].
  destruct tempCtx; [|now left].
  destruct format; try (right; reflexivity).
  match goal with |- context [getImageData ?c] => destruct (getImageData c) end;
    [right | left]; reflexivity.
Qed.

(** What a snapshot does in a state where it can be taken. *)
Lemma saveState_taken st :
  Consistent st -> history st <> [] ->
  exists canvas buffer,
    canvasRef st = Some canvas /\ getImageData canvas = Some buffer /\
    saveState st =
      setHistoryIndex
        (setHistory st (firstn (Z.to_nat (historyIndex st + 1)) (history st) ++ [buffer]))
        (historyIndex st + 1)%Z.
Proof.
  intros (canvas & Hc & H2d & Hh) Hne.
  destruct (history st) as [|e hs] eqn:Hhist; [contradiction|].
  destruct Hh as (Hidx & Hctx & Hw & Hht).
  assert (Hg : getImageData canvas =
               Some (mkImageData (canvas_width canvas) (canvas_height canvas) (bitmap canvas))).
  { unfold getImageData.
    destruct (Nat.eqb_spec (canvas_width canvas) 0); [lia|].
    destruct (Nat.eqb_spec (canvas_height canvas) 0); [lia|]. reflexivity. }
  exists canvas, (mkImageData (canvas_width canvas) (canvas_height canvas) (bitmap canvas)).
  split; [exact Hc|]. split; [exact Hg|].
  unfold saveState. rewrite Hc, Hg, Hhist.
  destruct (context st); [|contradiction].
  rewrite slice_prefix by lia.
  f_equal. rewrite length_app, length_firstn. cbn [List.length] in *. lia.
Qed.

Lemma saveState_Consistent st : Consistent st -> Consistent (saveState st).
Proof.
  intros HC. destruct (history st) as [|e hs] eqn:Hhist.
  - (* empty history: the snapshot, if taken, is the only entry *)
    pose proof HC as (canvas & Hc & H2d & Hh). rewrite Hhist in Hh.
    unfold saveState. rewrite Hc.
    destruct (context st) eqn:Hctx; [|exact HC].
    destruct (getImageData canvas) as [buffer|] eqn:Hg; [|exact HC].
    unfold getImageData in Hg.
    destruct (Nat.eqb_spec (canvas_width canvas) 0); [discriminate|].
    destruct (Nat.eqb_spec (canvas_height canvas) 0); [discriminate|].
    exists canvas. cbn. rewrite Hhist, Hctx.
    split; [exact Hc|]. split; [exact H2d|].
    rewrite Hh. cbn. repeat split; try lia; discriminate.
  - destruct (saveState_taken st HC) as (canvas & buffer & Hc & Hg & ->);
      [rewrite Hhist; discriminate|].
    destruct HC as (canvas' & Hc' & H2d & Hh). rewrite Hhist in Hh.
    rewrite Hc in Hc'. injection Hc' as <-.
    destruct Hh as (Hidx & Hctx & Hw & Hht).
    exists canvas. cbn. split; [exact Hc|]. split; [exact H2d|].
    destruct (firstn _ _ ++ [buffer]) eqn:E.
    + apply (f_equal (@List.length _)) in E. rewrite length_app in E. simpl in E. lia.
    + rewrite <- E. rewrite length_app, length_firstn, Hhist. cbn [List.length] in *.
      repeat split; auto; lia.
Qed.

Lemma sourceEffect_Consistent loaded st :
  admissible (@SourceChanged num loaded) -> Consistent st ->
  Consistent (sourceEffect loaded st).
Proof.
  intros Hadm (canvas & Hc & H2d & Hh). unfold sourceEffect. rewrite Hc.
  assert (Hctx : history st <> [] -> getContext canvas <> None).
  { intros Hne. destruct (history st); [contradiction|].
    destruct Hh as (_ & Hctx & _). unfold getContext. rewrite (H2d Hctx). discriminate. }
  assert (Hget : getContext canvas <> None -> has2d canvas = true).
  { unfold getContext. destruct (has2d canvas); [reflexivity | contradiction]. }
  destruct loaded as [[image drawn]|].
  - destruct Hadm as [Hiw Hih]. unfold onload.
    set (canvas1 :=
           if negb (canvas_width canvas =? image_width image)%nat
              || negb (canvas_height canvas =? image_height image)%nat
           then resize canvas (image_width image) (image_height image)
           else canvas).
    assert (Hshape : canvas_width canvas1 = image_width image /\
                     canvas_height canvas1 = image_height image /\
                     has2d canvas1 = has2d canvas).
    { subst canvas1.
      destruct (Nat.eqb_spec (canvas_width canvas) (image_width image));
        destruct (Nat.eqb_spec (canvas_height canvas) (image_height image));
        cbn; auto. }
    destruct Hshape as (Hw1 & Hh1 & H2d1).
    destruct (getContext canvas) eqn:Hgc.
    + unfold getImageData. cbn [canvas_width canvas_height setBitmap].
      rewrite Hw1, Hh1.
      destruct (Nat.eqb_spec (image_width image) 0); [lia|].
      destruct (Nat.eqb_spec (image_height image) 0); [lia|].
      cbn [orb]. eexists. cbn. split; [reflexivity|].
      cbn. rewrite H2d1. split; [intros _; apply Hget; discriminate|].
      repeat split; try lia. discriminate.
    + exists canvas1. cbn. split; [reflexivity|].
      split; [intros H; contradiction|].
      destruct (history st); [exact Hh | exfalso; apply Hctx; [discriminate | reflexivity]].
  - exists canvas. cbn. rewrite Hc. split; [reflexivity|].
    split; [exact Hget|].
    destruct (history st); [exact Hh|].
    destruct Hh as (Hidx & _ & Hw & Hht). repeat split; auto; try lia.
    apply Hctx. discriminate.
Qed.

Lemma step_Consistent ev st :
  admissible ev -> Consistent st -> Consistent (step ev st).
Proof.
  intros Hadm HC. destruct ev; cbn [step].
  - eapply Consistent_Frame; [|apply redrawCanvas_Frame].
    now apply sourceEffect_Consistent.
  - apply (Consistent_Frame st); [exact HC|].
    unfold handleMouseDown. destruct (tool st); try (repeat split; apply sameShape_refl);
      destruct (context st); repeat split; apply sameShape_refl.
  - eapply Consistent_Frame; [|apply redrawIfIndexChanged_Frame].
    unfold handleMouseUp.
    assert (H1 : Consistent (if isDrawing st
                             then saveState (setLastMousePos (setMousePos (setIsDrawing st false) None) None)
                             else st)).
    { destruct (isDrawing st); [|exact HC]. apply saveState_Consistent.
      apply (Consistent_Frame st); [exact HC | repeat split; apply sameShape_refl]. }
    destruct (isPanning st); [|exact H1].
    eapply Consistent_Frame; [exact H1 | repeat split; apply sameShape_refl].
  - eapply Consistent_Frame; [|apply redrawIfIndexChanged_Frame].
    unfold handleMouseUp.
    assert (H1 : Consistent (if isDrawing st
                             then saveState (setLastMousePos (setMousePos (setIsDrawing st false) None) None)
                             else st)).
    { destruct (isDrawing st); [|exact HC]. apply saveState_Consistent.
      apply (Consistent_Frame st); [exact HC | repeat split; apply sameShape_refl]. }
    destruct (isPanning st); [|exact H1].
    eapply Consistent_Frame; [exact H1 | repeat split; apply sameShape_refl].
  - assert (H1 : Consistent (handleMouseMove e st)).
    { apply (Consistent_Frame st); [exact HC|]. unfold handleMouseMove.
      destruct (isPanning st); [repeat split; apply sameShape_refl|].
      destruct (isDrawing st); repeat split; apply sameShape_refl. }
    destruct (isPanning st); [|exact H1].
    eapply Consistent_Frame; [exact H1 | apply redrawCanvas_Frame].
  - eapply Consistent_Frame; [|apply redrawCanvas_Frame].
    apply (Consistent_Frame st); [exact HC | repeat split; apply sameShape_refl].
  - eapply Consistent_Frame; [exact HC | apply renderCanvas_Frame].
  - apply (Consistent_Frame st); [exact HC | repeat split; apply sameShape_refl].
  - apply (Consistent_Frame st); [exact HC | repeat split; apply sameShape_refl].
  - eapply Consistent_Frame; [|apply redrawIfIndexChanged_Frame].
    destruct HC as (canvas & Hc & H2d & Hh). exists canvas.
    unfold handleUndo. destruct (Z.ltb_spec 0 (historyIndex st)); cbn; auto.
    repeat split; auto. destruct (history st); [lia|].
    destruct Hh as (Hidx & Hrest). split; [lia | exact Hrest].
  - eapply Consistent_Frame; [|apply redrawIfIndexChanged_Frame].
    destruct HC as (canvas & Hc & H2d & Hh). exists canvas.
    unfold handleResetEdits. destruct (history st) eqn:Hhist; cbn; rewrite ?Hhist; auto.
    destruct Hh as (Hidx & Hctx & Hw & Hht). cbn [List.length] in *.
    repeat split; auto; lia.
  - apply (Consistent_Frame st); [exact HC | repeat split; apply sameShape_refl].
  - apply (Consistent_Frame st); [exact HC | repeat split; apply sameShape_refl].
  - apply (Consistent_Frame st); [exact HC|].
    destruct (handleDownload_state options format tempCtx st) as [-> | ->];
      repeat split; apply sameShape_refl.
  - eapply Consistent_Frame; [|apply redrawCanvas_Frame].
    apply (Consistent_Frame st); [exact HC|]. unfold handleZoomChange.
    destruct (canvasRef st) as [canvas|] eqn:Hc; [|apply Frame_refl].
    destruct direction; repeat split; cbn; rewrite ?Hc; apply sameShape_refl.
Qed.

(** The invariant holds in every reachable state. *)
Lemma reachable_Consistent canvas st : reachable canvas st -> Consistent st.
Proof.
  induction 1 as [|st ev _ IH Hadm].
  - exists canvas. cbn. repeat split. intros H. contradiction.
  - now apply step_Consistent.
Qed.

End ReachableFacts.

(** ** Snapshots, loads and downloads *)

Section EditorFacts.

Context {num : Type} {N : Number num}.

Implicit Types (st : @State num) (canvas : Canvas).

Lemma step_Undo_history st : history (step Undo st) = history st.
Proof.
  cbn [step]. destruct (redrawIfIndexChanged_Frame st (handleUndo st)) as (-> & _).
  apply handleUndo_history.
Qed.

Lemma step_Undo_index st :
  (0 <= historyIndex st)%Z ->
  historyIndex (step Undo st) = Z.max 0 (historyIndex st - 1).
Proof.
  intros H. cbn [step].
  destruct (redrawIfIndexChanged_Frame st (handleUndo st)) as (_ & -> & _).
  now apply handleUndo_index.
Qed.

Lemma steps_Undo_history st (K : nat) :
  history (Nat.iter K (step Undo) st) = history st.
Proof.
  induction K as [|K IH]; [reflexivity|].
  now rewrite Nat.iter_succ, step_Undo_history.
Qed.

Lemma steps_Undo_index st (K : nat) :
  (0 <= historyIndex st)%Z ->
  historyIndex (Nat.iter K (step Undo) st) = Z.max 0 (historyIndex st - Z.of_nat K).
Proof.
  intros H. induction K as [|K IH]; [simpl; lia|].
  rewrite Nat.iter_succ, step_Undo_index; rewrite IH; lia.
Qed.

Lemma steps_Undo_Consistent st (K : nat) :
  Consistent st -> Consistent (Nat.iter K (step Undo) st).
Proof.
  intros H. induction K as [|K IH]; [exact H|].
  rewrite Nat.iter_succ. apply step_Consistent; [exact I | exact IH].
Qed.

(** C4: in a reachable state whose history has an entry, and after any number
    of undos, a snapshot keeps the entries up to the current index, drops
    every entry above it and appends the current buffer; the index then
    stands on that last entry.  From there no number of undos brings back a
    dropped entry: what an undo restores is the new snapshot or an entry that
    sat at or below the index the snapshot was taken at. *)
Theorem saveState_discards_redo canvas0 st (K : nat) :
  reachable canvas0 st -> history st <> [] ->
  let undone := Nat.iter K (step Undo) st in
  let current := historyIndex undone in
  exists buffer,
    (exists canvas,
        canvasRef undone = Some canvas /\ getImageData canvas = Some buffer) /\
    current = Z.max 0 (historyIndex st - Z.of_nat K) /\
    history undone = history st /\
    history (saveState undone)
      = firstn (Z.to_nat (current + 1)) (history st) ++ [buffer] /\
    historyIndex (saveState undone)
      = (Z.of_nat (List.length (history (saveState undone))) - 1)%Z /\
    historyIndex (saveState undone) = (current + 1)%Z /\
    forall M : nat,
      let later := Nat.iter M (step Undo) (saveState undone) in
      history later = history (saveState undone) /\
      (0 <= historyIndex later <= current + 1)%Z /\
      (item (history later) (historyIndex later) = Some buffer \/
       (historyIndex later <= current)%Z /\
       item (history later) (historyIndex later)
         = item (history st) (historyIndex later)).
Proof.
  intros Hreach Hne undone current.
  pose proof (reachable_Consistent _ _ Hreach) as HC.
  pose proof (steps_Undo_Consistent st K HC) as HCu. fold undone in HCu.
  assert (Hhist : history undone = history st) by apply steps_Undo_history.
  assert (Hidx0 : (0 <= historyIndex st < Z.of_nat (List.length (history st)))%Z).
  { destruct HC as (c & _ & _ & Hh). destruct (history st); [contradiction | tauto]. }
  assert (Hcur : current = Z.max 0 (historyIndex st - Z.of_nat K))
    by (apply steps_Undo_index; lia).
  destruct (saveState_taken undone HCu) as (canvas & buffer & Hc & Hg & Hsave);
    [now rewrite Hhist|].
  fold current in Hsave. rewrite Hhist in Hsave.
  exists buffer.
  split; [now exists canvas|]. split; [exact Hcur|]. split; [exact Hhist|].
  assert (Hlen : List.length (firstn (Z.to_nat (current + 1)) (history st))
                 = Z.to_nat (current + 1)).
  { rewrite length_firstn. lia. }
  rewrite Hsave. cbn [history historyIndex setHistory setHistoryIndex].
  split; [reflexivity|]. split; [rewrite length_app, Hlen; cbn [List.length]; lia|].
  split; [reflexivity|].
  intros M. cbv zeta.
  rewrite steps_Undo_history, steps_Undo_index
    by (cbn [history historyIndex setHistory setHistoryIndex]; lia).
  cbn [history historyIndex setHistory setHistoryIndex].
  split; [reflexivity|]. split; [lia|].
  set (j := Z.max 0 (current + 1 - Z.of_nat M)).
  assert (Hj : (0 <= j <= current + 1)%Z) by (subst j; lia).
  rewrite !item_nth_error by lia.
  destruct (Z.eq_dec j (current + 1)) as [E | E].
  - left. rewrite nth_error_app2 by (rewrite Hlen; lia).
    rewrite Hlen, E, Nat.sub_diag. reflexivity.
  - right. split; [lia|].
    rewrite nth_error_app1 by (rewrite Hlen; lia).
    rewrite nth_error_firstn.
    destruct (Nat.ltb_spec (Z.to_nat j) (Z.to_nat (current + 1))); [reflexivity | lia].
Qed.

(** Whatever the size of the image, a load that succeeds leaves a history of
    one entry, the canvas as read back after [drawImage], at index 0. *)
Lemma load_resets_history st canvas image drawn :
  canvasRef st = Some canvas -> has2d canvas = true ->
  (0 < image_width image)%nat -> (0 < image_height image)%nat ->
  let st' := step (SourceChanged (Some (image, drawn))) st in
  history st' = [mkImageData (image_width image) (image_height image) drawn] /\
  historyIndex st' = 0%Z /\
  viewTransform st' = identityTransform.
Proof.
  intros Hc H2d Hw Hh st'. subst st'. cbn [step].
  destruct (redrawCanvas_Frame (sourceEffect (Some (image, drawn)) st)) as (-> & -> & _).
  rewrite redrawCanvas_viewTransform.
  unfold sourceEffect. rewrite Hc. unfold getContext. rewrite H2d. unfold onload.
  set (canvas1 :=
         if negb (canvas_width canvas =? image_width image)%nat
            || negb (canvas_height canvas =? image_height image)%nat
         then resize canvas (image_width image) (image_height image)
         else canvas).
  assert (Hshape : canvas_width canvas1 = image_width image /\
                   canvas_height canvas1 = image_height image).
  { subst canvas1.
    destruct (Nat.eqb_spec (canvas_width canvas) (image_width image));
      destruct (Nat.eqb_spec (canvas_height canvas) (image_height image));
      cbn; auto. }
  destruct Hshape as (Hw1 & Hh1).
  unfold getImageData. cbn [canvas_width canvas_height bitmap setBitmap].
  rewrite Hw1, Hh1.
  destruct (Nat.eqb_spec (image_width image) 0); [lia|].
  destruct (Nat.eqb_spec (image_height image) 0); [lia|].
  cbn. auto.
Qed.

(** The temporary canvas has the size of the canvas on screen. *)
Lemma tempCanvas_size st (tempCanvas : Canvas) :
  canvas_width
    (match history st, item (history st) (historyIndex st) with
     | _ :: _, Some entry => putImageData tempCanvas entry
     | _, _ => tempCanvas
     end) = canvas_width tempCanvas /\
  canvas_height
    (match history st, item (history st) (historyIndex st) with
     | _ :: _, Some entry => putImageData tempCanvas entry
     | _, _ => tempCanvas
     end) = canvas_height tempCanvas.
Proof.
  destruct (history st) as [|e0 h0]; [|destruct (item (e0 :: h0) (historyIndex st))];
    split; reflexivity.
Qed.

(** C9, as the code has it: a download changes no part of the state other
    than the menu flag; it closes the menu when the canvas is mounted, the
    temporary canvas yields a 2D context and, for DXF, the canvas has a
    non-zero size, and otherwise stops early and leaves the flag as it
    was. *)
Theorem handleDownload_frame options format tempCtx st :
  let st' := fst (handleDownload options format tempCtx st) in
  (history st' = history st /\ historyIndex st' = historyIndex st /\
   viewTransform st' = viewTransform st /\ tool st' = tool st /\
   lineWidth st' = lineWidth st /\ isDrawing st' = isDrawing st /\
   isPanning st' = isPanning st /\ canvasRef st' = canvasRef st /\
   context st' = context st /\ panStartPoint st' = panStartPoint st /\
   mousePosRef st' = mousePosRef st /\ lastMousePosRef st' = lastMousePosRef st) /\
  (forall canvas,
      canvasRef st = Some canvas -> tempCtx <> None ->
      (format = dxf -> (0 < canvas_width canvas)%nat /\ (0 < canvas_height canvas)%nat) ->
      isDownloadMenuOpen st' = false) /\
  (canvasRef st = None \/ tempCtx = None -> st' = st) /\
  (forall canvas,
      canvasRef st = Some canvas -> format = dxf ->
      canvas_width canvas = 0%nat \/ canvas_height canvas = 0%nat ->
      st' = st).
Proof.
  intros st'. split; [|split; [|split]].
  - subst st'.
    destruct (handleDownload_state options format tempCtx st) as [-> | ->];
      repeat split.
  - intros canvas Hc Hctx Hdxf. subst st'. unfold handleDownload. rewrite Hc.
    destruct tempCtx; [|contradiction].
    destruct format; try reflexivity.
    destruct (Hdxf eq_refl) as [Hw Hh].
    destruct (tempCanvas_size st (resize createCanvas (canvas_width canvas)
                                         (canvas_height canvas))) as [Ew Eh].
    unfold getImageData. rewrite Ew, Eh. cbn [canvas_width canvas_height resize].
    destruct (Nat.eqb_spec (canvas_width canvas) 0); [lia|].
    destruct (Nat.eqb_spec (canvas_height canvas) 0); [lia|].
    reflexivity.
  - intros [Hc | Ht]; subst st'; unfold handleDownload.
    + now rewrite Hc.
    + rewrite Ht. now destruct (canvasRef st).
  - intros canvas Hc -> Hz. subst st'. unfold handleDownload. rewrite Hc.
    destruct tempCtx; [|reflexivity].
    destruct (tempCanvas_size st (resize createCanvas (canvas_width canvas)
                                         (canvas_height canvas))) as [Ew Eh].
    unfold getImageData. rewrite Ew, Eh. cbn [canvas_width canvas_height resize].
    destruct (Nat.eqb_spec (canvas_width canvas) 0); [reflexivity|].
    destruct (Nat.eqb_spec (canvas_height canvas) 0); [reflexivity | lia].
Qed.

End EditorFacts.

(** ** Binary64 *)

Module Float64Facts.

Import Float64.

Local Open Scope float_scope.

(** *** Order *)

Lemma is_nan_Prim2SF (f : float) : is_nan f = true <-> Prim2SF f = S754_nan.
Proof.
  split.
  - intros H. unfold Prim2SF. now rewrite H.
  - intros H. destruct (is_nan f) eqn:E; [reflexivity | exfalso].
    unfold Prim2SF in H. rewrite E in H.
    destruct (is_zero f); [discriminate|].
    destruct (is_infinity f); [discriminate|].
    destruct (Z.frexp f) as [r e].
    destruct (shr_fexp _ _ _ _ _) as [mrs e'].
    destruct (shr_m mrs); discriminate.
Qed.

Lemma not_nan_Prim2SF (f : float) : Prim2SF f <> S754_nan -> is_nan f = false.
Proof.
  intros H. destruct (is_nan f) eqn:E; [|reflexivity].
  exfalso. apply H. now apply is_nan_Prim2SF.
Qed.

Lemma SFcompare_antisym (a b : spec_float) :
  SFcompare b a = option_map CompOpp (SFcompare a b).
Proof.
  destruct a as [sa | sa | | sa ma ea], b as [sb | sb | | sb mb eb]; cbn;
    try reflexivity;
    try (destruct sa; reflexivity); try (destruct sb; reflexivity);
    try (destruct sa, sb; reflexivity).
  destruct sa, sb; cbn; try reflexivity;
    rewrite (Z.compare_antisym ea eb); destruct (ea ?= eb)%Z; cbn; try reflexivity;
    rewrite (Pos.compare_cont_antisym _ _ Eq); cbn;
    destruct (Pos.compare_cont Eq ma mb); reflexivity.
Qed.

Lemma SFcompare_total (a b : spec_float) :
  a <> S754_nan -> b <> S754_nan -> SFcompare a b <> None.
Proof.
  intros Ha Hb.
  destruct a as [sa | sa | | sa ma ea], b as [sb | sb | | sb mb eb]; cbn;
    try discriminate; contradiction.
Qed.

Lemma ltb_leb (a b : float) : (a <? b) = true -> (a <=? b) = true.
Proof.
  rewrite ltb_spec, leb_spec. unfold SFltb, SFleb.
  destruct (SFcompare _ _) as [[]|]; congruence.
Qed.

(** Of two numbers neither of which is below the other, each is at most the
    other. *)
Lemma not_ltb_leb (a b : float) :
  is_nan a = false -> is_nan b = false ->
  (a <? b) = false -> (b <? a) = false ->
  (a <=? b) = true /\ (b <=? a) = true.
Proof.
  intros Ha Hb. rewrite !ltb_spec, !leb_spec. unfold SFltb, SFleb.
  rewrite (SFcompare_antisym (Prim2SF a) (Prim2SF b)).
  assert (Hna : Prim2SF a <> S754_nan)
    by (intros E; apply is_nan_Prim2SF in E; congruence).
  assert (Hnb : Prim2SF b <> S754_nan)
    by (intros E; apply is_nan_Prim2SF in E; congruence).
  pose proof (SFcompare_total _ _ Hna Hnb) as Ht.
  destruct (SFcompare (Prim2SF a) (Prim2SF b)) as [[]|]; cbn;
    intros; try congruence; auto.
Qed.

(** *** The clamp *)

Lemma min_10_spec (s : float) :
  is_nan s = false ->
  is_nan (min s 10) = false /\ (min s 10 <=? 10) = true /\
  (min s 10 = s \/ min s 10 = 10).
Proof.
  intros Hs. unfold min. rewrite Hs. change (is_nan 10) with false. cbn [orb].
  destruct (s <? 10) eqn:E1; [repeat split; auto using ltb_leb|].
  destruct (10 <? s) eqn:E2; [repeat split; auto|].
  destruct (not_ltb_leb s 10 Hs eq_refl E1 E2) as [Hle _].
  destruct (get_sign s); repeat split; auto.
Qed.

Lemma max_0_1_spec (r : float) :
  is_nan r = false -> (r <=? 10) = true ->
  inRange (max lit_0_1 r) = true /\ (max lit_0_1 r = r \/ max lit_0_1 r = lit_0_1).
Proof.
  intros Hr Hle. unfold max, inRange. rewrite Hr.
  change (is_nan lit_0_1) with false. cbn [orb].
  destruct (lit_0_1 <? r) eqn:E1.
  { split; [|now left]. apply andb_true_intro. split; [now apply ltb_leb | exact Hle]. }
  destruct (r <? lit_0_1) eqn:E2.
  { split; [reflexivity | now right]. }
  assert (H01 : is_nan lit_0_1 = false) by reflexivity.
  destruct (not_ltb_leb lit_0_1 r H01 Hr E1 E2) as [Hle1 _].
  destruct (get_sign lit_0_1); (split; [|auto]); apply andb_true_intro; split;
    auto.
Qed.

(** The clamp of a number lies within the bounds. *)
Lemma clamp_inRange (s : float) : is_nan s = false -> inRange (clamp s) = true.
Proof.
  intros Hs. destruct (min_10_spec s Hs) as (Hn & Hle & _).
  exact (proj1 (max_0_1_spec _ Hn Hle)).
Qed.

(** *** Products and quotients of finite numbers are numbers *)

Lemma iter_pos_invariant {A : Type} (f : A -> A) (P : A -> Prop) :
  (forall a, P a -> P (f a)) -> forall n a, P a -> P (iter_pos f n a).
Proof.
  intros Hf. induction n as [n IH | n IH |]; intros a Ha; cbn; auto.
Qed.

Lemma shr_1_nonneg (mrs : shr_record) : (0 <= shr_m mrs)%Z -> (0 <= shr_m (shr_1 mrs))%Z.
Proof.
  destruct mrs as [m r s]. cbn [shr_m]. intros H.
  destruct m as [|[p|p|]|p]; cbn; lia.
Qed.

Lemma shr_fexp_nonneg (m e : Z) (l : location) :
  (0 <= m)%Z -> (0 <= shr_m (fst (shr_fexp prec emax m e l)))%Z.
Proof.
  intros Hm. unfold shr_fexp, shr.
  assert (H0 : (0 <= shr_m (shr_record_of_loc m l))%Z)
    by (destruct l as [|[]]; exact Hm).
  destruct (_ - e)%Z; cbn [fst]; try exact H0.
  apply (iter_pos_invariant shr_1 (fun mrs => (0 <= shr_m mrs)%Z) shr_1_nonneg).
  exact H0.
Qed.

Lemma round_nearest_even_nonneg (m : Z) (l : location) :
  (0 <= m)%Z -> (0 <= round_nearest_even m l)%Z.
Proof.
  intros H. unfold round_nearest_even.
  destruct l as [|[]]; try destruct (Z.even m); lia.
Qed.

Lemma binary_round_aux_not_nan (sx : bool) (mx ex : Z) (lx : location) :
  (0 <= mx)%Z -> binary_round_aux prec emax sx mx ex lx <> S754_nan.
Proof.
  intros Hm. unfold binary_round_aux.
  pose proof (shr_fexp_nonneg mx ex lx Hm) as H1.
  destruct (shr_fexp prec emax mx ex lx) as [mrs' e']. cbn [fst] in H1.
  pose proof (shr_fexp_nonneg _ e' loc_Exact
                (round_nearest_even_nonneg _ (loc_of_shr_record mrs') H1)) as H2.
  destruct (shr_fexp prec emax _ e' loc_Exact) as [mrs'' e'']. cbn [fst] in H2.
  destruct (shr_m mrs''); [discriminate | | lia].
  destruct (_ <=? _)%Z; discriminate.
Qed.

Lemma mul_finite_not_nan (a b : float) :
  finite a -> finite b -> is_nan (a * b) = false.
Proof.
  intros (sa & ma & ea & Ha) (sb & mb & eb & Hb).
  apply not_nan_Prim2SF. rewrite mul_spec, Ha, Hb.
  apply binary_round_aux_not_nan. lia.
Qed.

Lemma div_finite_not_nan (a b : float) :
  finite a -> finite b -> is_nan (a / b) = false.
Proof.
  intros (sa & ma & ea & Ha) (sb & mb & eb & Hb).
  apply not_nan_Prim2SF. rewrite div_spec, Ha, Hb.
  unfold SF64div, SFdiv, SFdiv_core_binary.
  set (m' := match (_ - _ - _)%Z with Z.pos _ => _ | Z0 => _ | Z.neg _ => _ end).
  assert (Hm' : (0 <= m')%Z).
  { subst m'. destruct (_ - _ - _)%Z; try lia. apply Z.shiftl_nonneg. lia. }
  pose proof (Z.div_pos m' (Z.pos mb) Hm' ltac:(lia)) as Hq.
  unfold Z.div in Hq. destruct (Z.div_eucl m' (Z.pos mb)) as [q r].
  apply binary_round_aux_not_nan. exact Hq.
Qed.

(** A number within the bounds is finite (and positive). *)
Lemma inRange_finite (s : float) : inRange s = true -> finite s.
Proof.
  unfold inRange. intros H. apply andb_prop in H. destruct H as [Hlo Hhi].
  rewrite leb_spec in Hlo, Hhi. unfold SFleb in Hlo, Hhi.
  change (Prim2SF lit_0_1) with (S754_finite false 7205759403792794 (-56)) in Hlo.
  change (Prim2SF lit_10) with (S754_finite false 5629499534213120 (-49)) in Hhi.
  destruct (Prim2SF s) as [sg | sg | | sg m e] eqn:E.
  - destruct sg; discriminate.
  - destruct sg; discriminate.
  - discriminate.
  - now exists sg, m, e.
Qed.

Lemma literal_finite_1_1 : finite lit_1_1.
Proof. now exists false, 4953959590107546%positive, (-52)%Z. Qed.

Lemma literal_finite_1_2 : finite lit_1_2.
Proof. now exists false, 5404319552844595%positive, (-52)%Z. Qed.

End Float64Facts.

(** ** Zoom, in binary64 *)

Module ZoomFacts.

Import Float64 Float64Facts.

Local Open Scope float_scope.

Implicit Types st : @State float.

Lemma zoomed_not_nan (s factor : float) (b : bool) :
  inRange s = true -> finite factor ->
  is_nan (if b then s * factor else s / factor) = false.
Proof.
  intros Hs Hf. apply inRange_finite in Hs.
  destruct b; [now apply mul_finite_not_nan | now apply div_finite_not_nan].
Qed.

Lemma handleWheel_inRange st (e : WheelEvent) :
  inRange (scale (viewTransform st)) = true ->
  inRange (scale (viewTransform (handleWheel e st))) = true.
Proof.
  intros H. unfold handleWheel. cbn [viewTransform setViewTransform scale].
  apply (clamp_inRange (if (deltaY e <? lit_0)%js then _ else _)).
  apply (zoomed_not_nan _ lit_1_1 _ H literal_finite_1_1).
Qed.

Lemma handleZoomChange_inRange st direction (clientWidth clientHeight : float) :
  inRange (scale (viewTransform st)) = true ->
  inRange (scale (viewTransform (handleZoomChange direction clientWidth clientHeight st))) = true.
Proof.
  intros H. unfold handleZoomChange.
  destruct (canvasRef st); [|exact H].
  destruct direction; cbn [viewTransform setViewTransform scale]; [ | |reflexivity].
  - apply (clamp_inRange (scale (viewTransform st) * lit_1_2)).
    apply (zoomed_not_nan _ lit_1_2 true H literal_finite_1_2).
  - apply (clamp_inRange (scale (viewTransform st) / lit_1_2)).
    apply (zoomed_not_nan _ lit_1_2 false H literal_finite_1_2).
Qed.

Lemma zoom_inRange st (op : ZoomOperation) :
  inRange (scale (viewTransform st)) = true ->
  inRange (scale (viewTransform (zoom op st))) = true.
Proof.
  destruct op; [apply handleWheel_inRange | apply handleZoomChange_inRange].
Qed.

Lemma zoomTrace_inRange (ops : list ZoomOperation) : forall st,
  inRange (scale (viewTransform st)) = true ->
  Forall (fun st' => inRange (scale (viewTransform st')) = true) (zoomTrace ops st).
Proof.
  induction ops as [|op ops IH]; intros st H; cbn [zoomTrace]; constructor.
  - now apply zoom_inRange.
  - apply IH. now apply zoom_inRange.
Qed.

(** The bounds hold in every reachable state as well: the other events leave
    the scale alone or put it back to 1. *)
Lemma step_inRange (ev : Event) st :
  inRange (scale (viewTransform st)) = true ->
  inRange (scale (viewTransform (step ev st))) = true.
Proof.
  intros H. destruct ev; cbn [step];
    rewrite ?redrawCanvas_viewTransform, ?redrawIfIndexChanged_viewTransform.
  - unfold sourceEffect. destruct (canvasRef st) as [canvas|]; [|exact H].
    destruct loaded as [[image drawn]|]; [|exact H].
    unfold onload. destruct (getContext canvas); [|exact H].
    destruct (getImageData _); [reflexivity | exact H].
  - unfold handleMouseDown. destruct (tool st); try exact H; now destruct (context st).
  - unfold handleMouseUp.
    destruct (isDrawing st), (isPanning st); cbn [viewTransform setIsPanning];
      rewrite ?saveState_viewTransform; exact H.
  - unfold handleMouseUp.
    destruct (isDrawing st), (isPanning st); cbn [viewTransform setIsPanning];
      rewrite ?saveState_viewTransform; exact H.
  - destruct (isPanning st) eqn:Hp; rewrite ?redrawCanvas_viewTransform;
      unfold handleMouseMove; rewrite Hp; [exact H|].
    now destruct (isDrawing st).
  - now apply handleWheel_inRange.
  - unfold renderCanvas.
    destruct (context st), (mousePosRef st), (lastMousePosRef st); try exact H.
    destruct (isDrawing st); [|exact H].
    destruct (tool st); try exact H; now destruct (canvasRef st).
  - exact H.
  - exact H.
  - unfold handleUndo. now destruct (0 <? historyIndex st)%Z.
  - unfold handleResetEdits. now destruct (0 <? _)%nat.
  - exact H.
  - exact H.
  - now destruct (handleDownload_state options format tempCtx st) as [-> | ->].
  - now apply handleZoomChange_inRange.
Qed.

Lemma reachable_inRange canvas st :
  reachable canvas st -> inRange (scale (viewTransform st)) = true.
Proof.
  induction 1 as [|st ev _ IH _]; [reflexivity | now apply step_inRange].
Qed.

(** C6: from scale 1, after each operation of any sequence of wheel and
    button zooms, the scale [s] satisfies [0.1 <= s] and [s <= 10]. *)
Theorem zoom_scale_bounded st (ops : list ZoomOperation) :
  scale (viewTransform st) = 1 ->
  Forall (fun st' =>
            (0x1.999999999999ap-4 <=? scale (viewTransform st')) = true /\
            (scale (viewTransform st') <=? 10) = true)
         (zoomTrace ops st).
Proof.
  intros H1.
  assert (H : inRange (scale (viewTransform st)) = true) by (rewrite H1; reflexivity).
  apply (zoomTrace_inRange ops) in H.
  eapply Forall_impl; [|exact H].
  intros st' Hr. now apply andb_prop in Hr.
Qed.

End ZoomFacts.

(** ** A zoom step at a bound *)

Module BoundFacts.

Import Float64 Float64Facts.

Local Open Scope float_scope.

Implicit Types st : @State float.

(** A finite number divided by itself is 1: the quotient of the mantissas is
    exact. *)
Lemma div_self (s : float) : finite s -> s / s = 1.
Proof.
  intros (sg & m & e & Hs). apply Prim2SF_inj. rewrite div_spec, Hs.
  change (Prim2SF 1) with (S754_finite false 4503599627370496 (-52)).
  unfold SF64div, SFdiv, SFdiv_core_binary.
  replace (Zdigits2 (Z.pos m) + e - (Zdigits2 (Z.pos m) + e))%Z with 0%Z by lia.
  replace (e - e)%Z with 0%Z by lia.
  change (Z.min (fexp prec emax 0) 0) with (-53)%Z.
  change (0 - -53)%Z with 53%Z. cbv iota.
  rewrite Z.shiftl_mul_pow2 by lia.
  pose proof (Z.div_mul (2 ^ 53) (Z.pos m) ltac:(lia)) as Hq.
  pose proof (Z.mod_mul (2 ^ 53) (Z.pos m) ltac:(lia)) as Hr.
  rewrite (Z.mul_comm (Z.pos m)).
  unfold Z.div in Hq. unfold Z.modulo in Hr.
  destruct (Z.div_eucl (2 ^ 53 * Z.pos m) (Z.pos m)) as [q r].
  subst q r.
  assert (Hloc : new_location (Z.pos m) 0 = loc_Exact).
  { unfold new_location, new_location_even, new_location_odd.
    now destruct (Z.even (Z.pos m)). }
  rewrite Hloc. destruct sg; reflexivity.
Qed.

(** Shifting out the zeros a multiplication by [2^52] has put in. *)
Lemma shr_52 (m : positive) (e : Z) :
  shr (Build_shr_record (Z.pos (4503599627370496 * m)) false false) e 52
  = (Build_shr_record (Z.pos m) false false, (e + 52)%Z).
Proof. reflexivity. Qed.

Lemma digits2_pos_shift_52 (m : positive) :
  Z.pos (digits2_pos (4503599627370496 * m)) = (Z.pos (digits2_pos m) + 52)%Z.
Proof. cbn. lia. Qed.

(** Multiplying by 1 changes nothing: the product of the mantissas is the
    mantissa shifted left, and rounding shifts it back. *)
Lemma mul_1_r (t : float) : t * 1 = t.
Proof.
  apply Prim2SF_inj. rewrite mul_spec.
  change (Prim2SF 1) with (S754_finite false 4503599627370496 (-52)).
  pose proof (Prim2SF_valid t) as Hv.
  destruct (Prim2SF t) as [sg | sg | | sg m e]; cbn [SF64mul SFmul];
    try reflexivity; try (destruct sg; reflexivity).
  unfold SF64mul, SFmul.
  cbn [valid_binary] in Hv. unfold bounded, canonical_mantissa in Hv.
  apply andb_prop in Hv. destruct Hv as [Hcan Hbound].
  apply Z.eqb_eq in Hcan. apply Z.leb_le in Hbound.
  rewrite xorb_false_r, Pos.mul_comm.
  unfold binary_round_aux, shr_fexp. unfold Zdigits2.
  rewrite digits2_pos_shift_52.
  replace (Z.pos (digits2_pos m) + 52 + (e + -52))%Z
    with (Z.pos (digits2_pos m) + e)%Z by lia.
  rewrite Hcan.
  replace (e - (e + -52))%Z with 52%Z by lia.
  cbn [shr_record_of_loc]. rewrite shr_52.
  cbn [shr_m loc_of_shr_record round_nearest_even].
  replace (e + -52 + 52)%Z with e by lia.
  rewrite Hcan. rewrite Z.sub_diag. cbn [shr shr_record_of_loc shr_m].
  apply Z.leb_le in Hbound. rewrite Hbound. reflexivity.
Qed.

End BoundFacts.

Module BoundTheorems.

Import Float64 Float64Facts BoundFacts.

Local Open Scope float_scope.

Implicit Types st : @State float.

(** The offset a zoom step about [focal] computes when the clamped scale is
    the scale it started from. *)
Lemma refocus_same_scale (s focal o : float) :
  finite s -> focal - (focal - o) * (s / s) = focal - (focal - o).
Proof. intros Hs. now rewrite div_self, mul_1_r. Qed.

(** C10, as the code has it: when the clamped scale of a zoom step equals the
    current scale, itself within the bounds, the scale is unchanged and each
    offset coordinate [o] becomes [f - (f - o)], [f] being the coordinate of
    the cursor (wheel) or of the centre of the parent (buttons); the transform
    is unchanged exactly when both subtractions give [o] back. *)
Theorem zoom_at_bound st (e : WheelEvent) (direction : Direction)
    (clientWidth clientHeight : float) :
  inRange (scale (viewTransform st)) = true ->
  let vt := viewTransform st in
  let refocused (fx fy : float) :=
    mkViewTransform (scale vt)
      (mkPoint (fx - (fx - x (offset vt))) (fy - (fy - y (offset vt)))) in
  (scale (viewTransform (handleWheel e st)) = scale vt ->
   viewTransform (handleWheel e st)
     = refocused (offsetX (nativeEvent e)) (offsetY (nativeEvent e)) /\
   (viewTransform (handleWheel e st) = vt <->
    refocused (offsetX (nativeEvent e)) (offsetY (nativeEvent e)) = vt)) /\
  (canvasRef st <> None -> direction <> zoom_reset ->
   scale (viewTransform (handleZoomChange direction clientWidth clientHeight st))
     = scale vt ->
   viewTransform (handleZoomChange direction clientWidth clientHeight st)
     = refocused (clientWidth / 2) (clientHeight / 2) /\
   (viewTransform (handleZoomChange direction clientWidth clientHeight st) = vt <->
    refocused (clientWidth / 2) (clientHeight / 2) = vt)) /\
  (canvasRef st = None ->
   handleZoomChange direction clientWidth clientHeight st = st).
Proof.
  intros Hr vt refocused. pose proof (inRange_finite _ Hr) as Hfin.
  split; [|split].
  - intros Hs.
    assert (E : viewTransform (handleWheel e st)
                = refocused (offsetX (nativeEvent e)) (offsetY (nativeEvent e))).
    { unfold handleWheel in *. cbn [viewTransform setViewTransform scale] in *.
      rewrite Hs. subst refocused vt. cbv beta. cbn [x y].
      f_equal. f_equal; apply (refocus_same_scale _ _ _ Hfin). }
    split; [exact E | now rewrite E].
  - intros Hc Hd Hs.
    assert (E : viewTransform (handleZoomChange direction clientWidth clientHeight st)
                = refocused (clientWidth / 2) (clientHeight / 2)).
    { unfold handleZoomChange in *.
      destruct (canvasRef st); [|contradiction].
      destruct direction; [ | |contradiction];
        cbn [viewTransform setViewTransform scale] in *;
        rewrite Hs; subst refocused vt; cbv beta; cbn [x y];
        (f_equal; f_equal; apply (refocus_same_scale _ _ _ Hfin)). }
    split; [exact E | now rewrite E].
  - intros Hc. unfold handleZoomChange. now rewrite Hc.
Qed.

End BoundTheorems.

(** ** Binary64 as real numbers: shifting and rounding *)

Module ShiftFacts.

Import Reals Lra.
Import Float64 Float64Facts FloatValue.

Local Open Scope R_scope.

(** *** Powers of two *)

Lemma pow2_pos (e : Z) : 0 < pow2 e.
Proof. apply powerRZ_lt. lra. Qed.

Lemma pow2_add (a b : Z) : pow2 (a + b) = pow2 a * pow2 b.
Proof. apply powerRZ_add. lra. Qed.

Lemma pow2_0 : pow2 0 = 1.
Proof. reflexivity. Qed.

Lemma pow2_1 : pow2 1 = 2.
Proof. exact (powerRZ_1 2). Qed.

Lemma pow2_succ (e : Z) : pow2 (e + 1) = 2 * pow2 e.
Proof. rewrite pow2_add, pow2_1. lra. Qed.

Lemma pow2_le (a b : Z) : (a <= b)%Z -> pow2 a <= pow2 b.
Proof.
  intros H. replace b with (a + (b - a))%Z by lia.
  assert (Hk : (0 <= b - a)%Z) by lia.
  revert Hk. generalize (b - a)%Z. intros k Hk. revert k Hk.
  apply natlike_ind.
  - rewrite Z.add_0_r. lra.
  - intros k Hk IH. replace (a + Z.succ k)%Z with (a + k + 1)%Z by lia.
    rewrite pow2_succ. pose proof (pow2_pos (a + k)). lra.
Qed.

Lemma pow2_lt (a b : Z) : (a < b)%Z -> pow2 a < pow2 b.
Proof.
  intros H. apply Rlt_le_trans with (pow2 (a + 1)).
  - rewrite pow2_succ. pose proof (pow2_pos a). lra.
  - apply pow2_le. lia.
Qed.

Lemma pow2_le_inv (a b : Z) : pow2 a <= pow2 b -> (a <= b)%Z.
Proof.
  intros H. destruct (Z_le_gt_dec a b) as [Hle | Hgt]; [exact Hle|].
  pose proof (pow2_lt b a ltac:(lia)). lra.
Qed.

Lemma pow2_lt_inv (a b : Z) : pow2 a < pow2 b -> (a < b)%Z.
Proof.
  intros H. destruct (Z_lt_ge_dec a b) as [Hlt | Hge]; [exact Hlt|].
  pose proof (pow2_le b a ltac:(lia)). lra.
Qed.

Lemma pow2_IZR (n : Z) : (0 <= n)%Z -> pow2 n = IZR (2 ^ n).
Proof.
  revert n. apply natlike_ind.
  - reflexivity.
  - intros n Hn IH. unfold Z.succ. rewrite pow2_succ, IH.
    rewrite Z.pow_add_r by lia. rewrite mult_IZR. change (2 ^ 1)%Z with 2%Z. lra.
Qed.

(** *** The number of binary digits *)

Lemma digits2_pos_bounds (m : positive) :
  (2 ^ (Z.pos (digits2_pos m) - 1) <= Z.pos m < 2 ^ Z.pos (digits2_pos m))%Z.
Proof.
  induction m as [m IH | m IH |]; cbn [digits2_pos].
  - rewrite Pos2Z.inj_succ.
    replace (Z.succ (Z.pos (digits2_pos m)) - 1)%Z
      with (Z.succ (Z.pos (digits2_pos m) - 1))%Z by lia.
    rewrite !Z.pow_succ_r by lia. lia.
  - rewrite Pos2Z.inj_succ.
    replace (Z.succ (Z.pos (digits2_pos m)) - 1)%Z
      with (Z.succ (Z.pos (digits2_pos m) - 1))%Z by lia.
    rewrite !Z.pow_succ_r by lia. lia.
  - cbn. lia.
Qed.

Lemma Zdigits2_nonneg (m : Z) : (0 <= Zdigits2 m)%Z.
Proof. destruct m; cbn; lia. Qed.

Lemma Zdigits2_bounds (m : Z) :
  (0 < m)%Z -> (2 ^ (Zdigits2 m - 1) <= m < 2 ^ Zdigits2 m)%Z.
Proof. destruct m as [|m|m]; try lia. intros _. apply digits2_pos_bounds. Qed.

Lemma Zdigits2_upper (m : Z) : (0 <= m)%Z -> (m < 2 ^ Zdigits2 m)%Z.
Proof.
  intros H. destruct (Z.eq_dec m 0) as [-> | Hn]; [cbn; lia|].
  now apply Zdigits2_bounds; lia.
Qed.

(** A number of [d] digits is at least [2^(d-1)], as reals. *)
Lemma Zdigits2_pow2 (m : Z) (e : Z) :
  (0 < m)%Z -> pow2 (Zdigits2 m - 1 + e) <= IZR m * pow2 e.
Proof.
  intros H. pose proof (Zdigits2_bounds m H) as [Hlo _].
  assert (Hd : (0 <= Zdigits2 m - 1)%Z).
  { destruct m; try lia. unfold Zdigits2. lia. }
  rewrite pow2_add, (pow2_IZR _ Hd).
  apply Rmult_le_compat_r; [apply Rlt_le, pow2_pos|]. now apply IZR_le.
Qed.

Lemma Zdigits2_pow2_upper (m : Z) (e : Z) :
  (0 <= m)%Z -> IZR m * pow2 e < pow2 (Zdigits2 m + e).
Proof.
  intros H. pose proof (Zdigits2_upper m H) as Hup.
  rewrite pow2_add, (pow2_IZR _ (Zdigits2_nonneg m)).
  apply Rmult_lt_compat_r; [apply pow2_pos|]. now apply IZR_lt.
Qed.

(** *** Shifting to the right *)

Lemma fexp_spec (e : Z) : fexp prec emax e = Z.max (e - 53) (-1074).
Proof. reflexivity. Qed.

Lemma IZR_xO (p : positive) : IZR (Z.pos p~0) = 2 * IZR (Z.pos p).
Proof. change (Z.pos p~0) with (2 * Z.pos p)%Z. now rewrite mult_IZR. Qed.

Lemma IZR_xI (p : positive) : IZR (Z.pos p~1) = 2 * IZR (Z.pos p) + 1.
Proof.
  change (Z.pos p~1) with (2 * Z.pos p + 1)%Z. now rewrite plus_IZR, mult_IZR.
Qed.

Lemma shr_1_located (v : R) (mrs : shr_record) (e : Z) :
  (0 <= shr_m mrs)%Z -> located v mrs e -> located v (shr_1 mrs) (e + 1).
Proof.
  destruct mrs as [m r s]. cbn [shr_m]. intros Hm (t & Hv & Ht).
  cbn [shr_m shr_r shr_s] in Hv, Ht. unfold located. rewrite pow2_succ.
  destruct m as [|[p|p|]|p]; [ | | | |lia]; cbn [shr_1 shr_m shr_r shr_s].
  - exists (t / 2). split; [rewrite Hv; field|].
    destruct r, s; cbn in *; lra.
  - exists ((1 + t) / 2). split; [rewrite Hv, IZR_xI; field|].
    destruct r, s; cbn in *; lra.
  - exists (t / 2). split; [rewrite Hv, IZR_xO; field|].
    destruct r, s; cbn in *; lra.
  - exists ((1 + t) / 2). split; [rewrite Hv; field|].
    destruct r, s; cbn in *; lra.
Qed.

Lemma iter_shr_1_located (n : positive) : forall (v : R) (mrs : shr_record) (e : Z),
  (0 <= shr_m mrs)%Z -> located v mrs e ->
  (0 <= shr_m (SpecFloat.iter_pos shr_1 n mrs))%Z /\
  located v (SpecFloat.iter_pos shr_1 n mrs) (e + Z.pos n).
Proof.
  induction n as [n IH | n IH |]; intros v mrs e Hm Hl; cbn [SpecFloat.iter_pos].
  - pose proof (shr_1_nonneg mrs Hm) as H0.
    pose proof (shr_1_located v mrs e Hm Hl) as H0'.
    destruct (IH v _ _ H0 H0') as [H1 H1'].
    destruct (IH v _ _ H1 H1') as [H2 H2'].
    split; [exact H2|].
    replace (e + Z.pos n~1)%Z with (e + 1 + Z.pos n + Z.pos n)%Z by lia. exact H2'.
  - destruct (IH v _ _ Hm Hl) as [H1 H1'].
    destruct (IH v _ _ H1 H1') as [H2 H2'].
    split; [exact H2|].
    replace (e + Z.pos n~0)%Z with (e + Z.pos n + Z.pos n)%Z by lia. exact H2'.
  - split; [now apply shr_1_nonneg | now apply shr_1_located].
Qed.

Lemma shr_located (v : R) (mrs : shr_record) (e n : Z) :
  (0 <= shr_m mrs)%Z -> located v mrs e ->
  (0 <= shr_m (fst (shr mrs e n)))%Z /\
  located v (fst (shr mrs e n)) (snd (shr mrs e n)) /\
  snd (shr mrs e n) = (e + Z.max 0 n)%Z.
Proof.
  intros Hm Hl. destruct n as [|n|n]; cbn [shr fst snd].
  - rewrite Z.add_0_r. auto.
  - destruct (iter_shr_1_located n v mrs e Hm Hl) as [H1 H2].
    split; [exact H1|]. split; [exact H2|]. lia.
  - rewrite Z.add_0_r. auto.
Qed.

Lemma shr_record_of_loc_m (m : Z) (l : location) : shr_m (shr_record_of_loc m l) = m.
Proof. now destruct l as [|[]]. Qed.

Lemma shr_fexp_located (v : R) (m e : Z) (l : location) :
  (0 <= m)%Z -> located v (shr_record_of_loc m l) e ->
  (0 <= shr_m (fst (shr_fexp prec emax m e l)))%Z /\
  located v (fst (shr_fexp prec emax m e l)) (snd (shr_fexp prec emax m e l)) /\
  snd (shr_fexp prec emax m e l) = Z.max e (fexp prec emax (Zdigits2 m + e)).
Proof.
  intros Hm Hl. unfold shr_fexp.
  assert (Hm' : (0 <= shr_m (shr_record_of_loc m l))%Z)
    by now rewrite shr_record_of_loc_m.
  destruct (shr_located v _ e (fexp prec emax (Zdigits2 m + e) - e) Hm' Hl)
    as (H1 & H2 & H3).
  split; [exact H1|]. split; [exact H2|]. rewrite H3. lia.
Qed.

(** *** Rounding to nearest *)

Lemma cutOff_range (r s : bool) (t : R) : cutOff r s t -> 0 <= t < 1.
Proof. destruct r, s; cbn; lra. Qed.

Lemma round_nearest_even_error (mrs : shr_record) (t : R) :
  cutOff (shr_r mrs) (shr_s mrs) t ->
  let m' := round_nearest_even (shr_m mrs) (loc_of_shr_record mrs) in
  (shr_m mrs <= m' <= shr_m mrs + 1)%Z /\
  Rabs (IZR m' - (IZR (shr_m mrs) + t)) <= / 2.
Proof.
  destruct mrs as [m r s]. cbn [shr_m shr_r shr_s]. intros Ht.
  destruct r, s; cbn [loc_of_shr_record round_nearest_even cutOff] in *.
  - split; [lia|]. rewrite plus_IZR. apply Rabs_le. lra.
  - destruct (Z.even m); (split; [lia|]); rewrite ?plus_IZR; apply Rabs_le; lra.
  - split; [lia|]. apply Rabs_le. lra.
  - split; [lia|]. apply Rabs_le. lra.
Qed.

End ShiftFacts.

Module RoundingFacts.

Import Reals Lra.
Import Float64 Float64Facts FloatValue ShiftFacts.

Local Open Scope R_scope.

Lemma u_half : u = / 2 * pow2 (-52).
Proof.
  unfold u. replace (-52)%Z with (-53 + 1)%Z by lia. rewrite pow2_succ. lra.
Qed.

Lemma eta_half : eta = / 2 * pow2 (-1074).
Proof.
  unfold eta. replace (-1074)%Z with (-1075 + 1)%Z by lia. rewrite pow2_succ. lra.
Qed.

(** Half a unit in the last place is within the tolerance. *)
Lemma half_ulp (e : Z) (v : R) :
  pow2 e <= Rmax (pow2 (-52) * v) (pow2 (-1074)) ->
  / 2 * pow2 e <= Rmax (u * v) eta.
Proof.
  intros H. rewrite u_half, eta_half.
  replace (/ 2 * pow2 (-52) * v) with (/ 2 * (pow2 (-52) * v)) by ring.
  rewrite RmaxRmult by lra. lra.
Qed.

Lemma located_lower (v : R) (m e : Z) (l : location) :
  located v (shr_record_of_loc m l) e -> IZR m * pow2 e <= v < (IZR m + 1) * pow2 e.
Proof.
  intros (t & Hv & Ht). rewrite shr_record_of_loc_m in Hv.
  apply cutOff_range in Ht. pose proof (pow2_pos e). rewrite Hv. nra.
Qed.

Lemma located_record_lower (v : R) (mrs : shr_record) (e : Z) :
  located v mrs e -> IZR (shr_m mrs) * pow2 e <= v.
Proof.
  intros (t & Hv & Ht). apply cutOff_range in Ht. pose proof (pow2_pos e).
  rewrite Hv. nra.
Qed.

Lemma Zdigits2_le_53 (m : Z) : (0 <= m < 2 ^ 53)%Z -> (Zdigits2 m <= 53)%Z.
Proof.
  intros [H0 H1]. destruct (Z.eq_dec m 0) as [-> | Hn]; [cbn; lia|].
  pose proof (Zdigits2_bounds m ltac:(lia)) as [Hlo _].
  assert (H : (2 ^ (Zdigits2 m - 1) < 2 ^ 53)%Z) by lia.
  apply Z.pow_lt_mono_r_iff in H; lia.
Qed.

(** The second shift of [binary_round_aux] changes the mantissa only when
    rounding has carried into a 54th digit, and keeps the value. *)
Lemma shr_fexp_rounded (m' e1 : Z) :
  (0 <= m' <= 2 ^ 53)%Z -> (-1074 <= e1)%Z ->
  exists m2 e2,
    shr_fexp prec emax m' e1 loc_Exact = (Build_shr_record m2 false false, e2) /\
    IZR m2 * pow2 e2 = IZR m' * pow2 e1 /\ (0 <= m2)%Z /\ (e2 <= e1 + 1)%Z.
Proof.
  intros Hm He. destruct (Z.eq_dec m' (2 ^ 53)) as [-> | Hne].
  - exists (2 ^ 52)%Z, (e1 + 1)%Z. split; [|split; [|split]]; try lia.
    + unfold shr_fexp. replace (Zdigits2 (2 ^ 53)) with 54%Z by reflexivity.
      rewrite fexp_spec.
      replace (Z.max (54 + e1 - 53) (-1074) - e1)%Z with 1%Z by lia. reflexivity.
    + rewrite pow2_succ. replace (2 ^ 53)%Z with (2 * 2 ^ 52)%Z by reflexivity.
      rewrite mult_IZR. ring.
  - exists m', e1. split; [|split; [|split]]; try lia; try reflexivity.
    pose proof (Zdigits2_le_53 m' ltac:(lia)) as Hd.
    unfold shr_fexp. rewrite fexp_spec.
    destruct (Z.max (Zdigits2 m' + e1 - 53) (-1074) - e1)%Z eqn:E; try reflexivity.
    lia.
Qed.

(** Rounding a nonnegative number given by a mantissa, an exponent and a
    location: the result is a number of the format, and is within half a
    unit in the last place. *)
Lemma binary_round_aux_error (sx : bool) (mx ex : Z) (lx : location) (v : R) :
  (0 <= mx)%Z ->
  located v (shr_record_of_loc mx lx) ex ->
  pow2 ex <= Rmax (pow2 (-52) * v) (pow2 (-1074)) ->
  v <= pow2 1022 ->
  exists w,
    isReal (binary_round_aux prec emax sx mx ex lx) = true /\
    SF2R (binary_round_aux prec emax sx mx ex lx) = (if sx then - w else w) /\
    0 <= w /\
    Rabs (w - v) <= Rmax (u * v) eta.
Proof.
  intros Hm Hl Hex Hv.
  pose proof (located_lower v mx ex lx Hl) as [Hlo Hhi].
  destruct (shr_fexp_located v mx ex lx Hm Hl) as (Hm1 & Hl1 & He1).
  unfold binary_round_aux.
  destruct (shr_fexp prec emax mx ex lx) as [mrs1 e1]. cbn [fst snd] in Hm1, Hl1, He1.
  rewrite fexp_spec in He1.
  assert (HE : pow2 e1 <= Rmax (pow2 (-52) * v) (pow2 (-1074))).
  { destruct (Z.eq_dec mx 0) as [E0 | Hn].
    - subst mx. cbn [Zdigits2] in He1.
      destruct (Z_le_gt_dec e1 (-1074)) as [Hle | Hgt].
      + eapply Rle_trans; [apply pow2_le; exact Hle | apply Rmax_r].
      + eapply Rle_trans; [apply pow2_le | exact Hex]. lia.
    - destruct (Z_le_gt_dec e1 ex) as [Hle | Hgt].
      { eapply Rle_trans; [apply pow2_le; exact Hle | exact Hex]. }
      destruct (Z_le_gt_dec e1 (-1074)) as [Hle' | Hgt'].
      { eapply Rle_trans; [apply pow2_le; exact Hle' | apply Rmax_r]. }
      assert (E : e1 = (-52 + (Zdigits2 mx - 1 + ex))%Z) by lia.
      eapply Rle_trans; [|apply Rmax_l]. rewrite E, pow2_add.
      apply Rmult_le_compat_l; [apply Rlt_le, pow2_pos|].
      eapply Rle_trans; [apply Zdigits2_pow2; lia | exact Hlo]. }
  assert (He1lo : (-1074 <= e1)%Z) by lia.
  assert (He1hi : (e1 <= 970)%Z).
  { apply pow2_le_inv. eapply Rle_trans; [exact HE|]. apply Rmax_lub.
    - replace 970%Z with (-52 + 1022)%Z by lia. rewrite pow2_add.
      apply Rmult_le_compat_l; [apply Rlt_le, pow2_pos | exact Hv].
    - apply pow2_le. lia. }
  pose proof (located_record_lower v mrs1 e1 Hl1) as Hlo1.
  assert (Hm1hi : (shr_m mrs1 < 2 ^ 53)%Z).
  { apply lt_IZR. rewrite <- pow2_IZR by lia.
    apply Rmult_lt_reg_r with (pow2 e1); [apply pow2_pos|]. rewrite <- pow2_add.
    apply Rle_lt_trans with v; [exact Hlo1|].
    apply Rlt_le_trans with (pow2 (Zdigits2 mx + ex)).
    - eapply Rlt_le_trans; [exact Hhi|]. rewrite pow2_add.
      apply Rmult_le_compat_r; [apply Rlt_le, pow2_pos|].
      rewrite (pow2_IZR _ (Zdigits2_nonneg mx)).
      change 1 with (IZR 1). rewrite <- plus_IZR. apply IZR_le.
      pose proof (Zdigits2_upper mx Hm). lia.
    - apply pow2_le. lia. }
  destruct Hl1 as (t & Hv1 & Ht).
  pose proof (round_nearest_even_error mrs1 t Ht) as [Hm' Herr]. cbv zeta in Hm', Herr.
  set (m' := round_nearest_even (shr_m mrs1) (loc_of_shr_record mrs1)) in *.
  destruct (shr_fexp_rounded m' e1 ltac:(lia) He1lo) as (m2 & e2 & -> & Hval & Hm2 & He2).
  cbn [shr_m].
  exists (IZR m' * pow2 e1).
  assert (Hw : 0 <= IZR m' * pow2 e1).
  { apply Rmult_le_pos; [apply IZR_le; lia | apply Rlt_le, pow2_pos]. }
  assert (Hd : Rabs (IZR m' * pow2 e1 - v) <= Rmax (u * v) eta).
  { eapply Rle_trans; [|apply half_ulp; exact HE].
    replace (IZR m' * pow2 e1 - v)
      with ((IZR m' - (IZR (shr_m mrs1) + t)) * pow2 e1) by (rewrite Hv1; ring).
    rewrite Rabs_mult, (Rabs_pos_eq (pow2 e1)) by apply Rlt_le, pow2_pos.
    apply Rmult_le_compat_r; [apply Rlt_le, pow2_pos | exact Herr]. }
  destruct m2 as [|p|p]; [ | |lia].
  - rewrite Rmult_0_l in Hval. rewrite <- Hval in *.
    repeat split; auto. cbn [SF2R]. destruct sx; lra.
  - replace (e2 <=? emax - prec)%Z with true
      by (symmetry; apply Z.leb_le; change (emax - prec)%Z with 971%Z; lia).
    rewrite <- Hval in *. repeat split; auto.
Qed.

End RoundingFacts.

(** ** The error of one operation *)

Module MultiplicationFacts.

Import Reals Lra.
Import Float64 Float64Facts FloatValue ShiftFacts RoundingFacts.

Local Open Scope R_scope.

(** *** Numbers of the format *)

Lemma valid_finite (s : bool) (m : positive) (e : Z) :
  valid_binary (S754_finite s m e) = true ->
  (Zdigits2 (Z.pos m) <= 53)%Z /\ (-1074 <= e <= 971)%Z /\
  (Zdigits2 (Z.pos m) = 53 \/ e = -1074)%Z.
Proof.
  unfold valid_binary, SpecFloat.valid_binary, bounded, canonical_mantissa. intros H.
  apply andb_prop in H. destruct H as [Hc Hb].
  apply Z.eqb_eq in Hc. apply Z.leb_le in Hb. rewrite fexp_spec in Hc.
  change (emax - prec)%Z with 971%Z in Hb. cbn [Zdigits2]. lia.
Qed.

Lemma mantissa_pos (m : positive) (e : Z) : 0 < IZR (Z.pos m) * pow2 e.
Proof.
  apply Rmult_lt_0_compat; [apply IZR_lt; lia | apply pow2_pos].
Qed.

Lemma SF2R_finite (s : bool) (m : positive) (e : Z) :
  SF2R (S754_finite s m e)
  = if s then - (IZR (Z.pos m) * pow2 e) else IZR (Z.pos m) * pow2 e.
Proof. reflexivity. Qed.

Lemma tolerance_nonneg (a : R) : 0 <= Rmax (u * a) eta.
Proof.
  eapply Rle_trans; [|apply Rmax_r]. apply Rlt_le, pow2_pos.
Qed.

Lemma error_0 (a b : R) : a = b -> Rabs (a - b) <= Rmax (u * Rabs b) eta.
Proof.
  intros ->. replace (b - b) with 0 by ring. rewrite Rabs_R0.
  apply tolerance_nonneg.
Qed.

Lemma signed_error (s : bool) (w v : R) :
  0 <= v -> Rabs (w - v) <= Rmax (u * v) eta ->
  Rabs ((if s then - w else w) - (if s then - v else v))
  <= Rmax (u * Rabs (if s then - v else v)) eta.
Proof.
  intros Hv H. destruct s.
  - replace (- w - - v) with (- (w - v)) by ring.
    now rewrite !Rabs_Ropp, (Rabs_pos_eq v Hv).
  - now rewrite (Rabs_pos_eq v Hv).
Qed.

Lemma signed_abs (s : bool) (v : R) : 0 <= v -> Rabs (if s then - v else v) = v.
Proof.
  intros Hv. destruct s; [rewrite Rabs_Ropp|]; now apply Rabs_pos_eq.
Qed.

(** Rounding a signed quantity through [binary_round_aux]. *)
Lemma binary_round_aux_signed (sx : bool) (mx ex : Z) (lx : location) (v : R) :
  (0 <= mx)%Z ->
  located v (shr_record_of_loc mx lx) ex ->
  pow2 ex <= Rmax (pow2 (-52) * v) (pow2 (-1074)) ->
  v <= pow2 1022 ->
  let exact := if sx then - v else v in
  isReal (binary_round_aux prec emax sx mx ex lx) = true /\
  Rabs (SF2R (binary_round_aux prec emax sx mx ex lx) - exact)
  <= Rmax (u * Rabs exact) eta.
Proof.
  intros Hm Hl Hex Hv exact.
  pose proof (located_lower v mx ex lx Hl) as [Hlo _].
  assert (H0 : 0 <= v).
  { eapply Rle_trans; [|exact Hlo].
    apply Rmult_le_pos; [apply IZR_le; lia | apply Rlt_le, pow2_pos]. }
  destruct (binary_round_aux_error sx mx ex lx v Hm Hl Hex Hv) as (w & Hr & Hw & _ & Hd).
  split; [exact Hr|]. rewrite Hw. now apply signed_error.
Qed.

(** *** Multiplication *)

Lemma SFmul_error (x y : spec_float) :
  valid_binary x = true -> valid_binary y = true ->
  isReal x = true -> isReal y = true ->
  Rabs (SF2R x * SF2R y) <= pow2 1022 ->
  isReal (SF64mul x y) = true /\
  Rabs (SF2R (SF64mul x y) - SF2R x * SF2R y)
  <= Rmax (u * Rabs (SF2R x * SF2R y)) eta.
Proof.
  intros Vx Vy Rx Ry Hb.
  destruct x as [sx | sx | | sx mx ex]; try discriminate;
    destruct y as [sy | sy | | sy my ey]; try discriminate;
    try (split; [reflexivity | apply error_0; cbn; ring]).
  unfold SF64mul, SFmul.
  set (v := IZR (Z.pos mx) * pow2 ex * (IZR (Z.pos my) * pow2 ey)).
  assert (Hx : SF2R (S754_finite sx mx ex) * SF2R (S754_finite sy my ey)
               = if xorb sx sy then - v else v).
  { subst v. rewrite !SF2R_finite. destruct sx, sy; cbn [xorb]; ring. }
  pose proof (mantissa_pos mx ex) as Px. pose proof (mantissa_pos my ey) as Py.
  assert (H0 : 0 <= v) by (subst v; nra).
  rewrite Hx in *. rewrite (signed_abs _ _ H0) in Hb.
  apply binary_round_aux_signed; try lia; try exact Hb.
  - exists 0. split; [|reflexivity]. cbn [shr_record_of_loc shr_m].
    subst v. rewrite Pos2Z.inj_mul, mult_IZR, pow2_add. ring.
  - destruct (valid_finite _ _ _ Vx) as (Dx & Ex & Nx).
    destruct (valid_finite _ _ _ Vy) as (Dy & Ey & Ny).
    assert (Hm1 : 1 <= IZR (Z.pos mx)) by (apply IZR_le; lia).
    assert (Hm2 : 1 <= IZR (Z.pos my)) by (apply IZR_le; lia).
    pose proof (pow2_pos ex) as Pex. pose proof (pow2_pos ey) as Pey.
    destruct Nx as [Nx | Nx].
    { eapply Rle_trans; [|apply Rmax_l].
      pose proof (Zdigits2_pow2 (Z.pos mx) ex ltac:(lia)) as Hlo.
      rewrite Nx in Hlo. replace (53 - 1 + ex)%Z with (52 + ex)%Z in Hlo by lia.
      rewrite pow2_add in Hlo.
      assert (E : pow2 (-52) * pow2 52 = 1)
        by (rewrite <- pow2_add; reflexivity).
      rewrite pow2_add. subst v.
      assert (Hk : pow2 ex * pow2 ey
                   = pow2 (-52) * (pow2 52 * pow2 ex * (1 * pow2 ey)))
        by (transitivity (pow2 (-52) * pow2 52 * (pow2 ex * pow2 ey));
            [rewrite E; ring | ring]).
      rewrite Hk. apply Rmult_le_compat_l; [apply Rlt_le, pow2_pos|].
      apply Rmult_le_compat; try nra.
      apply Rmult_le_pos; [apply Rlt_le, pow2_pos | lra]. }
    destruct Ny as [Ny | Ny].
    { eapply Rle_trans; [|apply Rmax_l].
      pose proof (Zdigits2_pow2 (Z.pos my) ey ltac:(lia)) as Hlo.
      rewrite Ny in Hlo. replace (53 - 1 + ey)%Z with (52 + ey)%Z in Hlo by lia.
      rewrite pow2_add in Hlo.
      assert (E : pow2 (-52) * pow2 52 = 1)
        by (rewrite <- pow2_add; reflexivity).
      rewrite pow2_add. subst v.
      assert (Hk : pow2 ex * pow2 ey
                   = pow2 (-52) * (1 * pow2 ex * (pow2 52 * pow2 ey)))
        by (transitivity (pow2 (-52) * pow2 52 * (pow2 ex * pow2 ey));
            [rewrite E; ring | ring]).
      rewrite Hk. apply Rmult_le_compat_l; [apply Rlt_le, pow2_pos|].
      apply Rmult_le_compat; try nra.
      apply Rmult_le_pos; [apply Rlt_le, pow2_pos | lra]. }
    eapply Rle_trans; [|apply Rmax_r]. apply pow2_le. lia.
Qed.

End MultiplicationFacts.

Module DivisionFacts.

Import Reals Lra.
Import Float64 Float64Facts FloatValue ShiftFacts RoundingFacts MultiplicationFacts.

Local Open Scope R_scope.

(** *** Division *)

(** The location the division gives the remainder [r] of a division by [d]. *)
Lemma new_location_cutOff (q d r : Z) :
  (0 <= r < d)%Z ->
  cutOff (shr_r (shr_record_of_loc q (new_location d r)))
         (shr_s (shr_record_of_loc q (new_location d r)))
         (IZR r / IZR d).
Proof.
  intros [Hr0 Hrd].
  assert (Hd : 0 < IZR d) by (apply IZR_lt; lia).
  assert (Hr : 0 <= IZR r) by (apply IZR_le; lia).
  assert (Hx : IZR r / IZR d * IZR d = IZR r) by (field; lra).
  set (t := IZR r / IZR d) in *.
  unfold new_location.
  change (IntDef.Z.even d) with (Z.even d).
  destruct (Z.even d) eqn:Ev; unfold new_location_even, new_location_odd;
    (destruct (Z.eqb_spec r 0) as [E | Hn];
     [cbn; subst t; rewrite E; unfold Rdiv; ring|]);
    assert (Hr1 : 1 <= IZR r) by (apply IZR_le; lia).
  - destruct (Z.compare_spec (2 * r) d) as [E | Hlt | Hgt]; cbn.
    + apply (f_equal IZR) in E. rewrite mult_IZR in E. nra.
    + apply IZR_lt in Hlt. rewrite mult_IZR in Hlt. split; nra.
    + apply IZR_lt in Hgt, Hrd. rewrite mult_IZR in Hgt. split; nra.
  - assert (Hodd : (2 * r <> d)%Z).
    { intros E. rewrite <- E, Z.even_mul in Ev. discriminate. }
    destruct (Z.compare_spec (2 * r + 1) d) as [E | Hlt | Hgt]; cbn.
    + assert (H : (2 * r < d)%Z) by lia.
      apply IZR_lt in H. rewrite mult_IZR in H. split; nra.
    + assert (H : (2 * r < d)%Z) by lia.
      apply IZR_lt in H. rewrite mult_IZR in H. split; nra.
    + assert (H : (d < 2 * r)%Z) by lia.
      apply IZR_lt in H, Hrd. rewrite mult_IZR in H. split; nra.
Qed.

Lemma SFdiv_core_located (mx : positive) (ex : Z) (my : positive) (ey : Z) :
  let v := IZR (Z.pos mx) * pow2 ex / (IZR (Z.pos my) * pow2 ey) in
  let '(q, e', l) := SFdiv_core_binary prec emax (Z.pos mx) ex (Z.pos my) ey in
  (0 <= q)%Z /\ located v (shr_record_of_loc q l) e' /\
  pow2 e' <= Rmax (pow2 (-52) * v) (pow2 (-1074)).
Proof.
  intros v. unfold SFdiv_core_binary. rewrite fexp_spec.
  set (d1 := Zdigits2 (Z.pos mx)). set (d2 := Zdigits2 (Z.pos my)).
  set (e' := Z.min (Z.max (d1 + ex - (d2 + ey) - 53) (-1074)) (ex - ey)).
  set (s := (ex - ey - e')%Z).
  assert (Hs : (0 <= s)%Z) by lia.
  set (m' := match s with Z.pos _ => Z.shiftl (Z.pos mx) s | Z0 => Z.pos mx
                        | Z.neg _ => 0%Z end).
  assert (Hm' : m' = (Z.pos mx * 2 ^ s)%Z).
  { subst m'. destruct s as [|p|p] eqn:E; [lia | | lia].
    apply Z.shiftl_mul_pow2. lia. }
  assert (Hm0 : (0 < m')%Z).
  { rewrite Hm'. apply Z.mul_pos_pos; [lia|]. apply Z.pow_pos_nonneg; lia. }
  pose proof (Z_div_mod m' (Z.pos my) ltac:(lia)) as Hdiv.
  destruct (Z.div_eucl m' (Z.pos my)) as [q r]. destruct Hdiv as [Hq Hr].
  assert (Hq0 : (0 <= q)%Z) by nia.
  pose proof (mantissa_pos mx ex) as Px. pose proof (mantissa_pos my ey) as Py.
  pose proof (pow2_pos ey) as Pey. pose proof (pow2_pos e') as Pe'.
  assert (Hmy : 0 < IZR (Z.pos my)) by (apply IZR_lt; lia).
  assert (Hv : v = (IZR q + IZR r / IZR (Z.pos my)) * pow2 e').
  { subst v. replace ex with (s + e' + ey)%Z by lia.
    rewrite !pow2_add, (pow2_IZR s Hs).
    assert (E : IZR (Z.pos mx) * IZR (2 ^ s) = IZR (Z.pos my) * IZR q + IZR r).
    { rewrite <- !mult_IZR, <- plus_IZR. f_equal. lia. }
    transitivity (IZR (Z.pos mx) * IZR (2 ^ s) / IZR (Z.pos my) * pow2 e');
      [field; lra|].
    rewrite E. field. lra. }
  split; [exact Hq0|]. split.
  - exists (IZR r / IZR (Z.pos my)). rewrite shr_record_of_loc_m.
    split; [exact Hv|]. now apply new_location_cutOff.
  - destruct (Z_le_gt_dec e' (-1074)) as [Hle | Hgt].
    { eapply Rle_trans; [apply pow2_le; exact Hle | apply Rmax_r]. }
    eapply Rle_trans; [|apply Rmax_l].
    assert (He' : (e' <= -52 + (d1 - 1 + ex - (d2 + ey)))%Z) by lia.
    eapply Rle_trans; [apply pow2_le; exact He'|]. rewrite pow2_add.
    apply Rmult_le_compat_l; [apply Rlt_le, pow2_pos|].
    pose proof (Zdigits2_pow2 (Z.pos mx) ex ltac:(lia)) as Hlo.
    pose proof (Zdigits2_pow2_upper (Z.pos my) ey ltac:(lia)) as Hup.
    fold d1 in Hlo. fold d2 in Hup.
    replace (d1 - 1 + ex - (d2 + ey))%Z with (d1 - 1 + ex + - (d2 + ey))%Z by lia.
    rewrite pow2_add. unfold pow2 at 2. rewrite powerRZ_neg'. fold (pow2 (d2 + ey)).
    subst v. unfold Rdiv.
    pose proof (pow2_pos (d2 + ey)) as Pd. pose proof (pow2_pos (d1 - 1 + ex)) as Pn.
    apply Rmult_le_compat; try lra.
    + apply Rlt_le, Rinv_0_lt_compat. exact Pd.
    + apply Rinv_le_contravar; lra.
Qed.

Lemma SFdiv_error (x : spec_float) (sy : bool) (my : positive) (ey : Z) :
  valid_binary x = true -> isReal x = true ->
  let y := S754_finite sy my ey in
  Rabs (SF2R x / SF2R y) <= pow2 1022 ->
  isReal (SF64div x y) = true /\
  Rabs (SF2R (SF64div x y) - SF2R x / SF2R y)
  <= Rmax (u * Rabs (SF2R x / SF2R y)) eta.
Proof.
  intros Vx Rx y Hb. subst y.
  pose proof (mantissa_pos my ey) as Py.
  destruct x as [sx | sx | | sx mx ex]; try discriminate.
  { split; [reflexivity|]. apply error_0. cbn [SF64div SFdiv SF2R].
    unfold Rdiv. ring. }
  unfold SF64div, SFdiv.
  pose proof (SFdiv_core_located mx ex my ey) as H. cbv zeta in H.
  destruct (SFdiv_core_binary prec emax (Z.pos mx) ex (Z.pos my) ey) as [[q e'] l].
  destruct H as (Hq & Hl & He).
  set (v := IZR (Z.pos mx) * pow2 ex / (IZR (Z.pos my) * pow2 ey)) in *.
  pose proof (mantissa_pos mx ex) as Px.
  assert (H0 : 0 <= v).
  { subst v. apply Rlt_le, Rdiv_lt_0_compat; lra. }
  assert (Hx : SF2R (S754_finite sx mx ex) / SF2R (S754_finite sy my ey)
               = if xorb sx sy then - v else v).
  { subst v. rewrite !SF2R_finite.
    set (a := IZR (Z.pos mx) * pow2 ex) in *.
    set (b := IZR (Z.pos my) * pow2 ey) in *.
    destruct sx, sy; cbn [xorb]; field; lra. }
  rewrite Hx in *. rewrite (signed_abs _ _ H0) in Hb.
  now apply binary_round_aux_signed.
Qed.

End DivisionFacts.

Module SubtractionFacts.

Import Reals Lra.
Import Float64 Float64Facts FloatValue ShiftFacts RoundingFacts MultiplicationFacts.

Local Open Scope R_scope.

(** *** Subtraction *)

Lemma shl_align_spec (mx : positive) (ex e' : Z) :
  snd (shl_align mx ex e') = Z.min ex e' /\
  IZR (Z.pos (fst (shl_align mx ex e'))) * pow2 (snd (shl_align mx ex e'))
  = IZR (Z.pos mx) * pow2 ex.
Proof.
  unfold shl_align. destruct (e' - ex)%Z as [|d|d] eqn:E; cbn [fst snd].
  - split; [lia | reflexivity].
  - split; [lia | reflexivity].
  - split; [lia|].
    change (Pos.iter xO mx d) with (shift_pos d mx).
    rewrite shift_pos_correct. change (Z.pow_pos 2 d) with (2 ^ Z.pos d)%Z.
    rewrite mult_IZR, <- pow2_IZR by lia.
    replace ex with (Z.pos d + e')%Z by lia. rewrite pow2_add. ring.
Qed.

Lemma binary_round_error (sx : bool) (m : positive) (e : Z) :
  IZR (Z.pos m) * pow2 e <= pow2 1022 ->
  let exact := if sx then - (IZR (Z.pos m) * pow2 e) else IZR (Z.pos m) * pow2 e in
  isReal (binary_round prec emax sx m e) = true /\
  Rabs (SF2R (binary_round prec emax sx m e) - exact) <= Rmax (u * Rabs exact) eta.
Proof.
  intros Hb. unfold binary_round. rewrite fexp_spec.
  destruct (shl_align_spec m e (Z.max (Z.pos (digits2_pos m) + e - 53) (-1074)))
    as [He Hv].
  destruct (shl_align m e _) as [mz ez]. cbn [fst snd] in He, Hv.
  rewrite <- Hv in *.
  apply binary_round_aux_signed; try lia; try exact Hb.
  - exists 0. split; [|reflexivity]. cbn [shr_record_of_loc shr_m]. ring.
  - destruct (Z_le_gt_dec ez (-1074)) as [Hle | Hgt].
    { eapply Rle_trans; [apply pow2_le; exact Hle | apply Rmax_r]. }
    eapply Rle_trans; [|apply Rmax_l].
    assert (He' : (ez <= -52 + (Zdigits2 (Z.pos m) - 1 + e))%Z)
      by (cbn [Zdigits2]; lia).
    eapply Rle_trans; [apply pow2_le; exact He'|]. rewrite pow2_add.
    apply Rmult_le_compat_l; [apply Rlt_le, pow2_pos|].
    rewrite Hv. apply Zdigits2_pow2. lia.
Qed.

Lemma binary_normalize_error (m e : Z) :
  Rabs (IZR m * pow2 e) <= pow2 1022 ->
  isReal (binary_normalize prec emax m e false) = true /\
  Rabs (SF2R (binary_normalize prec emax m e false) - IZR m * pow2 e)
  <= Rmax (u * Rabs (IZR m * pow2 e)) eta.
Proof.
  intros Hb. destruct m as [|p|p]; cbn [binary_normalize].
  - split; [reflexivity|]. apply error_0. cbn. ring.
  - pose proof (mantissa_pos p e) as Hp.
    rewrite Rabs_pos_eq in Hb by lra.
    exact (binary_round_error false p e Hb).
  - pose proof (mantissa_pos p e) as Hp.
    assert (E : IZR (Z.neg p) * pow2 e = - (IZR (Z.pos p) * pow2 e)).
    { change (Z.neg p) with (- Z.pos p)%Z. rewrite opp_IZR. ring. }
    rewrite E in *. rewrite Rabs_Ropp, Rabs_pos_eq in Hb by lra.
    exact (binary_round_error true p e Hb).
Qed.

Lemma IZR_cond_Zopp (s : bool) (m : positive) (e : Z) :
  IZR (cond_Zopp s (Z.pos m)) * pow2 e = SF2R (S754_finite s m e).
Proof.
  destruct s; cbn [cond_Zopp SF2R]; [|reflexivity].
  change (- Z.pos m)%Z with (Z.neg m). change (Z.neg m) with (- Z.pos m)%Z.
  rewrite opp_IZR. ring.
Qed.

Lemma SFsub_error (x y : spec_float) :
  valid_binary x = true -> valid_binary y = true ->
  isReal x = true -> isReal y = true ->
  Rabs (SF2R x - SF2R y) <= pow2 1022 ->
  isReal (SF64sub x y) = true /\
  Rabs (SF2R (SF64sub x y) - (SF2R x - SF2R y))
  <= Rmax (u * Rabs (SF2R x - SF2R y)) eta.
Proof.
  intros Vx Vy Rx Ry Hb.
  destruct x as [sx | sx | | sx mx ex]; try discriminate;
    destruct y as [sy | sy | | sy my ey]; try discriminate.
  - split; [now destruct sx, sy|]. apply error_0. destruct sx, sy; cbn; ring.
  - split; [reflexivity|]. apply error_0. cbn [SF64sub SFsub].
    rewrite !SF2R_finite. cbn [SF2R]. destruct sy; cbn [negb]; ring.
  - split; [reflexivity|]. apply error_0. cbn [SF64sub SFsub SF2R]. ring.
  - unfold SF64sub, SFsub.
    set (ez := Z.min ex ey).
    destruct (shl_align_spec mx ex ez) as [Ex Hx].
    destruct (shl_align_spec my ey ez) as [Ey Hy].
    destruct (shl_align mx ex ez) as [mx' ex'].
    destruct (shl_align my ey ez) as [my' ey'].
    cbn [fst snd] in *.
    replace ex' with ez in Hx by lia. replace ey' with ez in Hy by lia.
    assert (E : IZR (cond_Zopp sx (Z.pos mx') - cond_Zopp sy (Z.pos my')) * pow2 ez
                = SF2R (S754_finite sx mx ex) - SF2R (S754_finite sy my ey)).
    { rewrite minus_IZR, Rmult_minus_distr_r, !IZR_cond_Zopp, !SF2R_finite.
      rewrite Hx, Hy. reflexivity. }
    rewrite <- E in *. now apply binary_normalize_error.
Qed.

End SubtractionFacts.

Module Binary64Facts.

Import Reals Lra.
Import Float64 Float64Facts FloatValue.
Import ShiftFacts RoundingFacts MultiplicationFacts DivisionFacts SubtractionFacts.

Local Open Scope R_scope.

Lemma sub_rounds (a b : float) :
  real a = true -> real b = true ->
  Rabs (value a - value b) <= pow2 1022 ->
  real (a - b)%float = true /\ rounds (value (a - b)%float) (value a - value b).
Proof.
  unfold real, value, rounds. rewrite sub_spec. intros Ha Hb.
  apply SFsub_error; auto using Prim2SF_valid.
Qed.

Lemma mul_rounds (a b : float) :
  real a = true -> real b = true ->
  Rabs (value a * value b) <= pow2 1022 ->
  real (a * b)%float = true /\ rounds (value (a * b)%float) (value a * value b).
Proof.
  unfold real, value, rounds. rewrite mul_spec. intros Ha Hb.
  apply SFmul_error; auto using Prim2SF_valid.
Qed.

Lemma div_rounds (a b : float) :
  real a = true -> finite b ->
  Rabs (value a / value b) <= pow2 1022 ->
  real (a / b)%float = true /\ rounds (value (a / b)%float) (value a / value b).
Proof.
  unfold real, value, rounds. rewrite div_spec. intros Ha (s & m & e & Hb).
  rewrite Hb. apply SFdiv_error; auto using Prim2SF_valid.
Qed.

Lemma finite_real (a : float) : finite a -> real a = true.
Proof. intros (s & m & e & H). unfold real. now rewrite H. Qed.

(** *** The bounds of the scale, as real numbers *)

Lemma pow2_neg (p : positive) : pow2 (Z.neg p) = / IZR (2 ^ Z.pos p).
Proof.
  assert (H : pow2 (Z.neg p) * pow2 (Z.pos p) = 1).
  { rewrite <- pow2_add. replace (Z.neg p + Z.pos p)%Z with 0%Z by lia. reflexivity. }
  rewrite (pow2_IZR (Z.pos p)) in H by lia.
  assert (Hp : 0 < IZR (2 ^ Z.pos p)).
  { apply IZR_lt. apply Z.pow_pos_nonneg; lia. }
  apply Rmult_eq_reg_r with (IZR (2 ^ Z.pos p)); [|lra]. rewrite H. field. lra.
Qed.

Lemma compare_cont_le (a b : positive) :
  Pos.compare_cont Eq a b <> Gt -> (Z.pos a <= Z.pos b)%Z.
Proof. intros H. exact H. Qed.

Lemma inRange_value (s : float) :
  inRange s = true -> finite s /\ / 10 <= value s <= 10.
Proof.
  intros H. pose proof (inRange_finite s H) as Hf. split; [exact Hf|].
  unfold inRange in H. apply andb_prop in H. destruct H as [Hlo Hhi].
  rewrite leb_spec in Hlo, Hhi. unfold SFleb in Hlo, Hhi.
  change (Prim2SF lit_0_1) with (S754_finite false 7205759403792794 (-56)) in Hlo.
  change (Prim2SF lit_10) with (S754_finite false 5629499534213120 (-49)) in Hhi.
  unfold value. pose proof (Prim2SF_valid s) as Hv.
  destruct Hf as (sg & m & e & E). rewrite E in *.
  destruct (valid_finite _ _ _ Hv) as (Dm & Ee & Nm).
  destruct sg; [discriminate|]. cbn [SFcompare] in Hlo, Hhi. cbn [SF2R].
  pose proof (pow2_pos e) as Pe.
  assert (Hm0 : 0 < IZR (Z.pos m)) by (apply IZR_lt; lia).
  split.
  - destruct (-56 ?= e)%Z eqn:Ce; [ | |discriminate].
    + apply Z.compare_eq in Ce. subst e.
      assert (Hm : (7205759403792794 <= Z.pos m)%Z).
      { apply compare_cont_le. intros Cm. rewrite Cm in Hlo. discriminate. }
      apply IZR_le in Hm. rewrite (pow2_neg 56).
      replace (2 ^ 56)%Z with 72057594037927936%Z by reflexivity.
      apply Rmult_le_reg_r with 72057594037927936; [lra|].
      rewrite Rmult_assoc, Rinv_l by lra. lra.
    + rewrite Z.compare_lt_iff in Ce.
      destruct Nm as [Nm | Nm]; [|lia].
      pose proof (Zdigits2_pow2 (Z.pos m) e ltac:(lia)) as Hlow.
      rewrite Nm in Hlow.
      assert (H3 : pow2 (-3) <= pow2 (53 - 1 + e)) by (apply pow2_le; lia).
      rewrite (pow2_neg 3) in H3.
      replace (2 ^ 3)%Z with 8%Z in H3 by reflexivity. lra.
  - destruct (e ?= -49)%Z eqn:Ce; [ | |discriminate].
    + apply Z.compare_eq in Ce. subst e.
      assert (Hm : (Z.pos m <= 5629499534213120)%Z).
      { apply compare_cont_le. intros Cm. rewrite Cm in Hhi. discriminate. }
      apply IZR_le in Hm. rewrite (pow2_neg 49).
      replace (2 ^ 49)%Z with 562949953421312%Z by reflexivity.
      apply Rmult_le_reg_r with 562949953421312; [lra|].
      rewrite Rmult_assoc, Rinv_l by lra. lra.
    + rewrite Z.compare_lt_iff in Ce.
      pose proof (Zdigits2_pow2_upper (Z.pos m) e ltac:(lia)) as Hup.
      assert (H3 : pow2 (Zdigits2 (Z.pos m) + e) <= pow2 3) by (apply pow2_le; lia).
      rewrite (pow2_IZR 3) in H3 by lia.
      replace (2 ^ 3)%Z with 8%Z in H3 by reflexivity. lra.
Qed.

End Binary64Facts.

(** ** Zoom to cursor *)

Module CursorAnalysis.

Import Reals Lra.
Import FloatValue ShiftFacts Binary64Facts.

Local Open Scope R_scope.

Lemma Rabs_le_inv (a b : R) : Rabs a <= b -> - b <= a <= b.
Proof. unfold Rabs. destruct (Rcase_abs a); lra. Qed.

Ltac rabs :=
  repeat match goal with
         | H : Rabs _ <= _ |- _ => apply Rabs_le_inv in H
         end;
  try apply Rabs_le; lra.

Lemma u_value : u = / 9007199254740992.
Proof.
  unfold u. rewrite (pow2_neg 53).
  replace (2 ^ 53)%Z with 9007199254740992%Z by reflexivity. reflexivity.
Qed.

Lemma eta_small : 0 < eta <= / 1152921504606846976.
Proof.
  split; [apply pow2_pos|]. unfold eta.
  eapply Rle_trans; [apply (pow2_le _ (-60)); lia|]. rewrite (pow2_neg 60).
  replace (2 ^ 60)%Z with 1152921504606846976%Z by reflexivity. lra.
Qed.

Lemma pow2_1022 : pow2 1022 = 4194304 * pow2 1000.
Proof.
  replace 1022%Z with (22 + 1000)%Z by lia. rewrite pow2_add, (pow2_IZR 22) by lia.
  replace (2 ^ 22)%Z with 4194304%Z by reflexivity. reflexivity.
Qed.

Lemma pow2_1000 : 1 <= pow2 1000.
Proof. change 1 with (pow2 0). apply pow2_le. lia. Qed.

Lemma rounds_error (f exact B : R) :
  rounds f exact -> Rabs exact <= B -> Rabs (f - exact) <= u * B + eta.
Proof.
  unfold rounds. intros H HB. pose proof eta_small as [He _].
  assert (Hu : 0 < u) by apply pow2_pos.
  pose proof (Rabs_pos exact) as H0.
  assert (H1 : u * Rabs exact <= u * B) by (apply Rmult_le_compat_l; lra).
  assert (H2 : 0 <= u * B) by (apply Rmult_le_pos; lra).
  eapply Rle_trans; [exact H|]. apply Rmax_lub; lra.
Qed.

Lemma abs_scaled (x k B : R) :
  0 <= k <= 10 -> Rabs x <= B -> Rabs (x * k) <= 10 * B.
Proof.
  intros Hk HB. pose proof (Rabs_pos x) as H0.
  rewrite Rabs_mult, (Rabs_pos_eq k) by lra.
  assert (H1 : Rabs x * k <= B * k) by (apply Rmult_le_compat_r; lra).
  assert (H2 : B * k <= B * 10) by (apply Rmult_le_compat_l; lra).
  lra.
Qed.

Lemma rounds_scaled (f exact k B : R) :
  0 <= k <= 10 -> rounds f exact -> Rabs (exact * k) <= B ->
  Rabs (f * k - exact * k) <= u * B + 10 * eta.
Proof.
  unfold rounds. intros Hk H HB. pose proof eta_small as [He _].
  assert (Hu : 0 < u) by apply pow2_pos.
  pose proof (Rabs_pos exact) as H0.
  assert (Hm : Rabs (f - exact) <= u * Rabs exact + eta).
  { eapply Rle_trans; [exact H|].
    assert (0 <= u * Rabs exact) by (apply Rmult_le_pos; lra).
    apply Rmax_lub; lra. }
  replace (f * k - exact * k) with ((f - exact) * k) by ring.
  rewrite Rabs_mult, (Rabs_pos_eq k) by lra.
  rewrite Rabs_mult, (Rabs_pos_eq k) in HB by lra.
  assert (H1 : Rabs (f - exact) * k <= (u * Rabs exact + eta) * k)
    by (apply Rmult_le_compat_r; lra).
  assert (H2 : u * (Rabs exact * k) <= u * B) by (apply Rmult_le_compat_l; lra).
  assert (H3 : eta * k <= eta * 10) by (apply Rmult_le_compat_l; lra).
  lra.
Qed.

Lemma inv_range (s : R) : / 10 <= s <= 10 -> / 10 <= / s <= 10 /\ s * / s = 1.
Proof.
  intros [Hlo Hhi]. assert (Hs : 0 < s) by lra.
  assert (E : s * / s = 1) by (field; lra).
  pose proof (Rinv_0_lt_compat s Hs) as Hi.
  split; [|exact E]. split.
  - apply Rinv_le_contravar; lra.
  - replace 10 with (/ / 10) by field. apply Rinv_le_contravar; lra.
Qed.

(** The chain of seven roundings of the two model points, over the reals:
    [D], [XB] are the difference and the quotient before the step; [R],
    [T], [O'] give the new offset; [D'], [XA] are the difference and the
    quotient after it. *)
Lemma cursor_chain (X O S C D XB R T O' D' XA a b : R) :
  / 10 <= S <= 10 -> / 10 <= C <= 10 ->
  Rabs X <= a -> Rabs O <= b -> a <= pow2 1000 -> b <= pow2 1000 ->
  let V1 := Rabs (X - O) <= pow2 1022 in
  let V2 := Rabs (D / S) <= pow2 1022 in
  let V3 := Rabs (C / S) <= pow2 1022 in
  let V4 := Rabs (D * R) <= pow2 1022 in
  let V5 := Rabs (X - T) <= pow2 1022 in
  let V6 := Rabs (X - O') <= pow2 1022 in
  let V7 := Rabs (D' / C) <= pow2 1022 in
  (V1 -> rounds D (X - O)) ->
  (V1 -> V2 -> rounds XB (D / S)) ->
  (V3 -> rounds R (C / S)) ->
  (V1 -> V3 -> V4 -> rounds T (D * R)) ->
  (V1 -> V3 -> V4 -> V5 -> rounds O' (X - T)) ->
  (V1 -> V3 -> V4 -> V5 -> V6 -> rounds D' (X - O')) ->
  (V1 -> V3 -> V4 -> V5 -> V6 -> V7 -> rounds XA (D' / C)) ->
  (V1 /\ V2 /\ V3 /\ V4 /\ V5 /\ V6 /\ V7) /\
  Rabs (XA - XB) <= 128 * u * (a + b) + 64 * eta.
Proof.
  cbv zeta. intros HS HC Ha Hb HaP HbP H1 H2 H3 H4 H5 H6 H7.
  unfold Rdiv in *.
  destruct (inv_range S HS) as [His Es]. destruct (inv_range C HC) as [Hic Ec].
  set (iS := / S) in *. set (ic := / C) in *.
  pose proof eta_small as [He0 He1]. pose proof pow2_1000 as HP.
  rewrite pow2_1022 in *. set (P := pow2 1000) in *.
  pose proof u_value as Hu.
  pose proof (Rabs_pos X) as HX0. pose proof (Rabs_pos O) as HO0.
  set (M := a + b).
  (* the difference before *)
  assert (B1 : Rabs (X - O) <= M) by (subst M; rabs).
  assert (V1 : Rabs (X - O) <= 4194304 * P) by (subst M; lra).
  pose proof (rounds_error _ _ _ (H1 V1) B1) as E1.
  assert (BD : Rabs D <= M + u * M + eta) by rabs.
  (* the quotient before *)
  set (Q := 10 * (M + u * M + eta)).
  assert (B2 : Rabs (D * iS) <= Q) by (apply abs_scaled; [lra | exact BD]).
  assert (V2 : Rabs (D * iS) <= 4194304 * P)
    by (eapply Rle_trans; [exact B2|]; subst Q M; rewrite Hu; lra).
  pose proof (rounds_error _ _ _ (H2 V1 V2) B2) as E2.
  (* the ratio of the scales *)
  assert (Pcs : / 100 <= C * iS <= 100).
  { split.
    - replace (/ 100) with (/ 10 * / 10) by field.
      apply Rmult_le_compat; lra.
    - replace 100 with (10 * 10) by ring. apply Rmult_le_compat; lra. }
  assert (V3 : Rabs (C * iS) <= 4194304 * P) by (rewrite Rabs_pos_eq; lra).
  assert (E3 : Rabs (R - C * iS) <= u * (C * iS)).
  { pose proof (H3 V3) as H. unfold rounds in H.
    rewrite (Rabs_pos_eq (C * iS)) in H by lra.
    eapply Rle_trans; [exact H|]. apply Rmax_lub; [lra|]. rewrite Hu. lra. }
  assert (BR : Rabs R <= 101).
  { assert (u * (C * iS) <= 1) by (rewrite Hu; lra). rabs. }
  (* the product *)
  assert (B4' : Rabs (D * R) <= (M + u * M + eta) * 101).
  { rewrite Rabs_mult. pose proof (Rabs_pos D). pose proof (Rabs_pos R).
    apply Rmult_le_compat; lra. }
  assert (V4 : Rabs (D * R) <= 4194304 * P)
    by (eapply Rle_trans; [exact B4'|]; subst M; rewrite Hu; lra).
  pose proof (H4 V1 V3 V4) as R4.
  assert (G1 : Rabs (D * R * ic - D * iS) <= u * Q).
  { replace (D * R * ic - D * iS) with (D * ic * (R - C * iS))
      by (transitivity (D * R * ic - D * iS * (C * ic)); [ring | rewrite Ec; ring]).
    rewrite Rabs_mult.
    assert (K1 : Rabs (D * ic) * Rabs (R - C * iS) <= Rabs (D * ic) * (u * (C * iS)))
      by (apply Rmult_le_compat_l; [apply Rabs_pos | exact E3]).
    assert (K2 : Rabs (D * ic) * (C * iS) = Rabs (D * iS)).
    { rewrite !Rabs_mult, (Rabs_pos_eq ic), (Rabs_pos_eq iS) by lra.
      transitivity (Rabs D * iS * (C * ic)); [ring | rewrite Ec; ring]. }
    assert (K3 : u * Rabs (D * iS) <= u * Q)
      by (apply Rmult_le_compat_l; [rewrite Hu; lra | exact B2]).
    replace (Rabs (D * ic) * (u * (C * iS)))
      with (u * (Rabs (D * ic) * (C * iS))) in K1 by ring.
    rewrite K2 in K1. lra. }
  assert (B4 : Rabs (D * R * ic) <= Q + u * Q) by rabs.
  pose proof (rounds_scaled _ _ ic _ ltac:(lra) R4 B4) as G2.
  set (BT := Q + (u * Q + (u * (Q + u * Q) + 10 * eta))).
  assert (BTh : Rabs (T * ic) <= BT) by (subst BT; rabs).
  assert (BTu : Rabs T <= 10 * BT).
  { replace T with (T * ic * C)
      by (transitivity (T * (C * ic)); [ring | rewrite Ec; ring]).
    apply abs_scaled; [lra | exact BTh]. }
  (* the new offset *)
  assert (B5u : Rabs (X - T) <= a + 10 * BT) by rabs.
  assert (V5 : Rabs (X - T) <= 4194304 * P)
    by (eapply Rle_trans; [exact B5u|]; subst BT Q M; rewrite Hu; lra).
  pose proof (H5 V1 V3 V4 V5) as R5.
  assert (BXh : Rabs (X * ic) <= 10 * a) by (apply abs_scaled; [lra | exact Ha]).
  set (B5 := 10 * a + BT).
  assert (B5h : Rabs ((X - T) * ic) <= B5)
    by (replace ((X - T) * ic) with (X * ic - T * ic) by ring; subst B5; rabs).
  pose proof (rounds_scaled _ _ ic _ ltac:(lra) R5 B5h) as G5.
  pose proof (rounds_error _ _ _ R5 B5u) as E5.
  (* the difference after *)
  assert (B6u : Rabs (X - O') <= 10 * BT + (u * (a + 10 * BT) + eta)) by rabs.
  assert (V6 : Rabs (X - O') <= 4194304 * P)
    by (eapply Rle_trans; [exact B6u|]; subst BT Q M; rewrite Hu; lra).
  pose proof (H6 V1 V3 V4 V5 V6) as R6.
  set (B6 := BT + (u * B5 + 10 * eta)).
  assert (B6h : Rabs ((X - O') * ic) <= B6).
  { replace ((X - O') * ic) with (T * ic - (O' * ic - (X - T) * ic)) by ring.
    subst B6. rabs. }
  pose proof (rounds_scaled _ _ ic _ ltac:(lra) R6 B6h) as G6.
  (* the quotient after *)
  set (B7 := BT + (u * B6 + 10 * eta + (u * B5 + 10 * eta))).
  assert (G7 : Rabs (D' * ic - T * ic) <= u * B6 + 10 * eta + (u * B5 + 10 * eta)).
  { replace (D' * ic - T * ic)
      with ((D' * ic - (X - O') * ic) - (O' * ic - (X - T) * ic)) by ring.
    rabs. }
  assert (B7h : Rabs (D' * ic) <= B7) by (subst B7; rabs).
  assert (V7 : Rabs (D' * ic) <= 4194304 * P)
    by (eapply Rle_trans; [exact B7h|]; subst B7 B6 B5 BT Q M; rewrite Hu; lra).
  pose proof (rounds_error _ _ _ (H7 V1 V3 V4 V5 V6 V7) B7h) as E7.
  split; [repeat split; assumption|].
  replace (XA - XB)
    with ((XA - D' * ic) + (D' * ic - T * ic) + (T * ic - D * R * ic)
          + (D * R * ic - D * iS) - (XB - D * iS)) by ring.
  assert (Hab : 0 <= a /\ 0 <= b) by lra.
  apply Rabs_le_inv in E7, G7, G2, G1, E2.
  apply Rabs_le. subst B7 B6 B5 BT Q M. rewrite Hu in *. lra.
Qed.

End CursorAnalysis.

Module CursorFacts.

Import Reals Lra.
Import Float64 Float64Facts ZoomFacts.
Import FloatValue ShiftFacts Binary64Facts CursorAnalysis.

Local Open Scope R_scope.

Lemma tolerance_pow2 (m : R) :
  128 * u * m + 64 * eta = pow2 (-46) * m + pow2 (-1069).
Proof.
  assert (E1 : pow2 (-46) = 128 * u).
  { unfold u. replace (-46)%Z with (7 + -53)%Z by lia.
    rewrite pow2_add, (pow2_IZR 7) by lia.
    replace (2 ^ 7)%Z with 128%Z by reflexivity. reflexivity. }
  assert (E2 : pow2 (-1069) = 64 * eta).
  { unfold eta. replace (-1069)%Z with (6 + -1075)%Z by lia.
    rewrite pow2_add, (pow2_IZR 6) by lia.
    replace (2 ^ 6)%Z with 64%Z by reflexivity. reflexivity. }
  rewrite E1, E2. ring.
Qed.

(** One coordinate of the model point under the cursor, before and after a
    step from scale [s] to scale [c] about the device coordinate [X], the
    offset being [O]. *)
Lemma refocus_coordinate (s c X O : float) :
  inRange s = true -> inRange c = true ->
  real X = true -> real O = true ->
  Rabs (value X) <= pow2 1000 -> Rabs (value O) <= pow2 1000 ->
  let before := ((X - O) / s)%float in
  let after := ((X - (X - (X - O) * (c / s))) / c)%float in
  real before = true /\ real after = true /\
  Rabs (value after - value before)
  <= pow2 (-46) * (Rabs (value X) + Rabs (value O)) + pow2 (-1069).
Proof.
  intros Hs Hc RX RO BX BO before after.
  destruct (inRange_value s Hs) as [Fs Vs]. destruct (inRange_value c Hc) as [Fc Vc].
  set (d := (X - O)%float) in *. set (r := (c / s)%float) in *.
  set (t := (d * r)%float) in *. set (o' := (X - t)%float) in *.
  set (d' := (X - o')%float) in *.
  set (V1 := Rabs (value X - value O) <= pow2 1022).
  set (V2 := Rabs (value d / value s) <= pow2 1022).
  set (V3 := Rabs (value c / value s) <= pow2 1022).
  set (V4 := Rabs (value d * value r) <= pow2 1022).
  set (V5 := Rabs (value X - value t) <= pow2 1022).
  set (V6 := Rabs (value X - value o') <= pow2 1022).
  set (V7 := Rabs (value d' / value c) <= pow2 1022).
  assert (F1 : V1 -> real d = true /\ rounds (value d) (value X - value O))
    by (intros v1; now apply sub_rounds).
  assert (F2 : V1 -> V2 ->
               real before = true /\ rounds (value before) (value d / value s)).
  { intros v1 v2. destruct (F1 v1) as [Rd _]. now apply div_rounds. }
  assert (F3 : V3 -> real r = true /\ rounds (value r) (value c / value s)).
  { intros v3. apply div_rounds; auto. now apply finite_real. }
  assert (F4 : V1 -> V3 -> V4 ->
               real t = true /\ rounds (value t) (value d * value r)).
  { intros v1 v3 v4. destruct (F1 v1) as [Rd _]. destruct (F3 v3) as [Rr _].
    now apply mul_rounds. }
  assert (F5 : V1 -> V3 -> V4 -> V5 ->
               real o' = true /\ rounds (value o') (value X - value t)).
  { intros v1 v3 v4 v5. destruct (F4 v1 v3 v4) as [Rt _]. now apply sub_rounds. }
  assert (F6 : V1 -> V3 -> V4 -> V5 -> V6 ->
               real d' = true /\ rounds (value d') (value X - value o')).
  { intros v1 v3 v4 v5 v6. destruct (F5 v1 v3 v4 v5) as [Ro _].
    now apply sub_rounds. }
  assert (F7 : V1 -> V3 -> V4 -> V5 -> V6 -> V7 ->
               real after = true /\ rounds (value after) (value d' / value c)).
  { intros v1 v3 v4 v5 v6 v7. destruct (F6 v1 v3 v4 v5 v6) as [Rd' _].
    now apply div_rounds. }
  destruct (cursor_chain (value X) (value O) (value s) (value c) (value d)
              (value before) (value r) (value t) (value o') (value d')
              (value after) (Rabs (value X)) (Rabs (value O))
              Vs Vc (Rle_refl _) (Rle_refl _) BX BO
              (fun v1 => proj2 (F1 v1))
              (fun v1 v2 => proj2 (F2 v1 v2))
              (fun v3 => proj2 (F3 v3))
              (fun v1 v3 v4 => proj2 (F4 v1 v3 v4))
              (fun v1 v3 v4 v5 => proj2 (F5 v1 v3 v4 v5))
              (fun v1 v3 v4 v5 v6 => proj2 (F6 v1 v3 v4 v5 v6))
              (fun v1 v3 v4 v5 v6 v7 => proj2 (F7 v1 v3 v4 v5 v6 v7)))
    as [(v1 & v2 & v3 & v4 & v5 & v6 & v7) Hd].
  split; [exact (proj1 (F2 v1 v2))|].
  split; [exact (proj1 (F7 v1 v3 v4 v5 v6 v7))|].
  rewrite <- tolerance_pow2. exact Hd.
Qed.

Local Open Scope float_scope.

(** C3: with the scale within [0.1, 10], the model point under the cursor
    is the same before and after a wheel step, inwards or outwards, clamped
    or not, within floating-point tolerance: for a cursor coordinate [p] and
    an offset coordinate [o] that are numbers of magnitude at most [2^1000],
    both model coordinates are numbers, and they differ by at most
    [2^-46 (|p| + |o|) + 2^-1069]. *)
Theorem zoom_to_cursor_tolerance (st : @State float) (e : @WheelEvent float) :
  inRange (scale (viewTransform st)) = true ->
  let px := offsetX (nativeEvent e) in
  let py := offsetY (nativeEvent e) in
  let before := getTransformedPoint st px py in
  let after := getTransformedPoint (handleWheel e st) px py in
  let tolerance (p o : float) :=
    (pow2 (-46) * (Rabs (value p) + Rabs (value o)) + pow2 (-1069))%R in
  (real px = true -> real (x (offset (viewTransform st))) = true ->
   (Rabs (value px) <= pow2 1000)%R ->
   (Rabs (value (x (offset (viewTransform st)))) <= pow2 1000)%R ->
   real (x before) = true /\ real (x after) = true /\
   (Rabs (value (x after) - value (x before))
    <= tolerance px (x (offset (viewTransform st))))%R) /\
  (real py = true -> real (y (offset (viewTransform st))) = true ->
   (Rabs (value py) <= pow2 1000)%R ->
   (Rabs (value (y (offset (viewTransform st)))) <= pow2 1000)%R ->
   real (y before) = true /\ real (y after) = true /\
   (Rabs (value (y after) - value (y before))
    <= tolerance py (y (offset (viewTransform st))))%R).
Proof.
  intros Hs px py before after tolerance.
  pose proof (handleWheel_inRange st e Hs) as Hc.
  subst before after tolerance px py.
  unfold getTransformedPoint, handleWheel in *.
  cbn [viewTransform setViewTransform scale offset x y] in *.
  split; intros Rp Ro Bp Bo.
  - exact (refocus_coordinate _ _ _ _ Hs Hc Rp Ro Bp Bo).
  - exact (refocus_coordinate _ _ _ _ Hs Hc Rp Ro Bp Bo).
Qed.

Lemma zoom_to_cursor_tolerance_witness :
  let st := initial (num := float) createCanvas in
  let e := mkWheelEvent (mkMouseEvent 15 50) (-1) in
  let before := x (getTransformedPoint st 15 50) in
  let after := x (getTransformedPoint (handleWheel e st) 15 50) in
  (Rabs (value after - value before)
   <= pow2 (-46) * (Rabs (value 15%float) + Rabs (value 0%float)) + pow2 (-1069))%R.
Proof.
  pose proof (zoom_to_cursor_tolerance
                (initial createCanvas)
                (mkWheelEvent (mkMouseEvent 15 50) (-1)) eq_refl) as H.
  cbv zeta in H. destruct H as [Hx _]. cbv zeta.
  apply Hx.
  - reflexivity.
  - reflexivity.
  - change (Rabs (IZR 8444249301319680 * pow2 (Z.neg 49)) <= pow2 1000)%R.
    rewrite (pow2_neg 49).
    replace (2 ^ 49)%Z with 562949953421312%Z by reflexivity.
    assert (H16 : (pow2 4 <= pow2 1000)%R) by (apply pow2_le; lia).
    rewrite (pow2_IZR 4) in H16 by lia.
    replace (2 ^ 4)%Z with 16%Z in H16 by reflexivity.
    rewrite Rabs_pos_eq by lra. lra.
  - change (Rabs 0 <= pow2 1000)%R. rewrite Rabs_R0.
    pose proof pow2_1000. lra.
Defined.

(** The tolerance is needed: from the identity transform, one wheel notch
    inwards at the cursor (15, 50) moves the model point under the cursor
    from 15 to the double just below it. *)
Lemma wheel_step_rounds :
  let st := initial (num := float) createCanvas in
  let e := mkWheelEvent (mkMouseEvent 15 50) (-1) in
  getTransformedPoint st 15 50 = mkPoint 15 50 /\
  getTransformedPoint (handleWheel e st) 15 50 = mkPoint 0x1.dffffffffffffp+3 50 /\
  getTransformedPoint (handleWheel e st) 15 50 <> getTransformedPoint st 15 50.
Proof.
  cbv zeta. split; [reflexivity|]. split; [reflexivity|].
  intros H. apply (f_equal (fun p => Prim2SF (x p))) in H.
  vm_compute in H. discriminate.
Qed.

End CursorFacts.

(** ** The component at work *)

Section RunFacts.

Context {num : Type} {N : Number num}.

Lemma reachable_run canvas (evs : list (@Event num)) : forall st,
  reachable canvas st -> Forall admissible evs -> reachable canvas (run evs st).
Proof.
  induction evs as [|ev evs IH]; intros st Hst Hadm; cbn [run]; [exact Hst|].
  apply IH; [|now apply Forall_inv_tail in Hadm].
  apply reachable_step; [exact Hst | now apply Forall_inv in Hadm].
Qed.

End RunFacts.

Module SessionFacts.

Import Float64 Float64Facts BoundTheorems CursorFacts ZoomFacts Session.

Local Open Scope float_scope.

Lemma afterStroke_reachable : reachable createCanvas afterStroke.
Proof.
  apply reachable_run; [constructor|].
  repeat constructor.
Qed.

Lemma afterStroke_history :
  history afterStroke = [mkImageData 2 1 loaded; mkImageData 2 1 painted] /\
  historyIndex afterStroke = 1%Z.
Proof. split; vm_compute; reflexivity. Qed.

Lemma saveState_discards_redo_witness :
  history (saveState (step Undo afterStroke))
    = [mkImageData 2 1 loaded; mkImageData 2 1 loaded].
Proof.
  destruct (saveState_discards_redo createCanvas afterStroke 1 afterStroke_reachable)
    as (buffer & _ & _ & _ & Hsave & _).
  - vm_compute. discriminate.
  - vm_compute. reflexivity.
Defined.

Lemma undo_is_linear_witness :
  historyIndex (Nat.iter 3 handleUndo afterStroke) = 0%Z /\
  handleResetEdits (initial (num := float) createCanvas) = initial createCanvas /\
  handleUndo (initial (num := float) createCanvas) = initial createCanvas.
Proof.
  split; [|split].
  - destruct (undo_is_linear afterStroke) as (_ & _ & Hk & _).
    destruct (Hk 3%nat) as [Hidx _].
    rewrite Hidx; [vm_compute; reflexivity | vm_compute; discriminate].
  - destruct (undo_is_linear (initial (num := float) createCanvas))
      as (_ & _ & _ & _ & Hreset).
    apply Hreset. reflexivity.
  - destruct (undo_is_linear (initial (num := float) createCanvas))
      as (_ & Hundo & _).
    apply Hundo. cbn. lia.
Defined.

(** C2, on the code: a second image of the size of the first replaces the
    two-entry history by a single entry and puts the index back to 0,
    although the canvas is not resized; the comment in [image.onload] says
    the history is reset only when the size changes. *)
Theorem same_size_load_resets_history :
  let image := mkImage 2 1 in
  let st := step (SourceChanged (Some (image, painted))) afterStroke in
  reachable createCanvas afterStroke /\
  option_map canvas_width (canvasRef afterStroke) = Some (image_width image) /\
  option_map canvas_height (canvasRef afterStroke) = Some (image_height image) /\
  history afterStroke = [mkImageData 2 1 loaded; mkImageData 2 1 painted] /\
  historyIndex afterStroke = 1%Z /\
  history st = [mkImageData 2 1 painted] /\
  historyIndex st = 0%Z.
Proof.
  cbv zeta. split; [exact afterStroke_reachable|].
  split; [vm_compute; reflexivity|]. split; [vm_compute; reflexivity|].
  split; [vm_compute; reflexivity|]. split; [vm_compute; reflexivity|].
  split; vm_compute; reflexivity.
Qed.

Lemma handleDownload_frame_witness :
  isDownloadMenuOpen
    (fst (handleDownload (mkDesignOptions "Wood" "2D Flat") dxf (Some Context2D)
                         (step ToggleDownloadMenu afterStroke))) = false.
Proof.
  destruct (handleDownload_frame (mkDesignOptions "Wood" "2D Flat") dxf (Some Context2D)
                                 (step ToggleDownloadMenu afterStroke))
    as (_ & Hclose & _).
  apply (Hclose (mkCanvas 2 1 painted true)).
  - vm_compute. reflexivity.
  - discriminate.
  - intros _. split; vm_compute; apply le_n || (apply le_S; apply le_n).
Defined.

(** C9, on the guard: when the temporary canvas yields no 2D context the
    download returns early and the open menu stays open. *)
Lemma handleDownload_keeps_menu_open :
  let st := step ToggleDownloadMenu afterStroke in
  reachable createCanvas st /\
  isDownloadMenuOpen st = true /\
  canvasRef st <> None /\
  isDownloadMenuOpen
    (fst (handleDownload (mkDesignOptions "Wood" "2D Flat") png None st)) = true.
Proof.
  cbv zeta.
  split; [exact (reachable_step _ _ ToggleDownloadMenu afterStroke_reachable I)|].
  split; [vm_compute; reflexivity|].
  split; [vm_compute; discriminate | vm_compute; reflexivity].
Qed.

(** *** Zooming *)

Lemma zoom_scale_bounded_witness :
  Forall (fun st' =>
            (0x1.999999999999ap-4 <=? scale (viewTransform st')) = true /\
            (scale (viewTransform st') <=? 10) = true)
         (zoomTrace (repeat (WheelZoom (wheelOut 100 50)) 30
                     ++ repeat (ButtonZoom zoom_in 800 600) 40
                     ++ [ButtonZoom zoom_reset 800 600; WheelZoom (wheelIn 3 4)])
                    (initial createCanvas)).
Proof.
  apply (zoom_scale_bounded (initial createCanvas)). reflexivity.
Defined.

Lemma zoomedIn_reachable : reachable createCanvas zoomedIn.
Proof.
  apply reachable_run; [constructor|].
  apply Forall_forall. intros ev Hin. apply repeat_spec in Hin. subst ev. exact I.
Qed.

Lemma zoomedIn_transform :
  viewTransform zoomedIn
    = mkViewTransform 10 (mkPoint (-0x1.c200000000002p+9) (-0x1.c200000000002p+8)).
Proof. vm_compute. reflexivity. Qed.

Lemma zoom_at_bound_witness :
  viewTransform (handleWheel (wheelIn 1148 80) zoomedIn)
    = mkViewTransform 10 (mkPoint (-900) (-0x1.c200000000002p+8)).
Proof.
  destruct (zoom_at_bound zoomedIn (wheelIn 1148 80) zoom_in 800 600) as [Hw _].
  - vm_compute. reflexivity.
  - destruct Hw as [E _]; [vm_compute; reflexivity|].
    rewrite E. vm_compute. reflexivity.
Defined.

(** C10 in binary64: at scale 10 a further wheel notch inwards at the cursor
    (1148, 80) leaves the scale at 10 and moves the horizontal offset from
    -900.0000000000002 to -900. *)
Lemma zoom_at_bound_moves_offset :
  let st' := handleWheel (wheelIn 1148 80) zoomedIn in
  reachable createCanvas zoomedIn /\
  scale (viewTransform zoomedIn) = 10 /\
  scale (viewTransform st') = scale (viewTransform zoomedIn) /\
  x (offset (viewTransform zoomedIn)) = -0x1.c200000000002p+9 /\
  x (offset (viewTransform st')) = -900 /\
  viewTransform st' <> viewTransform zoomedIn.
Proof.
  cbv zeta. split; [exact zoomedIn_reachable|].
  split; [vm_compute; reflexivity|]. split; [vm_compute; reflexivity|].
  split; [vm_compute; reflexivity|]. split; [vm_compute; reflexivity|].
  intros H. apply (f_equal (fun vt => Prim2SF (x (offset vt)))) in H.
  vm_compute in H. discriminate.
Qed.

End SessionFacts.

(** ** The document read back *)

Module SegmentFacts.

Import Dxf Segments DxfFacts.

Local Open Scope string_scope.

Lemma generateDxf_segments imgData :
  generateDxf imgData =
  dxfHeader ++ joined (map segmentEntity (segments imgData)) ++ dxfFooter.
Proof.
  rewrite generateDxf_entities. do 3 f_equal.
  unfold entities, segments, rowEntities, rowSegments.
  induction (seq 0 (height imgData)) as [|y ys IH]; [reflexivity|].
  cbn [flat_map]. rewrite !map_app, IH. f_equal.
  rewrite map_map. apply map_ext. intros [a b]. reflexivity.
Qed.

Lemma In_segments imgData s :
  In s (segments imgData) <->
  exists y a b,
    (y < height imgData)%nat /\
    MaximalRun (isBlack imgData y) (width imgData) a b /\
    s = mkSegment (Z.of_nat a) (Z.of_nat (height imgData) - 1 - Z.of_nat y)
                  (Z.of_nat b).
Proof.
  unfold segments, rowSegments. rewrite in_flat_map. split.
  - intros (y & Hy & Hin). apply in_seq in Hy.
    apply in_map_iff in Hin. destruct Hin as ([a b] & <- & Hr).
    apply runs_spec in Hr. exists y, a, b. repeat split; [lia | apply Hr..].
  - intros (y & a & b & Hy & Hr & ->). exists y. split; [apply in_seq; lia|].
    apply in_map_iff. exists (a, b). split; [reflexivity | now apply runs_spec].
Qed.

(** The run through an ink pixel: leftwards to the first column or to the
    nearest pixel without ink. *)
Lemma run_left (ink : nat -> bool) x :
  ink x = true ->
  exists s, (s <= x)%nat /\ (forall i, (s <= i <= x)%nat -> ink i = true) /\
            (s = 0%nat \/ ink (s - 1)%nat = false).
Proof.
  induction x as [|x IH]; intros Hx.
  - exists 0%nat. repeat split; [lia | | now left].
    intros i Hi. now replace i with 0%nat by lia.
  - destruct (ink x) eqn:Hp.
    + destruct (IH eq_refl) as (s & Hs & Hink & Hl).
      exists s. repeat split; [lia | | exact Hl].
      intros i Hi. destruct (Nat.eq_dec i (S x)) as [->|]; [exact Hx | apply Hink; lia].
    + exists (S x). repeat split; [lia | | right; now rewrite Nat.sub_succ, Nat.sub_0_r].
      intros i Hi. now replace i with (S x) by lia.
Qed.

(** Rightwards, to the last column or to the nearest pixel without ink. *)
Lemma run_right (ink : nat -> bool) w d : forall x,
  (x + d + 1 = w)%nat -> ink x = true ->
  exists e, (x <= e < w)%nat /\ (forall i, (x <= i <= e)%nat -> ink i = true) /\
            (S e = w \/ ink (S e) = false).
Proof.
  induction d as [|d IH]; intros x Hw Hx.
  - exists x. repeat split; [lia.. | | left; lia].
    intros i Hi. now replace i with x by lia.
  - destruct (ink (S x)) eqn:Hn.
    + destruct (IH (S x)) as (e & He & Hink & Hr); [lia | exact Hn |].
      exists e. repeat split; [lia.. | | exact Hr].
      intros i Hi. destruct (Nat.eq_dec i x) as [->|]; [exact Hx | apply Hink; lia].
    + exists x. repeat split; [lia.. | | now right].
      intros i Hi. now replace i with x by lia.
Qed.

Lemma run_through (ink : nat -> bool) w x :
  (x < w)%nat -> ink x = true ->
  exists s e, MaximalRun ink w s e /\ (s <= x <= e)%nat.
Proof.
  intros Hw Hx.
  destruct (run_left ink x Hx) as (s & Hs & Hl & Hls).
  destruct (run_right ink w (w - x - 1) x) as (e & He & Hr & Hre); [lia | exact Hx |].
  exists s, e. split; [|lia].
  repeat split; [lia.. | | exact Hls | exact Hre].
  intros i Hi. destruct (Nat.le_gt_cases i x); [apply Hl | apply Hr]; lia.
Qed.


(** The segments of the runs cover the ink and nothing else. *)
Lemma covered_segments (imgData : ImageData) (y x : nat) :
  (y < height imgData)%nat -> (x < width imgData)%nat ->
  covered (segments imgData) (height imgData) y x = isBlack imgData y x.
Proof.
  intros Hy Hx.
  destruct (isBlack imgData y x) eqn:Hb.
  - apply existsb_exists.
    destruct (run_through (isBlack imgData y) (width imgData) x Hx Hb)
      as (a & b & Hrun & Hab).
    exists (mkSegment (Z.of_nat a) (Z.of_nat (height imgData) - 1 - Z.of_nat y)
                      (Z.of_nat b)).
    split.
    + apply In_segments. exists y, a, b. auto.
    + unfold covers. cbn [firstX lastX ordinate].
      rewrite Z.eqb_refl. cbn [andb].
      apply andb_true_iff. split; apply Z.leb_le; lia.
  - apply not_true_is_false. intros Hc.
    apply existsb_exists in Hc. destruct Hc as (s & Hin & Hc).
    apply In_segments in Hin. destruct Hin as (y' & a & b & Hy' & Hrun & ->).
    unfold covers in Hc. cbn [firstX lastX ordinate] in Hc.
    apply andb_true_iff in Hc. destruct Hc as [Hc Hb2].
    apply andb_true_iff in Hc. destruct Hc as [Ho Ha].
    apply Z.eqb_eq in Ho. apply Z.leb_le in Ha, Hb2.
    assert (y' = y) by lia. subst y'.
    destruct Hrun as (_ & Hink & _).
    rewrite Hink in Hb by lia. discriminate.
Qed.

(** *** Reading the document *)

Lemma lines_nonempty (s : string) : lines s <> [].
Proof.
  destruct s as [|c s]; cbn [lines]; [discriminate|].
  destruct (Ascii.eqb c "010"); [discriminate|].
  destruct (lines s); discriminate.
Qed.

(** A text without a line feed, followed by a line feed, is a line. *)
Lemma lines_line (a rest : string) :
  lines a = [a] -> lines (a ++ nl ++ rest) = a :: lines rest.
Proof.
  induction a as [|c a IH]; intros H; [reflexivity|].
  cbn [append lines] in *.
  destruct (Ascii.eqb c "010"); [discriminate|].
  destruct (lines a) as [|l ls] eqn:E; [now apply lines_nonempty in E|].
  injection H as -> ->. now rewrite IH.
Qed.

Lemma lines_uint (d : Decimal.uint) :
  lines (NilEmpty.string_of_uint d) = [NilEmpty.string_of_uint d].
Proof.
  induction d as [|d IH|d IH|d IH|d IH|d IH|d IH|d IH|d IH|d IH|d IH];
    cbn [NilEmpty.string_of_uint lines]; [reflexivity|..];
    rewrite IH; reflexivity.
Qed.

Lemma lines_decimal (n : Z) : lines (decimal n) = [decimal n].
Proof.
  unfold decimal, NilZero.string_of_int, NilZero.string_of_uint.
  destruct (Z.to_int n) as [d|d]; destruct d; try reflexivity;
    try apply lines_uint;
    cbn [lines]; rewrite lines_uint; reflexivity.
Qed.

Lemma readInteger_decimal (n : Z) : readInteger (decimal n) = Some n.
Proof.
  unfold readInteger, decimal. rewrite NilZero.isi.
  - cbn [option_map]. now rewrite DecimalZ.of_to.
  - destruct n; cbn; try discriminate;
      intros [= H]; now apply DecimalPos.Unsigned.to_uint_nonnil in H.
  - destruct n; cbn; try discriminate;
      intros [= H]; now apply DecimalPos.Unsigned.to_uint_nonnil in H.
Qed.

(** The twelve lines of a LINE entity. *)
Lemma lines_segmentEntity (s : Segment) (rest : string) :
  lines (segmentEntity s ++ rest) =
  (["0"; "LINE"; "8"; "0"; "10"; decimal (firstX s); "20"; decimal (ordinate s);
    "11"; decimal (lastX s); "21"; decimal (ordinate s)] ++ lines rest)%list.
Proof.
  unfold segmentEntity, lineEntity. rewrite !append_assoc.
  repeat (rewrite lines_line; [|reflexivity || apply lines_decimal]).
  reflexivity.
Qed.

Lemma readEntities_segment (s : Segment) (ls : list string) :
  readEntities
    (["0"; "LINE"; "8"; "0"; "10"; decimal (firstX s); "20"; decimal (ordinate s);
      "11"; decimal (lastX s); "21"; decimal (ordinate s)] ++ ls)%list
  = option_map (cons s) (readEntities ls).
Proof.
  cbn [app readEntities]. rewrite !String.eqb_refl. cbn [andb].
  rewrite !readInteger_decimal, Z.eqb_refl.
  destruct (readEntities ls); [|reflexivity]. now destruct s.
Qed.

Lemma readEntities_segments (segs : list Segment) :
  readEntities (lines (joined (map segmentEntity segs) ++ dxfFooter)) = Some segs.
Proof.
  induction segs as [|s segs IH]; [reflexivity|].
  cbn [map joined fold_right].
  rewrite append_assoc, lines_segmentEntity, readEntities_segment.
  fold (joined (map segmentEntity segs)). now rewrite IH.
Qed.

(** The reader gets back, from the text the exporter returns, the segments
    of the runs. *)
Lemma readDxf_generateDxf (imgData : ImageData) :
  readDxf (generateDxf imgData) = Some (segments imgData).
Proof.
  rewrite generateDxf_segments. unfold readDxf, dxfHeader.
  rewrite !append_assoc.
  repeat (rewrite lines_line; [|reflexivity]).
  rewrite !String.eqb_refl. cbn [andb]. apply readEntities_segments.
Qed.

(** X2: the document and the raster say the same: the text the exporter
    returns reads back as a list of horizontal segments, and for every pixel
    of the buffer, rasterising those segments covers the pixel exactly when
    the pixel is ink. *)
Theorem generateDxf_covers_ink (imgData : ImageData) (y x : nat) :
  (y < height imgData)%nat -> (x < width imgData)%nat ->
  exists segs,
    readDxf (generateDxf imgData) = Some segs /\
    covered segs (height imgData) y x = isBlack imgData y x.
Proof.
  intros Hy Hx. exists (segments imgData).
  split; [apply readDxf_generateDxf | now apply covered_segments].
Qed.

Lemma generateDxf_covers_ink_witness :
  exists segs,
    readDxf (generateDxf example4x1) = Some segs /\
    covered segs 1 0 3 = true /\ covered segs 1 0 2 = false.
Proof.
  destruct (generateDxf_covers_ink example4x1 0 3) as (segs & Hread & H3);
    [cbn; lia | cbn; lia |].
  destruct (generateDxf_covers_ink example4x1 0 2) as (segs' & Hread' & H2);
    [cbn; lia | cbn; lia |].
  rewrite Hread in Hread'. injection Hread' as <-.
  exists segs. split; [exact Hread|]. split; [exact H3 | exact H2].
Defined.

Lemma runsFrom_no_ink (ink : nat -> bool) n : forall x,
  (forall i, (x <= i < x + n)%nat -> ink i = false) ->
  runsFrom ink n x None = [].
Proof.
  induction n as [|n IH]; intros x H; [reflexivity|].
  cbn [runsFrom]. rewrite (H x) by lia. apply IH. intros i Hi. apply H. lia.
Qed.

Lemma flat_map_nil {A B : Type} (f : A -> list B) (l : list A) :
  (forall a, In a l -> f a = []) -> flat_map f l = [].
Proof.
  induction l as [|a l IH]; intros H; [reflexivity|].
  cbn [flat_map]. rewrite (H a) by now left.
  apply IH. intros b Hb. apply H. now right.
Qed.

Lemma append_inv_head (a b c : string) : a ++ b = a ++ c -> b = c.
Proof.
  induction a as [|ch a IH]; cbn [append]; intros H; [exact H|].
  injection H as H. now apply IH.
Qed.

Lemma length_append (a b : string) :
  String.length (a ++ b) = (String.length a + String.length b)%nat.
Proof. induction a as [|ch a IH]; cbn; [reflexivity | now rewrite IH]. Qed.

(** No entity in front of the footer means no segment at all. *)
Lemma joined_segments_empty (segs : list Segment) :
  joined (map segmentEntity segs) ++ dxfFooter = dxfFooter -> segs = [].
Proof.
  destruct segs as [|s segs]; [reflexivity|].
  intros H. apply (f_equal String.length) in H.
  cbn [map joined fold_right] in H. rewrite !length_append in H.
  unfold segmentEntity, lineEntity in H. cbn [append String.length] in H. lia.
Qed.

Lemma generateDxf_blank (imgData : ImageData) :
  (forall y x, (y < height imgData)%nat -> (x < width imgData)%nat ->
               isBlack imgData y x = false) ->
  generateDxf imgData = dxfHeader ++ dxfFooter.
Proof.
  intros H. rewrite generateDxf_entities.
  unfold entities. rewrite flat_map_nil; [reflexivity|].
  intros y Hy. apply in_seq in Hy. unfold rowEntities, runs.
  rewrite runsFrom_no_ink; [reflexivity|].
  intros x Hx. apply H; lia.
Qed.

(** X3: the drawing is empty, the header followed at once by the footer,
    exactly when no pixel of the buffer is ink; so it is for a buffer of
    zero width or of zero height. *)
Theorem generateDxf_no_ink (imgData : ImageData) :
  (forall y x, (y < height imgData)%nat -> (x < width imgData)%nat ->
               isBlack imgData y x = false) <->
  generateDxf imgData = dxfHeader ++ dxfFooter.
Proof.
  split.
  - apply generateDxf_blank.
  - rewrite generateDxf_segments. intros H.
    apply append_inv_head, joined_segments_empty in H.
    intros y x Hy Hx. apply not_true_is_false. intros Hb.
    destruct (run_through (isBlack imgData y) (width imgData) x Hx Hb)
      as (a & b & Hrun & _).
    assert (Hin : In (mkSegment (Z.of_nat a)
                                (Z.of_nat (height imgData) - 1 - Z.of_nat y)
                                (Z.of_nat b)) (segments imgData)).
    { apply In_segments. exists y, a, b. auto. }
    rewrite H in Hin. exact Hin.
Qed.

Lemma generateDxf_no_ink_witness :
  generateDxf (mkImageData 2 1 [0; 0; 0; 0; 255; 255; 255; 255]%Z)
    = dxfHeader ++ dxfFooter.
Proof.
  apply generateDxf_no_ink. cbn [width height].
  intros [|y] [|[|x]] Hy Hx; try lia; reflexivity.
Defined.

Lemma runsFrom_all_ink (ink : nat -> bool) n : forall x s,
  (forall i, (x <= i < x + n)%nat -> ink i = true) ->
  runsFrom ink n x (Some s) = [(s, (x + n - 1)%nat)].
Proof.
  induction n as [|n IH]; intros x s H.
  - cbn [runsFrom]. now rewrite Nat.add_0_r.
  - cbn [runsFrom]. rewrite (H x) by lia.
    rewrite IH by (intros i Hi; apply H; lia).
    do 2 f_equal. lia.
Qed.

Lemma flat_map_singleton {A B : Type} (f : A -> list B) (g : A -> B) (l : list A) :
  (forall a, In a l -> f a = [g a]) -> flat_map f l = map g l.
Proof.
  induction l as [|a l IH]; intros H; [reflexivity|].
  cbn [flat_map map]. rewrite (H a) by now left.
  cbn [app]. f_equal. apply IH. intros b Hb. apply H. now right.
Qed.

Lemma generateDxf_full_rows (imgData : ImageData) :
  (0 < width imgData)%nat ->
  (forall y x, (y < height imgData)%nat -> (x < width imgData)%nat ->
               isBlack imgData y x = true) ->
  generateDxf imgData =
    dxfHeader ++
    joined (map (fun y => lineEntity 0 (Z.of_nat (height imgData) - 1 - Z.of_nat y)
                                     (Z.of_nat (width imgData) - 1))
                (seq 0 (height imgData))) ++
    dxfFooter.
Proof.
  intros Hw H. rewrite generateDxf_entities. do 3 f_equal.
  unfold entities. apply flat_map_singleton.
  intros y Hy. apply in_seq in Hy. unfold rowEntities, runs.
  destruct (width imgData) as [|w] eqn:Ew; [lia|].
  cbn [runsFrom]. rewrite (H y 0%nat) by lia.
  rewrite runsFrom_all_ink by (intros x Hx; apply H; lia).
  cbn [map fst snd]. do 2 f_equal. lia.
Qed.

(** X4: a buffer of positive width in which every pixel is ink gives one
    LINE per row, from column 0 to column [width - 1], the rows from the top
    one (ordinate [height - 1]) down to ordinate 0; the text is spelled
    out. *)
Theorem generateDxf_all_ink (imgData : ImageData) :
  (0 < width imgData)%nat ->
  (forall y x, (y < height imgData)%nat -> (x < width imgData)%nat ->
               isBlack imgData y x = true) ->
  generateDxf imgData =
    "0
SECTION
2
ENTITIES
" ++
    joined (map (fun y =>
                   "0
LINE
8
0
10
0
20
" ++ decimal (Z.of_nat (height imgData) - 1 - Z.of_nat y) ++ "
11
" ++ decimal (Z.of_nat (width imgData) - 1) ++ "
21
" ++ decimal (Z.of_nat (height imgData) - 1 - Z.of_nat y) ++ "
")
                (seq 0 (height imgData))) ++
    "0
ENDSEC
0
EOF
".
Proof.
  intros Hw H. rewrite generateDxf_full_rows by assumption. reflexivity.
Qed.

Lemma generateDxf_all_ink_witness :
  generateDxf (mkImageData 2 2 [0; 0; 0; 255;  0; 0; 0; 255;
                                0; 0; 0; 255;  0; 0; 0; 255]%Z)
    = "0
SECTION
2
ENTITIES
0
LINE
8
0
10
0
20
1
11
1
21
1
0
LINE
8
0
10
0
20
0
11
1
21
0
0
ENDSEC
0
EOF
".
Proof.
  rewrite generateDxf_all_ink.
  - vm_compute. reflexivity.
  - cbn [width]. lia.
  - cbn [width height]. intros [|[|y]] [|[|x]] Hy Hx; try lia; reflexivity.
Defined.



End SegmentFacts.

(** ** The letters of the file name *)

Module CasingFacts.

Import FileName Casing FileNameFacts.

Local Open Scope string_scope.

Lemma spaces_append (a b : string) : spaces (a ++ b) = (spaces a + spaces b)%nat.
Proof. induction a as [|c a IH]; cbn; [reflexivity | rewrite IH; lia]. Qed.

Lemma capitals_append (a b : string) :
  capitals (a ++ b) = (capitals a + capitals b)%nat.
Proof. induction a as [|c a IH]; cbn; [reflexivity | rewrite IH; lia]. Qed.

Lemma string_length_append (a b : string) :
  String.length (a ++ b) = (String.length a + String.length b)%nat.
Proof. induction a as [|c a IH]; cbn; [reflexivity | now rewrite IH]. Qed.

(** [replace] takes away the first space, if there is one. *)
Lemma spaces_replace (s : string) : spaces (replace " " "-" s) = pred (spaces s).
Proof.
  induction s as [|c s IH]; [reflexivity|].
  cbn [replace spaces]. destruct (Ascii.eqb c " ") eqn:E.
  - reflexivity.
  - cbn [spaces]. rewrite E. exact IH.
Qed.

Lemma length_replace (s : string) :
  String.length (replace " " "-" s) = String.length s.
Proof.
  induction s as [|c s IH]; [reflexivity|].
  cbn [replace]. destruct (Ascii.eqb c " "); cbn; [reflexivity | now rewrite IH].
Qed.

Lemma length_toLowerCase (s : string) : String.length (toLowerCase s) = String.length s.
Proof. induction s as [|c s IH]; cbn; [reflexivity | now rewrite IH]. Qed.

Lemma lowerChar_not_capital (c : ascii) : isUpperCase (lowerChar c) = false.
Proof. destruct c as [[] [] [] [] [] [] [] []]; vm_compute; reflexivity. Qed.

Lemma capitals_toLowerCase (s : string) : capitals (toLowerCase s) = 0%nat.
Proof.
  induction s as [|c s IH]; [reflexivity|].
  cbn [toLowerCase capitals]. now rewrite lowerChar_not_capital, IH.
Qed.

Lemma capitals_replace (s : string) :
  capitals s = 0%nat -> capitals (replace " " "-" s) = 0%nat.
Proof.
  induction s as [|c s IH]; [reflexivity|].
  cbn [replace capitals]. destruct (isUpperCase c) eqn:Hc; [discriminate|].
  intros H. destruct (Ascii.eqb c " "); cbn [capitals].
  - exact H.
  - rewrite Hc. now apply IH.
Qed.

(** X6: whatever the metadata, the file name keeps every space of the
    material and every space of the design type but the first: it has
    [spaces material + (spaces designType - 1)] spaces, the subtraction
    stopping at 0. *)
Theorem downloadName_spaces (options : DesignOptions) (format : Format) :
  spaces (downloadName options format)
    = (spaces (material options) + pred (spaces (designType options)))%nat.
Proof.
  rewrite downloadName_getFileName. unfold getFileName.
  rewrite !spaces_append, spaces_replace, !spaces_toLowerCase.
  destruct format; cbn; lia.
Qed.

Lemma isAscii_append (a b : string) :
  isAscii (a ++ b) = isAscii a && isAscii b.
Proof.
  induction a as [|c a IH]; cbn [append isAscii]; [reflexivity|].
  now rewrite IH, andb_assoc.
Qed.

Lemma lowerChar_ascii (c : ascii) :
  (nat_of_ascii (lowerChar c) <? 128)%nat = (nat_of_ascii c <? 128)%nat.
Proof. destruct c as [[] [] [] [] [] [] [] []]; vm_compute; reflexivity. Qed.

Lemma isAscii_toLowerCase (s : string) : isAscii (toLowerCase s) = isAscii s.
Proof.
  induction s as [|c s IH]; [reflexivity|].
  cbn [toLowerCase isAscii]. now rewrite lowerChar_ascii, IH.
Qed.

Lemma isAscii_replace (s : string) :
  isAscii s = true -> isAscii (replace " " "-" s) = true.
Proof.
  induction s as [|c s IH]; [reflexivity|].
  cbn [replace isAscii]. intros H. apply andb_prop in H. destruct H as [Hc Hs].
  destruct (Ascii.eqb c " "); cbn [isAscii].
  - now rewrite Hs.
  - now rewrite Hc, IH.
Qed.

(** X7: for metadata of ASCII characters, the file name is ASCII, has no
    capital, and has as many characters as the prefix, the material, the
    hyphen, the design type, the dot and the extension together: lower-casing
    and the replacement change no length. *)
Theorem downloadName_lower_case (options : DesignOptions) (format : Format) :
  isAscii (material options) = true ->
  isAscii (designType options) = true ->
  isAscii (downloadName options format) = true /\
  capitals (downloadName options format) = 0%nat /\
  String.length (downloadName options format)
    = (11 + String.length (material options) + 1
       + String.length (designType options) + 1
       + String.length (formatString format))%nat.
Proof.
  intros Hm Hd. rewrite downloadName_getFileName. unfold getFileName.
  split; [|split].
  - rewrite !isAscii_append, isAscii_toLowerCase, Hm.
    rewrite isAscii_replace by (now rewrite isAscii_toLowerCase).
    destruct format; reflexivity.
  - rewrite !capitals_append, capitals_toLowerCase.
    rewrite capitals_replace by apply capitals_toLowerCase.
    destruct format; reflexivity.
  - rewrite !string_length_append, length_replace, !length_toLowerCase.
    cbn [String.length]. lia.
Qed.

Lemma downloadName_lower_case_witness :
  capitals (downloadName (mkDesignOptions "Soft Maple" "3D Deep Relief") jpeg) = 0%nat /\
  String.length (downloadName (mkDesignOptions "Soft Maple" "3D Deep Relief") jpeg)
    = 41%nat.
Proof.
  destruct (downloadName_lower_case (mkDesignOptions "Soft Maple" "3D Deep Relief") jpeg)
    as (_ & Hc & Hl); [reflexivity | reflexivity |].
  split; [exact Hc | rewrite Hl; reflexivity].
Defined.

End CasingFacts.

(** ** Bitmaps *)

Section BitmapFacts.

Local Open Scope nat_scope.

Lemma map_nth_seq (l : list Z) :
  map (fun i => nth i l 0%Z) (seq 0 (List.length l)) = l.
Proof.
  induction l as [|a l IH]; [reflexivity|].
  cbn [List.length seq map nth]. f_equal.
  rewrite <- seq_shift, map_map. exact IH.
Qed.

(** Byte [i] of a bitmap [w] pixels wide is channel [i mod 4] of the pixel
    at column [(i mod (w * 4)) / 4] of row [i / (w * 4)]. *)
Lemma byte_position (w h i : nat) :
  i < w * h * 4 ->
  (i mod (w * 4)) / 4 < w /\ i / (w * 4) < h /\
  (i / (w * 4) * w + (i mod (w * 4)) / 4) * 4 + i mod 4 = i.
Proof.
  intros Hi.
  assert (Hw : w * 4 <> 0) by (destruct w; [simpl in Hi|]; lia).
  pose proof (Nat.div_mod_eq i (w * 4)) as E.
  pose proof (Nat.mod_upper_bound i (w * 4) Hw) as Hr.
  set (q := i / (w * 4)) in *. set (r := i mod (w * 4)) in *.
  pose proof (Nat.div_mod_eq r 4) as Er.
  pose proof (Nat.mod_upper_bound r 4 ltac:(lia)) as Hc.
  set (x := r / 4) in *. set (c := r mod 4) in *.
  assert (Hmod : i mod 4 = c).
  { symmetry. apply (Nat.mod_unique i 4 (q * w + x) c); lia. }
  rewrite Hmod. repeat split; [lia | nia | lia].
Qed.

(** [putImageData] of a buffer of the size of the canvas replaces the
    bitmap by the bytes of the buffer. *)
Lemma putImageData_same_size (canvas : Canvas) (imageData : ImageData) :
  width imageData = canvas_width canvas ->
  height imageData = canvas_height canvas ->
  List.length (data imageData) = canvas_width canvas * canvas_height canvas * 4 ->
  putImageData canvas imageData = setBitmap canvas (data imageData).
Proof.
  intros Hw Hh Hlen. unfold putImageData. cbv zeta. f_equal.
  transitivity (map (fun i => nth i (data imageData) 0%Z)
                     (seq 0 (List.length (data imageData))));
    [|apply map_nth_seq].
  rewrite Hlen. apply map_ext_in. intros i Hi. apply in_seq in Hi.
  destruct (byte_position (canvas_width canvas) (canvas_height canvas) i)
    as (Hx & Hy & E); [lia|].
  rewrite Hw, Hh.
  destruct (Nat.ltb_spec ((i mod (canvas_width canvas * 4)) / 4) (canvas_width canvas));
    [|lia].
  destruct (Nat.ltb_spec (i / (canvas_width canvas * 4)) (canvas_height canvas));
    [|lia].
  cbn [andb]. now rewrite E.
Qed.

Lemma setBitmap_bitmap (canvas : Canvas) : setBitmap canvas (bitmap canvas) = canvas.
Proof. now destruct canvas. Qed.

Lemma setBitmap_setBitmap (canvas : Canvas) (a b : list Z) :
  setBitmap (setBitmap canvas a) b = setBitmap canvas b.
Proof. reflexivity. Qed.

(** Drawing a buffer on the cleared canvas. *)
Lemma putImageData_cleared (canvas : Canvas) (imageData : ImageData) :
  entrySized canvas imageData ->
  putImageData (clearRect canvas) imageData = setBitmap canvas (data imageData).
Proof.
  intros (Hw & Hh & Hlen).
  rewrite putImageData_same_size; [reflexivity | exact Hw | exact Hh | exact Hlen].
Qed.

End BitmapFacts.

(** ** The history along a session *)

Section SessionHistoryFacts.

Context {num : Type} {N : Number num}.

Implicit Types (st : @State num) (canvas : Canvas).

(** A redraw changes the canvas and nothing else. *)
Lemma redrawCanvas_setCanvas st : exists c, redrawCanvas st = setCanvas st c.
Proof.
  unfold redrawCanvas.
  destruct (context st); [|exists (canvasRef st); now destruct st].
  destruct (canvasRef st) as [canvas|] eqn:Hc;
    [|exists None; destruct st; cbn in *; now subst].
  destruct (history st) as [|e0 h0]; [|destruct (item (e0 :: h0) (historyIndex st))];
    eexists; reflexivity.
Qed.

Lemma redrawIfIndexChanged_setCanvas st0 st :
  exists c, redrawIfIndexChanged st0 st = setCanvas st c.
Proof.
  unfold redrawIfIndexChanged. destruct (_ =? _)%Z; [|apply redrawCanvas_setCanvas].
  exists (canvasRef st). now destruct st.
Qed.

Lemma run_app (evs1 evs2 : list (@Event num)) : forall st,
  run (evs1 ++ evs2) st = run evs2 (run evs1 st).
Proof.
  induction evs1 as [|ev evs1 IH]; intros st; [reflexivity|].
  cbn [app run]. apply IH.
Qed.

Lemma not_load_admissible (ev : @Event num) : isLoad ev = false -> admissible ev.
Proof. destruct ev; [discriminate | intros _; exact I..]. Qed.

(** Every event but a load and a release leaves the entries alone. *)
Lemma step_history ev st :
  isLoad ev = false -> ev <> MouseUp -> ev <> MouseLeave ->
  history (step ev st) = history st.
Proof.
  intros Hl Hu Hv. destruct ev; try discriminate; try contradiction; cbn [step].
  - unfold handleMouseDown. destruct (tool st); try reflexivity; now destruct (context st).
  - destruct (isPanning st) eqn:Hp.
    + destruct (redrawCanvas_Frame (handleMouseMove e st)) as (-> & _).
      unfold handleMouseMove. now rewrite Hp.
    + unfold handleMouseMove. rewrite Hp. now destruct (isDrawing st).
  - now destruct (redrawCanvas_Frame (handleWheel e st)) as (-> & _).
  - now destruct (renderCanvas_Frame painted st) as (-> & _).
  - reflexivity.
  - reflexivity.
  - destruct (redrawIfIndexChanged_Frame st (handleUndo st)) as (-> & _).
    apply handleUndo_history.
  - destruct (redrawIfIndexChanged_Frame st (handleResetEdits st)) as (-> & _).
    unfold handleResetEdits. now destruct (0 <? _)%nat.
  - reflexivity.
  - reflexivity.
  - now destruct (handleDownload_state options format tempCtx st) as [-> | ->].
  - destruct (redrawCanvas_Frame (handleZoomChange direction clientWidth clientHeight st))
      as (-> & _).
    unfold handleZoomChange. destruct (canvasRef st); [|reflexivity].
    now destruct direction.
Qed.

(** A release keeps the first entry of a history that has one. *)
Lemma handleMouseUp_first st original :
  Consistent st -> nth_error (history st) 0 = Some original ->
  nth_error (history (handleMouseUp st)) 0 = Some original.
Proof.
  intros HC H0. unfold handleMouseUp.
  assert (H1 : nth_error
                 (history (if isDrawing st
                           then saveState (setLastMousePos
                                             (setMousePos (setIsDrawing st false) None) None)
                           else st)) 0 = Some original).
  { destruct (isDrawing st); [|exact H0].
    set (st1 := setLastMousePos (setMousePos (setIsDrawing st false) None) None).
    assert (HC1 : Consistent st1)
      by (apply (Consistent_Frame st); [exact HC | repeat split; apply sameShape_refl]).
    assert (Hne : history st1 <> []).
    { cbn. intros E. rewrite E in H0. discriminate. }
    destruct (saveState_taken st1 HC1 Hne) as (canvas & buffer & _ & _ & ->).
    cbn [history setHistory setHistoryIndex]. subst st1.
    cbn [history historyIndex setLastMousePos setMousePos setIsDrawing].
    destruct HC as (c & _ & _ & Hh).
    destruct (history st) as [|e0 h0]; [discriminate|].
    destruct Hh as (Hidx & _).
    replace (Z.to_nat (historyIndex st + 1)) with (S (Z.to_nat (historyIndex st))) by lia.
    exact H0. }
  destruct (isPanning st); exact H1.
Qed.

Lemma step_first ev st original :
  Consistent st -> isLoad ev = false ->
  nth_error (history st) 0 = Some original ->
  nth_error (history (step ev st)) 0 = Some original.
Proof.
  intros HC Hl H0.
  assert (Hup : nth_error
                  (history (redrawIfIndexChanged st (handleMouseUp st))) 0
                = Some original).
  { destruct (redrawIfIndexChanged_Frame st (handleMouseUp st)) as (-> & _).
    now apply handleMouseUp_first. }
  destruct ev; try exact Hup; rewrite step_history; auto; discriminate.
Qed.

(** X8: in every state the component can reach, the history is empty with
    the index at -1, or the index is a position of the history, the entry at
    the index exists and there is a 2D context. *)
Theorem reachable_history_index canvas0 st :
  reachable canvas0 st ->
  (history st = [] /\ historyIndex st = (-1)%Z) \/
  (exists entry,
      item (history st) (historyIndex st) = Some entry /\
      (0 <= historyIndex st < Z.of_nat (List.length (history st)))%Z /\
      context st <> None).
Proof.
  intros Hr. destruct (reachable_Consistent _ _ Hr) as (canvas & _ & _ & Hh).
  destruct (history st) as [|e0 h0] eqn:Hhist; [left; auto|].
  right. destruct Hh as (Hidx & Hctx & _).
  rewrite item_nth_error by lia.
  destruct (nth_error (e0 :: h0) (Z.to_nat (historyIndex st))) as [entry|] eqn:E.
  - exists entry. auto.
  - apply nth_error_None in E. lia.
Qed.

(** X9: the first entry of the history, the image as it was loaded, stays
    the first entry through every sequence of events without a new load, and
    a reset then puts the index on it. *)
Theorem original_entry_kept canvas0 st (evs : list (@Event num)) original :
  reachable canvas0 st ->
  nth_error (history st) 0 = Some original ->
  Forall (fun ev => isLoad ev = false) evs ->
  let st' := run evs st in
  nth_error (history st') 0 = Some original /\
  item (history (step ResetEdits st')) (historyIndex (step ResetEdits st'))
    = Some original.
Proof.
  intros Hr H0 Hevs st'.
  assert (H : Consistent st' /\ nth_error (history st') 0 = Some original).
  { subst st'. apply reachable_Consistent in Hr. revert st Hr H0.
    induction Hevs as [|ev evs Hev _ IH]; intros st HC H0; [now split|].
    cbn [run]. apply IH.
    - apply step_Consistent; [now apply not_load_admissible | exact HC].
    - now apply step_first. }
  destruct H as [HC H0']. split; [exact H0'|].
  cbn [step].
  destruct (redrawIfIndexChanged_Frame st' (handleResetEdits st')) as (-> & -> & _).
  unfold handleResetEdits.
  destruct (history st') as [|e0 h0] eqn:Hhist; [discriminate|].
  cbn [List.length Nat.ltb Nat.leb historyIndex history setHistoryIndex].
  rewrite Hhist. exact H0'.
Qed.

(** X12: what a load that fires [onload] does.  The canvas takes the size
    of the image in every case.  With a 2D context and an image of non-zero
    size the history becomes the single entry read back from the canvas, the
    index 0 and the view the identity, and the canvas shows the image.
    Without a 2D context, or for an image without pixels, [getImageData]
    throws: the history, the index and the view stay as they were.  Without a
    canvas element nothing happens. *)
Theorem load_outcome st image drawn :
  let st' := step (SourceChanged (Some (image, drawn))) st in
  (canvasRef st = None -> st' = st) /\
  (forall canvas, canvasRef st = Some canvas ->
     (exists canvas',
         canvasRef st' = Some canvas' /\
         canvas_width canvas' = image_width image /\
         canvas_height canvas' = image_height image /\
         (has2d canvas = true ->
          (0 < image_width image)%nat -> (0 < image_height image)%nat ->
          List.length drawn = (image_width image * image_height image * 4)%nat ->
          bitmap canvas' = drawn)) /\
     (has2d canvas = true ->
      (0 < image_width image)%nat -> (0 < image_height image)%nat ->
      history st' = [mkImageData (image_width image) (image_height image) drawn] /\
      historyIndex st' = 0%Z /\
      viewTransform st' = identityTransform /\
      context st' <> None) /\
     (has2d canvas = false \/ image_width image = 0%nat \/ image_height image = 0%nat ->
      history st' = history st /\
      historyIndex st' = historyIndex st /\
      viewTransform st' = viewTransform st)).
Proof.
  intros st'. subst st'. cbn [step]. split.
  - intros Hc. unfold sourceEffect. rewrite Hc. unfold redrawCanvas. rewrite Hc.
    now destruct (context st).
  - intros canvas Hc. unfold sourceEffect. rewrite Hc. unfold onload.
    set (canvas1 :=
           if negb (canvas_width canvas =? image_width image)%nat
              || negb (canvas_height canvas =? image_height image)%nat
           then resize canvas (image_width image) (image_height image)
           else canvas).
    assert (Hshape : canvas_width canvas1 = image_width image /\
                     canvas_height canvas1 = image_height image).
    { subst canvas1.
      destruct (Nat.eqb_spec (canvas_width canvas) (image_width image));
        destruct (Nat.eqb_spec (canvas_height canvas) (image_height image));
        cbn; auto. }
    destruct Hshape as (Hw1 & Hh1).
    assert (Hkept : forall c,
               canvas_width c = image_width image ->
               canvas_height c = image_height image ->
               let s1 := setCanvas (setContext st (getContext canvas)) (Some c) in
               (exists canvas',
                   canvasRef (redrawCanvas s1) = Some canvas' /\
                   canvas_width canvas' = image_width image /\
                   canvas_height canvas' = image_height image) /\
               history (redrawCanvas s1) = history st /\
               historyIndex (redrawCanvas s1) = historyIndex st /\
               viewTransform (redrawCanvas s1) = viewTransform st).
    { intros c Hcw Hch s1.
      destruct (redrawCanvas_Frame s1) as (F1 & F2 & _ & F4).
      rewrite redrawCanvas_viewTransform, F1, F2.
      split; [|subst s1; cbn; auto].
      subst s1. cbn [canvasRef setCanvas sameShape] in F4.
      destruct (canvasRef (redrawCanvas _)) as [canvas'|]; [|contradiction].
      exists canvas'. destruct F4 as (-> & -> & _). auto. }
    unfold getContext. destruct (has2d canvas) eqn:H2d.
    + unfold getImageData. cbn [canvas_width canvas_height bitmap setBitmap].
      rewrite Hw1, Hh1.
      destruct (Nat.eqb_spec (image_width image) 0) as [Ew|Ew];
        [|destruct (Nat.eqb_spec (image_height image) 0) as [Eh|Eh]]; cbn [orb].
      * destruct (Hkept (setBitmap canvas1 drawn) Hw1 Hh1)
          as ((canvas' & Hc' & Hcw & Hch) & Hh & Hi & Hv).
        unfold getContext in Hc', Hh, Hi, Hv. rewrite H2d in Hc', Hh, Hi, Hv.
        split; [|split].
        -- exists canvas'. repeat split; auto. intros _ Hpos. lia.
        -- intros _ Hpos. lia.
        -- intros _. auto.
      * destruct (Hkept (setBitmap canvas1 drawn) Hw1 Hh1)
          as ((canvas' & Hc' & Hcw & Hch) & Hh & Hi & Hv).
        unfold getContext in Hc', Hh, Hi, Hv. rewrite H2d in Hc', Hh, Hi, Hv.
        split; [|split].
        -- exists canvas'. repeat split; auto. intros _ _ Hpos. lia.
        -- intros _ _ Hpos. lia.
        -- intros _. auto.
      * unfold redrawCanvas.
        cbn [context canvasRef history historyIndex viewTransform
             setViewTransform setHistoryIndex setHistory setCanvas setContext].
        cbn [item Z.ltb Z.compare Z.to_nat nth_error].
        split; [|split].
        -- eexists. split; [reflexivity|].
           split; [exact Hw1|]. split; [exact Hh1|].
           intros _ _ _ Hlen. rewrite putImageData_cleared; [reflexivity|].
           unfold entrySized, byteLength.
           cbn [width height data canvas_width canvas_height setBitmap].
           rewrite Hw1, Hh1. auto.
        -- intros _ _ _. repeat split. discriminate.
        -- intros [Hf | [Hf | Hf]]; [discriminate | contradiction..].
    + destruct (Hkept canvas1 Hw1 Hh1) as ((canvas' & Hc' & Hcw & Hch) & Hh & Hi & Hv).
      unfold getContext in Hc', Hh, Hi, Hv. rewrite H2d in Hc', Hh, Hi, Hv.
      split; [|split].
      * exists canvas'. repeat split; auto. discriminate.
      * discriminate.
      * intros _. auto.
Qed.

End SessionHistoryFacts.

(** ** Gestures *)

Section GestureFacts.

Context {num : Type} {N : Number num}.

Implicit Types (st : @State num) (canvas : Canvas).

Local Open Scope js_scope.

(** During a stroke the moves and the frames change the pointer cells and
    the bitmap, and nothing else. *)
Lemma stroke_steps (steps : list (@StrokeStep num)) :
  forall c ctx t lw h i m vt psp p q,
    isPan t = false ->
    exists p' q',
      run (map strokeEvent steps)
          (mkState (Some c) (Some ctx) true t lw h i m vt false psp (Some p) (Some q))
      = mkState (Some (setBitmap c (strokeBitmap steps (bitmap c)))) (Some ctx)
                true t lw h i m vt false psp (Some p') (Some q').
Proof.
  induction steps as [|s steps IH]; intros c ctx t lw h i m vt psp p q Ht.
  - cbn [map run strokeBitmap fold_left]. rewrite setBitmap_bitmap. eauto.
  - destruct s as [e | painted]; cbn [map strokeEvent run].
    + destruct (IH c ctx t lw h i m vt psp
                   (getTransformedPoint
                      (mkState (Some c) (Some ctx) true t lw h i m vt false psp
                               (Some p) (Some q)) (offsetX e) (offsetY e)) q Ht)
        as (p' & q' & E).
      exists p', q'. exact E.
    + destruct (IH (setBitmap c painted) ctx t lw h i m vt psp p p Ht) as (p' & q' & E).
      exists p', q'. destruct t; try discriminate; exact E.
Qed.

(** X10: a stroke with the brush or the eraser, from pressing the button to
    releasing it or leaving the canvas, appends exactly one entry to the
    history: the entries above the index are dropped, the canvas as the last
    frame painted it is appended, and the index moves up by one.  The view
    and the tool are as before, and the stroke is over. *)
Theorem stroke_appends_snapshot canvas0 st canvas (e : @MouseEvent num)
    (steps : list (@StrokeStep num)) (release : @Event num) :
  reachable canvas0 st ->
  canvasRef st = Some canvas -> context st <> None ->
  (0 < canvas_width canvas)%nat -> (0 < canvas_height canvas)%nat ->
  isPanning st = false -> isPan (tool st) = false ->
  release = MouseUp \/ release = MouseLeave ->
  let st' := run (MouseDown e :: map strokeEvent steps ++ [release]) st in
  history st' =
    firstn (Z.to_nat (historyIndex st + 1)) (history st) ++
    [mkImageData (canvas_width canvas) (canvas_height canvas)
                 (strokeBitmap steps (bitmap canvas))] /\
  historyIndex st' = (historyIndex st + 1)%Z /\
  isDrawing st' = false /\ isPanning st' = false /\
  viewTransform st' = viewTransform st /\ tool st' = tool st.
Proof.
  intros Hr Hc Hctx Hw Hh Hp Ht Hrel st'.
  assert (Hidx : (-1 <= historyIndex st < Z.of_nat (List.length (history st)))%Z).
  { destruct (reachable_Consistent _ _ Hr) as (c & _ & _ & Hhist).
    destruct (history st); cbn [List.length] in *; lia. }
  subst st'. destruct st as [cr cx dr t lw h i m vt pn psp mp lmp].
  cbn [canvasRef context isPanning tool history historyIndex viewTransform] in *.
  subst cr pn. destruct cx as [ctx|]; [|contradiction].
  cbn [run]. rewrite run_app.
  assert (Hdown :
            step (MouseDown e)
                 (mkState (Some canvas) (Some ctx) dr t lw h i m vt false psp mp lmp)
            = let point :=
                  getTransformedPoint
                    (mkState (Some canvas) (Some ctx) dr t lw h i m vt false psp mp lmp)
                    (offsetX e) (offsetY e) in
              mkState (Some canvas) (Some ctx) true t lw h i m vt false psp
                      (Some point) (Some point)).
  { destruct t; try discriminate; reflexivity. }
  rewrite Hdown. cbv zeta.
  set (point := getTransformedPoint _ _ _).
  destruct (stroke_steps steps canvas ctx t lw h i m vt psp point point Ht)
    as (p' & q' & ->).
  set (released :=
         mkState (Some (setBitmap canvas (strokeBitmap steps (bitmap canvas)))) (Some ctx)
                 true t lw h i m vt false psp (Some p') (Some q')).
  assert (Hup :
            handleMouseUp released
            = mkState (Some (setBitmap canvas (strokeBitmap steps (bitmap canvas))))
                      (Some ctx) false t lw
                      (firstn (Z.to_nat (i + 1)) h ++
                       [mkImageData (canvas_width canvas) (canvas_height canvas)
                                    (strokeBitmap steps (bitmap canvas))])
                      (i + 1)%Z m vt false psp None None).
  { subst released. unfold handleMouseUp.
    cbn [isDrawing isPanning setIsDrawing setMousePos setLastMousePos
         canvasRef context tool lineWidth history historyIndex isDownloadMenuOpen
         viewTransform panStartPoint mousePosRef lastMousePosRef].
    unfold saveState, setLastMousePos, setMousePos, setIsDrawing.
    cbn [canvasRef context isDrawing tool lineWidth history historyIndex
         isDownloadMenuOpen viewTransform isPanning panStartPoint mousePosRef
         lastMousePosRef].
    unfold getImageData. cbn [canvas_width canvas_height bitmap setBitmap].
    destruct (Nat.eqb_spec (canvas_width canvas) 0); [lia|].
    destruct (Nat.eqb_spec (canvas_height canvas) 0); [lia|].
    cbn [orb]. rewrite slice_prefix by lia.
    unfold setHistoryIndex, setHistory.
    cbn [canvasRef context isDrawing tool lineWidth history historyIndex
         isDownloadMenuOpen viewTransform isPanning panStartPoint mousePosRef
         lastMousePosRef].
    f_equal. rewrite length_app, length_firstn. cbn [List.length]. lia. }
  assert (Hstep : exists c, step release released = setCanvas (handleMouseUp released) c).
  { destruct Hrel as [-> | ->]; cbn [step]; apply redrawIfIndexChanged_setCanvas. }
  destruct Hstep as (c & Hstep). cbn [run]. rewrite Hstep, Hup.
  cbn. repeat split.
Qed.

(** While the pan is on, the moves change the offset and redraw, and change
    nothing else. *)
Lemma pan_moves (moves : list (@MouseEvent num)) :
  forall c ctx dr t lw h i m vt psp mp lmp,
    exists c' off,
      run (map MouseMove moves)
          (mkState c ctx dr t lw h i m vt true psp mp lmp)
      = mkState c' ctx dr t lw h i m (mkViewTransform (scale vt) off) true psp mp lmp.
Proof.
  induction moves as [|e moves IH]; intros c ctx dr t lw h i m vt psp mp lmp.
  - exists c, (offset vt). now destruct vt.
  - cbn [map run step isPanning].
    destruct (redrawCanvas_setCanvas
                (handleMouseMove e (mkState c ctx dr t lw h i m vt true psp mp lmp)))
      as (c1 & ->).
    destruct (IH c1 ctx dr t lw h i m
                 (mkViewTransform (scale vt)
                    (mkPoint (offsetX e - x psp) (offsetY e - y psp)))
                 psp mp lmp) as (c' & off & E).
    exists c', off. exact E.
Qed.

(** X11: a pan gesture, from pressing the button with the pan tool to
    releasing it or leaving the canvas.  Without a move in between the view
    is as before.  With moves, the scale is as before and the offset is the
    position of the last move minus the grab point, which is the position of
    the press minus the offset at that time; the moves before the last leave
    no trace.  The history and its index are untouched, and the pan is
    over. *)
Theorem pan_gesture st (e : @MouseEvent num) (moves : list (@MouseEvent num))
    (final : @MouseEvent num) (release : @Event num) :
  tool st = pan -> isDrawing st = false ->
  release = MouseUp \/ release = MouseLeave ->
  let grab := mkPoint (offsetX e - x (offset (viewTransform st)))
                      (offsetY e - y (offset (viewTransform st))) in
  let clicked := run [MouseDown e; release] st in
  let dragged := run (MouseDown e :: map MouseMove (moves ++ [final]) ++ [release]) st in
  viewTransform clicked = viewTransform st /\
  viewTransform dragged =
    mkViewTransform (scale (viewTransform st))
                    (mkPoint (offsetX final - x grab) (offsetY final - y grab)) /\
  history clicked = history st /\ historyIndex clicked = historyIndex st /\
  history dragged = history st /\ historyIndex dragged = historyIndex st /\
  isPanning clicked = false /\ isPanning dragged = false /\
  isDrawing dragged = false.
Proof.
  intros Ht Hd Hrel grab clicked dragged.
  destruct st as [cr cx dr t lw h i m vt pn psp mp lmp].
  cbn [tool isDrawing viewTransform history historyIndex] in *. subst t dr.
  assert (Hup : forall c vt' psp',
             step release (mkState c cx false pan lw h i m vt' true psp' mp lmp)
             = mkState c cx false pan lw h i m vt' false psp' mp lmp).
  { intros c vt' psp'. destruct Hrel as [-> | ->]; cbn [step];
      unfold redrawIfIndexChanged, handleMouseUp;
      cbn [isDrawing isPanning setIsPanning canvasRef context tool lineWidth history
           historyIndex isDownloadMenuOpen viewTransform panStartPoint mousePosRef
           lastMousePosRef];
      now rewrite Z.eqb_refl. }
  assert (Hdown :
            step (MouseDown e) (mkState cr cx false pan lw h i m vt pn psp mp lmp)
            = mkState cr cx false pan lw h i m vt true grab mp lmp) by reflexivity.
  subst clicked dragged. cbn [run]. rewrite Hdown, Hup, run_app, map_app, run_app.
  destruct (pan_moves moves cr cx false pan lw h i m vt grab mp lmp) as (c1 & off & ->).
  cbn [map run step isPanning].
  destruct (redrawCanvas_setCanvas
              (handleMouseMove final
                 (mkState c1 cx false pan lw h i m (mkViewTransform (scale vt) off)
                          true grab mp lmp))) as (c2 & ->).
  unfold handleMouseMove, setCanvas.
  cbn [isPanning]. unfold setViewTransform.
  cbn [canvasRef context isDrawing tool lineWidth history historyIndex
       isDownloadMenuOpen viewTransform isPanning panStartPoint mousePosRef
       lastMousePosRef scale].
  rewrite Hup. cbn. repeat split.
Qed.

End GestureFacts.

(** ** What the canvas shows *)

Section DisplayFacts.

Context {num : Type} {N : Number num}.

Implicit Types (st : @State num) (canvas : Canvas).

Lemma item_nil {A : Type} (i : Z) : item (@nil A) i = None.
Proof. unfold item. destruct (i <? 0)%Z; [reflexivity|]. now destruct (Z.to_nat i). Qed.

Lemma item_In {A : Type} (l : list A) (i : Z) (a : A) : item l i = Some a -> In a l.
Proof. unfold item. destruct (i <? 0)%Z; [discriminate|]. apply nth_error_In. Qed.

Lemma wellFormed_admissible st (ev : @Event num) : wellFormed st ev -> admissible ev.
Proof.
  destruct ev; try (intros _; exact I).
  destruct loaded as [[image drawn]|]; cbn; tauto.
Qed.

Lemma Sized_fields st st' :
  canvasRef st' = canvasRef st -> context st' = context st ->
  history st' = history st -> Sized st -> Sized st'.
Proof. unfold Sized. now intros -> -> ->. Qed.

Lemma Shown_fields st st' :
  canvasRef st' = canvasRef st -> history st' = history st ->
  historyIndex st' = historyIndex st ->
  (isDrawing st' = false -> isDrawing st = false) ->
  Shown st -> Shown st'.
Proof. unfold Shown. intros -> -> -> Hd H Hd'. apply H, Hd, Hd'. Qed.

(** The entries keep the size of the canvas through a handler that leaves
    the history and the size of the canvas alone. *)
Lemma Sized_Frame st st' :
  Sized st -> Frame st st' ->
  forall canvas, canvasRef st' = Some canvas -> Forall (entrySized canvas) (history st').
Proof.
  intros (canvas0 & Hc0 & _ & HF) (F1 & _ & _ & F4) canvas Hc.
  rewrite Hc0, Hc in F4. destruct F4 as (Fw & Fh & _). rewrite F1.
  eapply Forall_impl; [|exact HF].
  intros entry. unfold entrySized, byteLength. now rewrite Fw, Fh.
Qed.

(** After a redraw the canvas shows the entry at the index. *)
Lemma redrawCanvas_Displays st :
  Consistent st ->
  (forall canvas, canvasRef st = Some canvas -> Forall (entrySized canvas) (history st)) ->
  Sized (redrawCanvas st) /\ Shown (redrawCanvas st).
Proof.
  intros (canvas & Hc & H2d & Hh) HF. specialize (HF canvas Hc).
  unfold redrawCanvas. rewrite Hc. destruct (context st) eqn:Hctx.
  - destruct (history st) as [|e0 h0] eqn:Hhist;
      [|destruct (item (e0 :: h0) (historyIndex st)) as [entry|] eqn:Hi].
    + split.
      * exists (clearRect canvas). cbn [canvasRef context history setCanvas].
        split; [reflexivity|]. split; [|rewrite Hhist; constructor].
        intros _. apply repeat_length.
      * intros _ cv entry _. cbn [history historyIndex setCanvas].
        rewrite Hhist, item_nil. discriminate.
    + assert (Hs : entrySized canvas entry).
      { eapply Forall_forall; [exact HF|]. eapply item_In. exact Hi. }
      rewrite putImageData_cleared by exact Hs. split.
      * exists (setBitmap canvas (data entry)). cbn [canvasRef context history setCanvas].
        split; [reflexivity|]. split; [intros _; apply Hs | rewrite Hhist; exact HF].
      * intros _ cv entry'. cbn [canvasRef history historyIndex setCanvas].
        rewrite Hhist, Hi. intros [= <-] [= <-]. reflexivity.
    + split.
      * exists (clearRect canvas). cbn [canvasRef context history setCanvas].
        split; [reflexivity|]. split; [|rewrite Hhist; exact HF].
        intros _. apply repeat_length.
      * intros _ cv entry _. cbn [history historyIndex setCanvas].
        rewrite Hhist, Hi. discriminate.
  - split.
    + exists canvas. split; [exact Hc|]. split; [|exact HF].
      intros H. now rewrite Hctx in H.
    + intros _ cv entry _ Hi.
      destruct (history st) as [|e0 h0]; [rewrite item_nil in Hi; discriminate|].
      destruct Hh as (_ & Hx & _). congruence.
Qed.

Lemma redraw_after st st' :
  Consistent st -> Sized st -> Frame st st' ->
  Sized (redrawCanvas st') /\ Shown (redrawCanvas st').
Proof.
  intros HC HS HF. apply redrawCanvas_Displays.
  - now apply (Consistent_Frame st).
  - now apply (Sized_Frame st).
Qed.

Lemma Consistent_setHistoryIndex st (j : Z) :
  Consistent st -> (0 <= j < Z.of_nat (List.length (history st)))%Z ->
  Consistent (setHistoryIndex st j).
Proof.
  intros (canvas & Hc & H2d & Hh) Hj. exists canvas.
  cbn [canvasRef context history historyIndex setHistoryIndex].
  split; [exact Hc|]. split; [exact H2d|].
  destruct (history st); [cbn in Hj; lia|].
  destruct Hh as (_ & Hrest). split; [exact Hj | exact Hrest].
Qed.

Lemma index_in_range st :
  Consistent st -> (-1 <= historyIndex st < Z.of_nat (List.length (history st)))%Z.
Proof.
  intros (canvas & _ & _ & Hh).
  destruct (history st); cbn [List.length] in *; lia.
Qed.

(** What a load leaves in the history has the size the canvas takes. *)
Lemma sourceEffect_entries loaded st :
  wellFormed st (SourceChanged loaded) -> Consistent st -> Sized st ->
  forall canvas, canvasRef (sourceEffect loaded st) = Some canvas ->
                 Forall (entrySized canvas) (history (sourceEffect loaded st)).
Proof.
  intros Hwf (canvas & Hc & H2d & Hh) (canvas' & Hc' & _ & HF).
  rewrite Hc in Hc'. injection Hc' as <-.
  unfold sourceEffect. rewrite Hc.
  destruct loaded as [[image drawn]|].
  - destruct Hwf as (Hiw & Hih & Hlen). unfold onload.
    set (canvas1 :=
           if negb (canvas_width canvas =? image_width image)%nat
              || negb (canvas_height canvas =? image_height image)%nat
           then resize canvas (image_width image) (image_height image)
           else canvas).
    assert (Hshape : canvas_width canvas1 = image_width image /\
                     canvas_height canvas1 = image_height image).
    { subst canvas1.
      destruct (Nat.eqb_spec (canvas_width canvas) (image_width image));
        destruct (Nat.eqb_spec (canvas_height canvas) (image_height image));
        cbn; auto. }
    destruct Hshape as (Hw1 & Hh1).
    unfold getContext. destruct (has2d canvas) eqn:E2d.
    + unfold getImageData. cbn [canvas_width canvas_height bitmap setBitmap].
      rewrite Hw1, Hh1.
      destruct (Nat.eqb_spec (image_width image) 0); [lia|].
      destruct (Nat.eqb_spec (image_height image) 0); [lia|].
      cbn [orb canvasRef history setViewTransform setHistoryIndex setHistory setCanvas].
      intros c [= <-]. constructor; [|constructor].
      unfold entrySized, byteLength.
      cbn [width height data canvas_width canvas_height setBitmap].
      rewrite Hw1, Hh1. auto.
    + cbn [canvasRef history setCanvas setContext]. intros c _.
      destruct (history st); [constructor|].
      destruct Hh as (_ & Hctx & _). apply H2d in Hctx. congruence.
  - cbn [canvasRef history setContext]. rewrite Hc. intros c [= <-]. exact HF.
Qed.

(** A release: the snapshot, if one is taken, has the size of the canvas
    and is what the canvas shows afterwards. *)
Lemma release_Displays st :
  Consistent st -> Sized st -> Shown st ->
  Sized (redrawIfIndexChanged st (handleMouseUp st)) /\
  Shown (redrawIfIndexChanged st (handleMouseUp st)).
Proof.
  intros HC HS HSh.
  pose proof (index_in_range st HC) as Hidx.
  assert (Hsame : forall st',
             canvasRef st' = canvasRef st -> context st' = context st ->
             history st' = history st -> historyIndex st' = historyIndex st ->
             (isDrawing st' = false -> isDrawing st = false \/ history st = []) ->
             Sized (redrawIfIndexChanged st st') /\ Shown (redrawIfIndexChanged st st')).
  { intros st' E1 E2 E3 E4 Hd. unfold redrawIfIndexChanged.
    rewrite E4, Z.eqb_refl. split; [now apply (Sized_fields st)|].
    intros Hd' c entry. rewrite E1, E3, E4. intros Hc Hi.
    destruct (Hd Hd') as [Hd0 | Hnil]; [now apply (HSh Hd0)|].
    rewrite Hnil, item_nil in Hi. discriminate. }
  unfold handleMouseUp. destruct (isDrawing st) eqn:Hd.
  - set (st1 := setLastMousePos (setMousePos (setIsDrawing st false) None) None).
    destruct HC as (canvas & Hc & H2d & Hh).
    assert (HC1 : Consistent st1) by (exists canvas; auto).
    destruct (context st) eqn:Hctx; [destruct (getImageData canvas) as [buffer|] eqn:Hg|].
    + (* the snapshot is taken *)
      assert (Hsave : saveState st1 =
                      setHistoryIndex
                        (setHistory st1
                           (firstn (Z.to_nat (historyIndex st + 1)) (history st) ++ [buffer]))
                        (historyIndex st + 1)%Z).
      { unfold saveState. subst st1.
        cbn [context canvasRef history historyIndex setLastMousePos setMousePos
             setIsDrawing].
        rewrite Hctx, Hc, Hg, slice_prefix by lia.
        f_equal. rewrite length_app, length_firstn. cbn [List.length]. lia. }
      rewrite Hsave.
      set (st2 := setHistoryIndex _ _).
      assert (Hbuf : entrySized canvas buffer).
      { destruct HS as (cv & Hc' & Hlen & _). rewrite Hc in Hc'. injection Hc' as <-.
        unfold getImageData in Hg.
        destruct ((canvas_width canvas =? 0)%nat || (canvas_height canvas =? 0)%nat);
          [discriminate|].
        injection Hg as <-. unfold entrySized. cbn [width height data].
        repeat split. apply Hlen. now rewrite Hctx. }
      assert (HF2 : Forall (entrySized canvas) (history st2)).
      { subst st2. cbn [history setHistory setHistoryIndex].
        apply Forall_app. split; [|now constructor].
        destruct HS as (cv & Hc' & _ & HF). rewrite Hc in Hc'. injection Hc' as <-.
        rewrite <- (firstn_skipn (Z.to_nat (historyIndex st + 1)) (history st)) in HF.
        now apply Forall_app in HF. }
      assert (HC2 : Consistent st2).
      { subst st2. rewrite <- Hsave. now apply saveState_Consistent. }
      assert (Hgoal : forall st3,
                 Frame st2 st3 -> canvasRef st3 = Some canvas ->
                 Sized (redrawIfIndexChanged st st3) /\
                 Shown (redrawIfIndexChanged st st3)).
      { intros st3 HF3 Hc3. unfold redrawIfIndexChanged.
        destruct HF3 as (F1 & F2 & F3 & F4).
        assert (Hne : (historyIndex st3 =? historyIndex st)%Z = false).
        { rewrite F2. subst st2. cbn [historyIndex setHistoryIndex]. apply Z.eqb_neq. lia. }
        rewrite Hne. apply redrawCanvas_Displays.
        - apply (Consistent_Frame st2); [exact HC2 | repeat split; auto].
        - intros cv. rewrite Hc3, F1. now intros [= <-]. }
      destruct (isPanning st); apply Hgoal;
        try (repeat split; apply sameShape_refl); exact Hc.
    + (* [getImageData] throws: the canvas has no pixel, the history no entry *)
      assert (Hnil : history st = []).
      { destruct (history st); [reflexivity|]. destruct Hh as (_ & _ & Hw & Hht).
        unfold getImageData in Hg.
        destruct (Nat.eqb_spec (canvas_width canvas) 0); [lia|].
        destruct (Nat.eqb_spec (canvas_height canvas) 0); [lia|]. discriminate. }
      assert (Hsave : saveState st1 = st1).
      { unfold saveState. subst st1.
        cbn [context canvasRef setLastMousePos setMousePos setIsDrawing].
        now rewrite Hctx, Hc, Hg. }
      rewrite Hsave. destruct (isPanning st); apply Hsame; auto.
    + assert (Hnil : history st = []).
      { destruct (history st); [reflexivity|]. destruct Hh as (_ & Hx & _).
        congruence. }
      assert (Hsave : saveState st1 = st1).
      { unfold saveState. subst st1.
        cbn [context canvasRef setLastMousePos setMousePos setIsDrawing].
        now rewrite Hctx. }
      rewrite Hsave. destruct (isPanning st); apply Hsame; auto.
  - destruct (isPanning st); apply Hsame; auto.
Qed.

Lemma step_Displays (ev : @Event num) st :
  wellFormed st ev -> Consistent st -> Sized st -> Shown st ->
  Sized (step ev st) /\ Shown (step ev st).
Proof.
  intros Hwf HC HS HSh.
  pose proof (index_in_range st HC) as Hidx.
  assert (Hsame : forall st',
             canvasRef st' = canvasRef st -> context st' = context st ->
             history st' = history st -> historyIndex st' = historyIndex st ->
             (isDrawing st' = false -> isDrawing st = false) ->
             Sized st' /\ Shown st').
  { intros st' E1 E2 E3 E4 Hd.
    split; [now apply (Sized_fields st) | now apply (Shown_fields st)]. }
  destruct ev; cbn [step].
  - apply redrawCanvas_Displays.
    + apply sourceEffect_Consistent; [|exact HC].
      now apply (wellFormed_admissible st).
    + now apply sourceEffect_entries.
  - unfold handleMouseDown. destruct (tool st).
    + destruct (context st) eqn:Hctx; [|now apply Hsame].
      split; [now apply (Sized_fields st)|]. intros Hd. discriminate.
    + destruct (context st) eqn:Hctx; [|now apply Hsame].
      split; [now apply (Sized_fields st)|]. intros Hd. discriminate.
    + now apply Hsame.
  - now apply release_Displays.
  - now apply release_Displays.
  - unfold handleMouseMove. destruct (isPanning st).
    + apply (redraw_after st); auto. repeat split; apply sameShape_refl.
    + apply Hsame; destruct (isDrawing st) eqn:Hd; cbn; auto; congruence.
  - apply (redraw_after st); auto. repeat split; apply sameShape_refl.
  - unfold renderCanvas.
    destruct (context st) eqn:Hctx; [|now apply Hsame].
    destruct (mousePosRef st); [|now apply Hsame].
    destruct (lastMousePosRef st); [|now apply Hsame].
    destruct (isDrawing st) eqn:Hd; [|now apply Hsame]. cbn [negb].
    assert (Hpaint :
              let st' :=
                  setLastMousePos
                    match canvasRef st with
                    | Some canvas => setCanvas st (Some (setBitmap canvas painted))
                    | None => st
                    end
                    (mousePosRef
                       match canvasRef st with
                       | Some canvas => setCanvas st (Some (setBitmap canvas painted))
                       | None => st
                       end) in
              Sized st' /\ Shown st').
    { cbv zeta. split.
      - destruct HS as (canvas & Hc & Hlen & HF). rewrite Hc.
        exists (setBitmap canvas painted).
        split; [reflexivity|]. split; [|exact HF].
        intros _. exact (Hwf canvas Hc).
      - intros Hd'. destruct (canvasRef st); cbn in Hd'; congruence. }
    destruct (tool st); [exact Hpaint | exact Hpaint | now split].
  - now apply Hsame.
  - now apply Hsame.
  - unfold handleUndo. destruct (Z.ltb_spec 0 (historyIndex st)) as [Hpos | Hle].
    + unfold redrawIfIndexChanged. cbn [historyIndex setHistoryIndex].
      destruct (Z.eqb_spec (historyIndex st - 1) (historyIndex st)); [lia|].
      apply redrawCanvas_Displays.
      * apply Consistent_setHistoryIndex; [exact HC | lia].
      * apply (Sized_Frame st st); [exact HS | apply Frame_refl].
    + unfold redrawIfIndexChanged. rewrite Z.eqb_refl. now apply Hsame.
  - unfold handleResetEdits.
    destruct (Nat.ltb_spec 0 (List.length (history st))) as [Hpos | Hle].
    + unfold redrawIfIndexChanged. cbn [historyIndex setHistoryIndex].
      destruct (Z.eqb_spec 0 (historyIndex st)) as [E | E].
      * apply Hsame; auto.
      * apply redrawCanvas_Displays.
        -- apply Consistent_setHistoryIndex; [exact HC | lia].
        -- apply (Sized_Frame st st); [exact HS | apply Frame_refl].
    + unfold redrawIfIndexChanged. rewrite Z.eqb_refl. now apply Hsame.
  - now apply Hsame.
  - now apply Hsame.
  - destruct (handleDownload_state options format tempCtx st) as [-> | ->];
      now apply Hsame.
  - apply (redraw_after st); auto. unfold handleZoomChange.
    destruct (canvasRef st) as [canvas|] eqn:Hc; [|apply Frame_refl].
    destruct direction; repeat split; cbn; rewrite ?Hc; apply sameShape_refl.
Qed.

Lemma run_Displays (evs : list (@Event num)) : forall st,
  wellFormedRun evs st -> Consistent st -> Sized st -> Shown st ->
  Consistent (run evs st) /\ Sized (run evs st) /\ Shown (run evs st).
Proof.
  induction evs as [|ev evs IH]; intros st Hwf HC HS HSh; [now repeat split|].
  destruct Hwf as [Hev Hevs]. cbn [run].
  destruct (step_Displays ev st Hev HC HS HSh) as [HS' HSh'].
  apply IH; auto.
  apply step_Consistent; [|exact HC]. now apply (wellFormed_admissible st).
Qed.

(** X15: when the host hands over bitmaps of the size of the canvas, every
    history entry has the size of the canvas, and whenever no stroke is in
    progress the canvas shows the history entry at the index, byte for
    byte. *)
Theorem canvas_shows_current_entry canvas0 (evs : list (@Event num)) :
  wellFormedRun evs (initial canvas0) ->
  let st := run evs (initial canvas0) in
  exists canvas,
    canvasRef st = Some canvas /\
    Forall (entrySized canvas) (history st) /\
    (isDrawing st = false -> history st <> [] ->
     exists entry,
       item (history st) (historyIndex st) = Some entry /\
       bitmap canvas = data entry).
Proof.
  intros Hwf st.
  destruct (run_Displays evs (initial canvas0) Hwf) as (HC & HS & HSh).
  - exists canvas0. cbn. repeat split. intros H. contradiction.
  - exists canvas0. cbn. repeat split; [intros H; contradiction | constructor].
  - intros _ cv entry _ Hi. cbn in Hi. discriminate.
  - fold st in HC, HS, HSh. destruct HS as (canvas & Hc & _ & HF).
    exists canvas. split; [exact Hc|]. split; [exact HF|].
    intros Hd Hne.
    pose proof (index_in_range st HC) as Hidx.
    assert (Hpos : (0 <= historyIndex st)%Z).
    { destruct HC as (c & _ & _ & Hh). destruct (history st); [contradiction | lia]. }
    destruct (item (history st) (historyIndex st)) as [entry|] eqn:Hi.
    + exists entry. split; [reflexivity|]. now apply (HSh Hd canvas entry).
    + rewrite item_nth_error in Hi by lia. apply nth_error_None in Hi. lia.
Qed.

End DisplayFacts.

(** ** The pointer cells and the stroke renderer *)

Section TrackingFacts.

Context {num : Type} {N : Number num}.

Implicit Types (st : @State num) (canvas : Canvas).

Lemma Tracking_fields st st' :
  isDrawing st' = isDrawing st -> mousePosRef st' = mousePosRef st ->
  lastMousePosRef st' = lastMousePosRef st ->
  (context st <> None -> context st' <> None) ->
  Tracking st -> Tracking st'.
Proof.
  unfold Tracking. intros -> -> -> Hc. destruct (isDrawing st); [|auto].
  intros (H1 & H2 & H3). auto.
Qed.

Lemma setCanvas_Tracking st c : Tracking st -> Tracking (setCanvas st c).
Proof. apply Tracking_fields; auto. Qed.

(** A snapshot changes the history and its index, and nothing else. *)
Lemma saveState_setHistory st :
  exists h i, saveState st = setHistoryIndex (setHistory st h) i.
Proof.
  unfold saveState.
  destruct (context st);
    [destruct (canvasRef st) as [canvas|]; [destruct (getImageData canvas)|]|];
    try (eexists; eexists; reflexivity);
    exists (history st), (historyIndex st); now destruct st.
Qed.

Lemma saveState_Tracking st : Tracking st -> Tracking (saveState st).
Proof.
  destruct (saveState_setHistory st) as (h & i & ->).
  apply Tracking_fields; auto.
Qed.

Lemma sourceEffect_Tracking loaded st :
  Consistent st -> Tracking st -> Tracking (sourceEffect loaded st).
Proof.
  intros (canvas & Hc & H2d & _).
  apply Tracking_fields; unfold sourceEffect; rewrite Hc.
  - destruct loaded as [[image drawn]|]; [|reflexivity].
    unfold onload. destruct (getContext canvas); [|reflexivity].
    now destruct (getImageData _).
  - destruct loaded as [[image drawn]|]; [|reflexivity].
    unfold onload. destruct (getContext canvas); [|reflexivity].
    now destruct (getImageData _).
  - destruct loaded as [[image drawn]|]; [|reflexivity].
    unfold onload. destruct (getContext canvas); [|reflexivity].
    now destruct (getImageData _).
  - intros Hctx.
    assert (Hg : getContext canvas = Some Context2D)
      by (unfold getContext; now rewrite (H2d Hctx)).
    rewrite Hg. destruct loaded as [[image drawn]|]; [|discriminate].
    unfold onload. destruct (getImageData _); discriminate.
Qed.

Lemma step_Tracking (ev : @Event num) st :
  Consistent st -> Tracking st -> Tracking (step ev st).
Proof.
  intros HC HT. destruct ev; cbn [step].
  - destruct (redrawCanvas_setCanvas (sourceEffect loaded st)) as (c & ->).
    apply setCanvas_Tracking. now apply sourceEffect_Tracking.
  - unfold handleMouseDown. destruct (tool st).
    + destruct (context st) eqn:Hctx; [|exact HT].
      unfold Tracking. cbn. rewrite Hctx. repeat split; discriminate.
    + destruct (context st) eqn:Hctx; [|exact HT].
      unfold Tracking. cbn. rewrite Hctx. repeat split; discriminate.
    + revert HT. apply Tracking_fields; auto.
  - destruct (redrawIfIndexChanged_setCanvas st (handleMouseUp st)) as (c & ->).
    apply setCanvas_Tracking. unfold handleMouseUp.
    assert (H1 : Tracking (if isDrawing st
                           then saveState (setLastMousePos
                                             (setMousePos (setIsDrawing st false) None) None)
                           else st)).
    { destruct (isDrawing st); [|exact HT]. apply saveState_Tracking.
      unfold Tracking. cbn. auto. }
    destruct (isPanning st); [|exact H1].
    revert H1. apply Tracking_fields; auto.
  - destruct (redrawIfIndexChanged_setCanvas st (handleMouseUp st)) as (c & ->).
    apply setCanvas_Tracking. unfold handleMouseUp.
    assert (H1 : Tracking (if isDrawing st
                           then saveState (setLastMousePos
                                             (setMousePos (setIsDrawing st false) None) None)
                           else st)).
    { destruct (isDrawing st); [|exact HT]. apply saveState_Tracking.
      unfold Tracking. cbn. auto. }
    destruct (isPanning st); [|exact H1].
    revert H1. apply Tracking_fields; auto.
  - destruct (isPanning st) eqn:Hp.
    + destruct (redrawCanvas_setCanvas (handleMouseMove e st)) as (c & ->).
      apply setCanvas_Tracking. unfold handleMouseMove. rewrite Hp.
      revert HT. apply Tracking_fields; auto.
    + unfold handleMouseMove. rewrite Hp.
      unfold Tracking in *. destruct (isDrawing st) eqn:Hd; cbn; rewrite ?Hd; [|exact HT].
      destruct HT as (H1 & _ & H3). repeat split; auto. discriminate.
  - destruct (redrawCanvas_setCanvas (handleWheel e st)) as (c & ->).
    apply setCanvas_Tracking. revert HT. apply Tracking_fields; auto.
  - unfold renderCanvas.
    destruct (context st) eqn:Hctx; [|exact HT].
    destruct (mousePosRef st) eqn:Hm; [|exact HT].
    destruct (lastMousePosRef st); [|exact HT].
    destruct (isDrawing st) eqn:Hd; [|exact HT]. cbn [negb].
    assert (Hpaint :
              Tracking
                (setLastMousePos
                   match canvasRef st with
                   | Some canvas => setCanvas st (Some (setBitmap canvas painted))
                   | None => st
                   end
                   (mousePosRef
                      match canvasRef st with
                      | Some canvas => setCanvas st (Some (setBitmap canvas painted))
                      | None => st
                      end))).
    { unfold Tracking. destruct (canvasRef st); cbn; rewrite Hd, Hctx, Hm;
        repeat split; discriminate. }
    destruct (tool st); [exact Hpaint | exact Hpaint | exact HT].
  - revert HT. apply Tracking_fields; auto.
  - revert HT. apply Tracking_fields; auto.
  - destruct (redrawIfIndexChanged_setCanvas st (handleUndo st)) as (c & ->).
    apply setCanvas_Tracking. unfold handleUndo.
    destruct (0 <? historyIndex st)%Z; [|exact HT].
    revert HT. apply Tracking_fields; auto.
  - destruct (redrawIfIndexChanged_setCanvas st (handleResetEdits st)) as (c & ->).
    apply setCanvas_Tracking. unfold handleResetEdits.
    destruct (0 <? List.length (history st))%nat; [|exact HT].
    revert HT. apply Tracking_fields; auto.
  - revert HT. apply Tracking_fields; auto.
  - revert HT. apply Tracking_fields; auto.
  - destruct (handleDownload_state options format tempCtx st) as [-> | ->];
      [exact HT|]. revert HT. apply Tracking_fields; auto.
  - destruct (redrawCanvas_setCanvas
                (handleZoomChange direction clientWidth clientHeight st)) as (c & ->).
    apply setCanvas_Tracking. unfold handleZoomChange.
    destruct (canvasRef st); [|exact HT].
    destruct direction; revert HT; apply Tracking_fields; auto.
Qed.

Lemma reachable_Tracking canvas0 st : reachable canvas0 st -> Tracking st.
Proof.
  induction 1 as [|st ev Hr IH Hadm].
  - unfold Tracking. cbn. auto.
  - apply step_Tracking; [|exact IH]. now apply (reachable_Consistent canvas0).
Qed.

(** X14: in every reachable state in which no stroke is in progress, or
    one is and the pan tool is not selected, the stroke renderer called for
    an animation frame paints on the canvas exactly when a stroke is in
    progress: its guards on the context and on the two pointer cells never
    stop it during a stroke, and outside a stroke it leaves the bitmap alone.
    It never touches the history, its index or the view.  (A stroke during
    which the pan tool gets selected is left out: the frames then still come
    from the callback of an earlier render.) *)
Theorem frame_paints_during_stroke canvas0 st canvas (painted : list Z) :
  reachable canvas0 st -> canvasRef st = Some canvas ->
  (isDrawing st = true -> isPan (tool st) = false) ->
  let st' := step (AnimationFrame painted) st in
  canvasRef st' = Some (if isDrawing st then setBitmap canvas painted else canvas) /\
  history st' = history st /\ historyIndex st' = historyIndex st /\
  viewTransform st' = viewTransform st /\ isDrawing st' = isDrawing st.
Proof.
  intros Hr Hc Htool st'. subst st'. cbn [step].
  pose proof (reachable_Tracking _ _ Hr) as HT. unfold Tracking in HT.
  unfold renderCanvas. rewrite Hc.
  destruct (isDrawing st) eqn:Hd.
  - destruct HT as (H1 & H2 & H3). specialize (Htool eq_refl).
    destruct (context st); [|contradiction].
    destruct (mousePosRef st); [|contradiction].
    destruct (lastMousePosRef st); [|contradiction].
    cbn [negb]. destruct (tool st); try discriminate; cbn; rewrite ?Hc; auto.
  - destruct (context st), (mousePosRef st), (lastMousePosRef st); cbn; auto.
Qed.

End TrackingFacts.

(** ** What a download exports *)

Section ExportFacts.

Context {num : Type} {N : Number num}.

Implicit Types (st : @State num) (canvas : Canvas).

Local Open Scope string_scope.

(** The temporary canvas after the entry has been put on it. *)
Lemma tempCanvas_entry canvas (entry : ImageData) :
  entrySized canvas entry ->
  putImageData (resize createCanvas (canvas_width canvas) (canvas_height canvas)) entry
  = mkCanvas (canvas_width canvas) (canvas_height canvas) (data entry) true.
Proof.
  intros (Hw & Hh & Hlen).
  rewrite putImageData_same_size; [reflexivity | exact Hw | exact Hh | exact Hlen].
Qed.

(** X16: a download exports the history entry at the index, not the bitmap
    on screen: the entry is put on a temporary canvas of the size of the
    canvas, and the link carries that canvas as PNG or JPEG (quality 0.9)
    data, as the image of an SVG of the same size, or vectorised as DXF,
    under the file name of the format. *)
Theorem handleDownload_exports_entry (options : DesignOptions) (format : Format)
    (ctx : CanvasRenderingContext2D) st canvas (entry : ImageData) :
  canvasRef st = Some canvas ->
  item (history st) (historyIndex st) = Some entry ->
  entrySized canvas entry ->
  (format = dxf -> (0 < canvas_width canvas)%nat /\ (0 < canvas_height canvas)%nat) ->
  let exported :=
      mkCanvas (canvas_width canvas) (canvas_height canvas) (data entry) true in
  snd (handleDownload options format (Some ctx) st) =
    Some (mkLink (FileName.downloadName options format)
                 match format with
                 | png => DataURL "image/png" None exported
                 | jpeg => DataURL "image/jpeg" (Some lit_0_9) exported
                 | svg => SvgBlob (canvas_width canvas) (canvas_height canvas) exported
                 | dxf => DxfBlob (Dxf.generateDxf entry)
                 end).
Proof.
  intros Hc Hi Hs Hdxf exported.
  unfold handleDownload. rewrite Hc.
  destruct (history st) as [|e0 h0] eqn:Hhist; [rewrite item_nil in Hi; discriminate|].
  rewrite Hi, (tempCanvas_entry canvas entry Hs). fold exported.
  destruct format; try reflexivity.
  destruct (Hdxf eq_refl) as [Hw Hh].
  unfold getImageData. subst exported. cbn [canvas_width canvas_height bitmap].
  destruct (Nat.eqb_spec (canvas_width canvas) 0); [lia|].
  destruct (Nat.eqb_spec (canvas_height canvas) 0); [lia|].
  cbn [orb snd]. destruct Hs as (Ew & Eh & _).
  rewrite <- Ew, <- Eh. now destruct entry.
Qed.

Lemma above_blank (n i : nat) : Dxf.above (repeat 0%Z n) i = false.
Proof.
  unfold Dxf.above. destruct (nth_error (repeat 0%Z n) i) as [v|] eqn:E; [|reflexivity].
  apply nth_error_In, repeat_spec in E. now subst v.
Qed.

(** X17: a download while the history is empty, before any image has
    loaded, exports the temporary canvas as it was created: transparent
    black, of the size of the canvas on screen; as DXF that is the empty
    drawing, the header followed by the footer. *)
Theorem handleDownload_before_load (options : DesignOptions) (format : Format)
    (ctx : CanvasRenderingContext2D) st canvas :
  canvasRef st = Some canvas -> history st = [] ->
  (format = dxf -> (0 < canvas_width canvas)%nat /\ (0 < canvas_height canvas)%nat) ->
  let blank :=
      mkCanvas (canvas_width canvas) (canvas_height canvas)
               (repeat 0%Z (canvas_width canvas * canvas_height canvas * 4)) true in
  snd (handleDownload options format (Some ctx) st) =
    Some (mkLink (FileName.downloadName options format)
                 match format with
                 | png => DataURL "image/png" None blank
                 | jpeg => DataURL "image/jpeg" (Some lit_0_9) blank
                 | svg => SvgBlob (canvas_width canvas) (canvas_height canvas) blank
                 | dxf => DxfBlob (Dxf.dxfHeader ++ Dxf.dxfFooter)
                 end).
Proof.
  intros Hc Hh Hdxf blank. unfold handleDownload. rewrite Hc, Hh.
  change (resize createCanvas (canvas_width canvas) (canvas_height canvas)) with blank.
  destruct format; try reflexivity.
  destruct (Hdxf eq_refl) as [Hw Hht].
  unfold getImageData. subst blank. cbn [canvas_width canvas_height bitmap].
  destruct (Nat.eqb_spec (canvas_width canvas) 0); [lia|].
  destruct (Nat.eqb_spec (canvas_height canvas) 0); [lia|].
  cbn [orb snd]. rewrite SegmentFacts.generateDxf_blank; [reflexivity|].
  intros y x _ _. unfold Dxf.isBlack. cbn [data].
  rewrite above_blank. apply andb_false_r.
Qed.

End ExportFacts.

(** ** The scale along a session *)

Module SessionScaleFacts.

Import Float64 Float64Facts ZoomFacts.

Local Open Scope float_scope.

Lemma run_inRange (evs : list (@Event float)) : forall st : @State float,
  inRange (scale (viewTransform st)) = true ->
  inRange (scale (viewTransform (run evs st))) = true.
Proof.
  induction evs as [|ev evs IH]; intros st H; [exact H|].
  cbn [run]. apply IH. now apply step_inRange.
Qed.

(** X13: whatever the events of a session, loads, strokes, pans, undos and
    downloads mixed with wheel and button zooms, the scale [s] of the view
    satisfies [0.1 <= s] and [s <= 10] at every moment; in particular it is
    never NaN. *)
Theorem scale_bounded_along_session (canvas0 : Canvas) (evs : list (@Event float)) :
  let st := run evs (initial canvas0) in
  (0x1.999999999999ap-4 <=? scale (viewTransform st)) = true /\
  (scale (viewTransform st) <=? 10) = true /\
  is_nan (scale (viewTransform st)) = false.
Proof.
  intros st.
  assert (H : inRange (scale (viewTransform st)) = true)
    by (apply run_inRange; reflexivity).
  pose proof (inRange_finite _ H) as (sg & m & e & Hf).
  apply andb_prop in H. destruct H as [Hlo Hhi].
  split; [exact Hlo|]. split; [exact Hhi|].
  apply not_nan_Prim2SF. rewrite Hf. discriminate.
Qed.

End SessionScaleFacts.

(** ** The gestures at work *)

Module GestureSessionFacts.

Import Float64 Session SessionFacts.

Local Open Scope float_scope.

Lemma afterStroke_canvas : canvasRef afterStroke = Some (mkCanvas 2 1 painted true).
Proof. vm_compute. reflexivity. Qed.

Lemma reachable_history_index_witness :
  exists entry, item (history afterStroke) (historyIndex afterStroke) = Some entry.
Proof.
  destruct (reachable_history_index createCanvas afterStroke afterStroke_reachable)
    as [[H _] | (entry & H & _)].
  - vm_compute in H. discriminate.
  - exists entry. exact H.
Defined.

Lemma original_entry_kept_witness :
  nth_error (history (run [Undo; Wheel (wheelIn 1 0); MouseDown (mkMouseEvent 0 0);
                           MouseUp] afterStroke)) 0
    = Some (mkImageData 2 1 loaded).
Proof.
  assert (H0 : nth_error (history afterStroke) 0 = Some (mkImageData 2 1 loaded))
    by (vm_compute; reflexivity).
  assert (Hevs : Forall (fun ev : @Event float => isLoad ev = false)
                        [Undo; Wheel (wheelIn 1 0); MouseDown (mkMouseEvent 0 0);
                         MouseUp])
    by (repeat constructor).
  pose proof (original_entry_kept createCanvas afterStroke _ _
                afterStroke_reachable H0 Hevs) as H.
  cbv zeta in H. destruct H as [H _]. exact H.
Defined.

Lemma stroke_appends_snapshot_witness :
  historyIndex (run (MouseDown (mkMouseEvent 0 0)
                       :: map strokeEvent [PointerMoves (mkMouseEvent 1 0);
                                           FramePaints loaded]
                       ++ [MouseUp]) afterStroke) = 2%Z.
Proof.
  pose proof (stroke_appends_snapshot createCanvas afterStroke (mkCanvas 2 1 painted true)
                (mkMouseEvent 0 0)
                [PointerMoves (mkMouseEvent 1 0); FramePaints loaded] MouseUp
                afterStroke_reachable afterStroke_canvas) as H.
  cbv zeta in H. destruct H as (_ & H & _).
  - vm_compute. discriminate.
  - cbn. lia.
  - cbn. lia.
  - vm_compute. reflexivity.
  - vm_compute. reflexivity.
  - now left.
  - rewrite H. vm_compute. reflexivity.
Defined.

Lemma pan_gesture_witness :
  viewTransform
    (run (MouseDown (mkMouseEvent 10 10)
            :: map MouseMove ([mkMouseEvent 15 12] ++ [mkMouseEvent 30 40])
            ++ [MouseUp])
         (step (SelectTool pan) afterStroke))
    = mkViewTransform 1 (mkPoint 20 30).
Proof.
  pose proof (pan_gesture (step (SelectTool pan) afterStroke) (mkMouseEvent 10 10)
                [mkMouseEvent 15 12] (mkMouseEvent 30 40) MouseUp) as H.
  cbv zeta in H. destruct H as (_ & H & _).
  - vm_compute. reflexivity.
  - vm_compute. reflexivity.
  - now left.
  - rewrite H. vm_compute. reflexivity.
Defined.

Lemma frame_paints_during_stroke_witness :
  canvasRef (step (AnimationFrame loaded)
                  (step (MouseDown (mkMouseEvent 1 0)) afterStroke))
    = Some (mkCanvas 2 1 loaded true) /\
  canvasRef (step (AnimationFrame loaded) afterStroke)
    = Some (mkCanvas 2 1 painted true).
Proof.
  split.
  - pose proof (frame_paints_during_stroke createCanvas
                  (step (MouseDown (mkMouseEvent 1 0)) afterStroke)
                  (mkCanvas 2 1 painted true) loaded) as H.
    cbv zeta in H. destruct H as (H & _).
    + apply reachable_step; [exact afterStroke_reachable | exact I].
    + vm_compute. reflexivity.
    + intros _. vm_compute. reflexivity.
    + rewrite H. vm_compute. reflexivity.
  - pose proof (frame_paints_during_stroke createCanvas afterStroke
                  (mkCanvas 2 1 painted true) loaded
                  afterStroke_reachable afterStroke_canvas) as H.
    cbv zeta in H. destruct H as (H & _).
    + intros Hd. vm_compute in Hd. discriminate.
    + rewrite H. vm_compute. reflexivity.
Defined.

Lemma strokeEvents_wellFormed : wellFormedRun strokeEvents (initial createCanvas).
Proof.
  unfold strokeEvents. cbn [wellFormedRun wellFormed].
  split; [|split; [exact I|split; [|split; exact I]]].
  - vm_compute. repeat split; repeat constructor.
  - intros canvas Hc. vm_compute in Hc. injection Hc as <-. reflexivity.
Qed.

Lemma canvas_shows_current_entry_witness :
  exists canvas entry,
    canvasRef (run strokeEvents (initial createCanvas)) = Some canvas /\
    item (history (run strokeEvents (initial createCanvas)))
         (historyIndex (run strokeEvents (initial createCanvas))) = Some entry /\
    bitmap canvas = data entry.
Proof.
  pose proof (canvas_shows_current_entry createCanvas strokeEvents
                strokeEvents_wellFormed) as H.
  cbv zeta in H. destruct H as (canvas & Hc & _ & H).
  destruct H as (entry & Hi & Hb).
  - vm_compute. reflexivity.
  - vm_compute. discriminate.
  - exists canvas, entry. split; [exact Hc|]. split; [exact Hi | exact Hb].
Defined.

Lemma handleDownload_exports_entry_witness :
  snd (handleDownload (mkDesignOptions "Wood" "2D Flat") dxf (Some Context2D) afterStroke)
    = Some (mkLink "cnc-design-wood-2d-flat.dxf"
                   (DxfBlob (Dxf.generateDxf (mkImageData 2 1 painted)))).
Proof.
  pose proof (handleDownload_exports_entry (mkDesignOptions "Wood" "2D Flat") dxf
                Context2D afterStroke (mkCanvas 2 1 painted true)
                (mkImageData 2 1 painted) afterStroke_canvas) as H.
  cbv zeta in H. rewrite H.
  - reflexivity.
  - vm_compute. reflexivity.
  - repeat split.
  - intros _. cbn. lia.
Defined.

Lemma handleDownload_before_load_witness :
  snd (handleDownload (mkDesignOptions "Wood" "2D Flat") dxf (Some Context2D)
                      (initial (num := float) (mkCanvas 2 1 [] true)))
    = Some (mkLink "cnc-design-wood-2d-flat.dxf"
                   (DxfBlob (Dxf.dxfHeader ++ Dxf.dxfFooter)%string)).
Proof.
  pose proof (handleDownload_before_load (mkDesignOptions "Wood" "2D Flat") dxf
                Context2D (initial (num := float) (mkCanvas 2 1 [] true))
                (mkCanvas 2 1 [] true) eq_refl eq_refl) as H.
  cbv zeta in H. rewrite H.
  - reflexivity.
  - intros _. cbn. lia.
Defined.

End GestureSessionFacts.
